(** * pyBEEP REST API: job orchestration, progress estimation, run storage
      and NAS synchronisation

    A shallow embedding of the bookkeeping code of [rest_api/] and the
    properties of its specification.

    - [Storage]   : [storage.py], path-segment sanitisation and the run index
    - [Estimate]  : [progress_utils.estimate_planned_duration] on binary64
    - [Progress]  : [progress_utils.compute_progress]
    - [App]       : [app.py], the job/slot registries and their operations
    - [NasSmb], [NasSsh], [Retention] : [nas_smb.py] and [nas.py]
    - [Validation] : [validation.py], the parameter validators
    - [RunIndex]  : [storage.py], the run directory index
    - [Listing]   : [app.py], the job overview

    Python strings are modelled as sequences of 8-bit code points
    ([string]); every character class used by the code is ASCII. *)

From Stdlib Require Import ZArith QArith Qround Lqa Floats Ascii String.
From stdpp Require Import gmap strings list fin_maps sorting pretty.

Local Open Scope string_scope.

(** The exceptions the modelled code can raise besides [HTTPException]. *)
Inductive pyexn : Type :=
| TypeError | ValueError | OverflowError | OSError | AttributeError
| RuntimeError.

(** Outcome of a request handler: a value, a raised [HTTPException] (status
    code, machine-readable code, message), or another exception that
    leaves the handler. *)
Inductive result (A : Type) : Type :=
| Ok (a : A)
| HTTPException (status_code : Z) (code : string) (message : string)
| Unhandled (e : pyexn).
Arguments Ok {A} a.
Arguments HTTPException {A} status_code code message.
Arguments Unhandled {A} e.

(* ===================================================================== *)
(** * storage.py                                                          *)
(* ===================================================================== *)
Module Storage.

(** ** Characters and the primitives of [str] and [re] the code uses *)

Definition in_range (lo hi : N) (c : ascii) : bool :=
  ((lo <=? N_of_ascii c) && (N_of_ascii c <=? hi))%N.

(** [str.isspace] on the code points below 256. *)
Definition is_space (c : ascii) : bool :=
  in_range 9 13 c || in_range 28 32 c
  || (N_of_ascii c =? 133)%N || (N_of_ascii c =? 160)%N.

Definition is_digit (c : ascii) : bool := in_range 48 57 c.
Definition is_upper (c : ascii) : bool := in_range 65 90 c.
Definition is_lower (c : ascii) : bool := in_range 97 122 c.
Definition is_alnum (c : ascii) : bool := is_digit c || is_upper c || is_lower c.

Definition underscore : ascii := "_"%char.
Definition hyphen : ascii := "-"%char.

(** The complement of [PATH_SEGMENT_RE]'s class, [0-9A-Za-z_-]. *)
Definition path_allowed (c : ascii) : bool :=
  is_digit c || is_upper c || is_lower c
  || Ascii.eqb c underscore || Ascii.eqb c hyphen.

(** The complement of [CLIENT_DATETIME_RE]'s class, [0-9A-Za-zT_-]. *)
Definition datetime_allowed (c : ascii) : bool :=
  is_digit c || is_upper c || is_lower c || Ascii.eqb c "T"%char
  || Ascii.eqb c underscore || Ascii.eqb c hyphen.

(** The characters [str.strip("_-")] removes. *)
Definition is_sep (c : ascii) : bool :=
  Ascii.eqb c underscore || Ascii.eqb c hyphen.

Fixpoint lstrip (p : ascii -> bool) (s : string) : string :=
  match s with
  | "" => ""
  | String c t => if p c then lstrip p t else s
  end.

Fixpoint rstrip (p : ascii -> bool) (s : string) : string :=
  match s with
  | "" => ""
  | String c t =>
      match rstrip p t with
      | "" => if p c then "" else String c ""
      | t' => String c t'
      end
  end.

Definition strip (p : ascii -> bool) (s : string) : string :=
  rstrip p (lstrip p s).

(** [re.sub(r"[cls]+", rep, s)]: every maximal run of characters of the
    class is replaced by one [rep]. [in_run] tells that the previous
    character belonged to the run being replaced. *)
Fixpoint sub_runs (cls : ascii -> bool) (rep : ascii) (in_run : bool)
    (s : string) : string :=
  match s with
  | "" => ""
  | String c t =>
      if cls c then
        if in_run then sub_runs cls rep true t
        else String rep (sub_runs cls rep true t)
      else String c (sub_runs cls rep false t)
  end.

(** [re.sub(r"[cls]{2,}", rep, s)]: runs of length at least two are
    replaced, a single occurrence is kept as it is. *)
Fixpoint sub_runs2 (cls : ascii -> bool) (rep : ascii) (in_run : bool)
    (s : string) : string :=
  match s with
  | "" => ""
  | String c t =>
      if cls c then
        if in_run then sub_runs2 cls rep true t
        else
          match t with
          | "" => String c ""
          | String d _ =>
              if cls d then String rep (sub_runs2 cls rep true t)
              else String c (sub_runs2 cls rep false t)
          end
      else String c (sub_runs2 cls rep false t)
  end.

(** [str.replace(a, b)] for one-character [a] and [b]. *)
Fixpoint replace_char (a b : ascii) (s : string) : string :=
  match s with
  | "" => ""
  | String c t => String (if Ascii.eqb c a then b else c) (replace_char a b t)
  end.

(** ** [value_or_none], [sanitize_path_segment], [sanitize_optional_segment],
       [sanitize_client_datetime] *)

Definition value_or_none (value : option string) : option string :=
  match value with
  | None => None
  | Some v => let trimmed := strip is_space v in
              if String.eqb trimmed "" then None else Some trimmed
  end.

(** The four cleaning statements of [sanitize_path_segment], applied to the
    trimmed input. *)
Definition clean_path_segment (trimmed : string) : string :=
  let sanitized := sub_runs (fun c => negb (path_allowed c)) underscore false trimmed in
  let sanitized := sub_runs (Ascii.eqb underscore) underscore false sanitized in
  let sanitized := sub_runs (Ascii.eqb hyphen) hyphen false sanitized in
  strip is_sep sanitized.

Definition sanitize_path_segment (raw : option string) (field_name : string)
    : result string :=
  let trimmed := strip is_space (default "" raw) in
  if String.eqb trimmed "" then
    HTTPException 400 "" (field_name ++ " darf nicht leer sein")
  else
    let sanitized := clean_path_segment trimmed in
    if String.eqb sanitized "" then
      HTTPException 400 "" (field_name ++ " ist ungueltig")
    else Ok sanitized.

Definition sanitize_optional_segment (value : option string)
    : result (option string) :=
  match value_or_none value with
  | None => Ok None
  | Some candidate =>
      match sanitize_path_segment (Some candidate) "subdir" with
      | Ok s => Ok (Some s)
      | HTTPException sc c m => HTTPException sc c m
      | Unhandled e => Unhandled e
      end
  end.

Definition normalize_client_datetime (trimmed : string) : string :=
  replace_char "."%char hyphen
    (replace_char "\"%char hyphen
       (replace_char "/"%char hyphen
          (replace_char " "%char underscore
             (replace_char ":"%char hyphen trimmed)))).

Definition clean_client_datetime (trimmed : string) : string :=
  let normalized := normalize_client_datetime trimmed in
  let sanitized := sub_runs (fun c => negb (datetime_allowed c)) hyphen false normalized in
  let sanitized := sub_runs2 (Ascii.eqb hyphen) hyphen false sanitized in
  let sanitized := sub_runs2 (Ascii.eqb underscore) underscore false sanitized in
  strip is_sep sanitized.

Definition sanitize_client_datetime (raw : option string) : result string :=
  let trimmed := strip is_space (default "" raw) in
  if String.eqb trimmed "" then
    HTTPException 400 "" "client_datetime darf nicht leer sein"
  else
    let sanitized := clean_client_datetime trimmed in
    if String.eqb sanitized "" then
      HTTPException 400 "" "client_datetime ist ungueltig"
    else Ok sanitized.

(** ** What a safe path segment is *)

Fixpoint all_chars (p : ascii -> bool) (s : string) : bool :=
  match s with
  | "" => true
  | String c t => p c && all_chars p t
  end.

(** Two adjacent occurrences of [c]. *)
Fixpoint has_double (c : ascii) (s : string) : bool :=
  match s with
  | "" => false
  | String a t =>
      match t with
      | "" => false
      | String b _ => (Ascii.eqb a c && Ascii.eqb b c) || has_double c t
      end
  end.

Definition first_char (s : string) : option ascii :=
  match s with "" => None | String c _ => Some c end.

Fixpoint last_char (s : string) : option ascii :=
  match s with
  | "" => None
  | String c "" => Some c
  | String _ t => last_char t
  end.

Definition not_sep (o : option ascii) : bool :=
  match o with None => true | Some c => negb (is_sep c) end.

(** A name that stays inside one directory level: no separator of either
    flavour, no NUL, and neither of the two relative names. *)
Definition single_component (s : string) : bool :=
  all_chars (fun c => negb (Ascii.eqb c "/"%char) && negb (Ascii.eqb c "\"%char)
                      && negb (Ascii.eqb c "."%char)
                      && negb (N_of_ascii c =? 0)%N) s
  && negb (String.eqb s "").

Record safe_segment (allowed : ascii -> bool) (s : string) : Prop := {
  seg_nonempty : s <> "";
  seg_allowed : all_chars allowed s = true;
  seg_no_double_underscore : has_double underscore s = false;
  seg_no_double_hyphen : has_double hyphen s = false;
  seg_first : not_sep (first_char s) = true;
  seg_last : not_sep (last_char s) = true;
  seg_component : single_component s = true
}.

End Storage.

(* ===================================================================== *)
(** * Python values, exceptions and binary64 arithmetic                   *)
(* ===================================================================== *)

(** A computation that returns or raises. *)
Inductive outcome (A : Type) : Type :=
| Return (a : A)
| Raise (e : pyexn).
Arguments Return {A} a.
Arguments Raise {A} e.

#[global] Instance outcome_ret : MRet outcome := fun A a => Return a.
#[global] Instance outcome_bind : MBind outcome := fun A B f m =>
  match m with
  | Return a => f a
  | Raise e => Raise e
  end.

(** A JSON value as it arrives in a parameter bundle. *)
#[warnings="-register-all"]
Inductive pyval : Type :=
| PyNone
| PyBool (b : bool)
| PyInt (z : Z)
| PyFloat (f : float)
| PyStr (s : string)
| PyList (l : list pyval)
| PyDict.

Module Py.

(** [float(n)] for an [int]: the nearest binary64, ties to even. *)
Definition float_of_Z (z : Z) : float :=
  SF2Prim (binary_normalize prec emax z 0 false).

(** [int(x)] for a finite float: truncation towards zero. *)
Definition Z_of_float (x : float) : Z :=
  match Prim2SF x with
  | S754_finite s m e =>
      let v := if (0 <=? e)%Z then (Z.pos m * 2 ^ e)%Z
               else (Z.pos m / 2 ^ (- e))%Z in
      if s then (- v)%Z else v
  | _ => 0%Z
  end.

(** [round(x)] for a float: the nearest integer, ties to even;
    [OverflowError] on an infinity and [ValueError] on a NaN. *)
Definition round (x : float) : outcome Z :=
  match Prim2SF x with
  | S754_zero _ => Return 0%Z
  | S754_infinity _ => Raise OverflowError
  | S754_nan => Raise ValueError
  | S754_finite s m e =>
      let v :=
        if (0 <=? e)%Z then (Z.pos m * 2 ^ e)%Z
        else
          let d := (2 ^ (- e))%Z in
          let q := (Z.pos m / d)%Z in
          let r := (Z.pos m mod d)%Z in
          if (2 * r <? d)%Z then q
          else if (d <? 2 * r)%Z then (q + 1)%Z
          else if Z.even q then q else (q + 1)%Z in
      Return (if s then (- v)%Z else v)
  end.

(** [max(a, b)] on floats: [b] when [b > a], else [a]. *)
Definition max (a b : float) : float := if PrimFloat.ltb a b then b else a.

(** Truth value of a float. *)
Definition truthy (x : float) : bool := negb (PrimFloat.eqb x 0).

(** [math.isclose(a, b, rel_tol=1e-9)] with the default [abs_tol=0.0]. *)
Definition isclose (a b : float) : bool :=
  let rel_tol := 0x1.12e0be826d695p-30%float in
  if PrimFloat.eqb a b then true
  else if PrimFloat.is_infinity a || PrimFloat.is_infinity b then false
  else
    let diff := PrimFloat.abs (PrimFloat.sub b a) in
    PrimFloat.leb diff (PrimFloat.abs (PrimFloat.mul rel_tol b))
    || PrimFloat.leb diff (PrimFloat.abs (PrimFloat.mul rel_tol a))
    || PrimFloat.leb diff 0.

Definition upper_char (c : ascii) : ascii :=
  if Storage.is_lower c then ascii_of_N (N_of_ascii c - 32) else c.

Definition lower_char (c : ascii) : ascii :=
  if Storage.is_upper c then ascii_of_N (N_of_ascii c + 32) else c.

Fixpoint map_chars (f : ascii -> ascii) (s : string) : string :=
  match s with
  | "" => ""
  | String c t => String (f c) (map_chars f t)
  end.

(** [str.upper] and [str.lower] on ASCII letters. *)
Definition upper (s : string) : string := map_chars upper_char s.
Definition lower (s : string) : string := map_chars lower_char s.

(** [sep.join(parts)]. *)
Fixpoint join (sep : string) (parts : list string) : string :=
  match parts with
  | [] => ""
  | [p] => p
  | p :: rest => p ++ sep ++ join sep rest
  end.

(** [sorted] on a list of strings: code-point order. *)
Definition str_le (a b : string) : Prop := String.leb a b = true.
#[global] Instance str_le_dec a b : Decision (str_le a b).
Proof. unfold str_le. apply _. Defined.
Definition sorted (l : list string) : list string := merge_sort str_le l.

End Py.

(* ===================================================================== *)
(** * progress_utils.py : estimate_planned_duration                       *)
(* ===================================================================== *)
Module Estimate.
Section WithLibm.

(** What [float] makes of a string ([None]: it raises [ValueError]), and
    [math.log10] and [10 ** x] of the C library. *)
Variable float_of_str : string -> option float.
Variable log10 : float -> outcome float.
Variable pow10 : float -> outcome float.

(** [float(value)]. *)
Definition py_float (value : pyval) : outcome float :=
  match value with
  | PyNone => Raise TypeError
  | PyBool b => Return (if b then 1%float else 0%float)
  | PyInt z =>
      let f := Py.float_of_Z z in
      if PrimFloat.is_infinity f then Raise OverflowError else Return f
  | PyFloat f => Return f
  | PyStr s =>
      match float_of_str s with
      | Some f => Return f
      | None => Raise ValueError
      end
  | PyList _ => Raise TypeError
  | PyDict => Raise TypeError
  end.

Definition _as_float (value : pyval) : outcome (option float) :=
  match py_float value with
  | Raise TypeError => Return None
  | Raise ValueError => Return None
  | Raise e => Raise e
  | Return num =>
      if PrimFloat.is_nan num || PrimFloat.is_infinity num then Return None
      else Return (Some num)
  end.

Definition _as_positive_float (value : pyval) : outcome (option float) :=
  num ← _as_float value;
  match num with
  | None => Return None
  | Some num => if PrimFloat.leb num 0 then Return None else Return (Some num)
  end.

Definition _as_positive_int (value : pyval) : outcome (option Z) :=
  num ← _as_positive_float value;
  match num with
  | None => Return None
  | Some num =>
      let integer := Py.Z_of_float num in
      if (integer <=? 0)%Z then Return None else Return (Some integer)
  end.

(** [params.get(key)]. *)
Definition get (params : gmap string pyval) (key : string) : pyval :=
  default PyNone (params !! key).

Definition setup : float := 1%float.

(** [value and ...] on an optional float: present and not zero. *)
Definition present (o : option float) : bool :=
  match o with
  | Some x => Py.truthy x
  | None => false
  end.

Definition present_int (o : option Z) : bool :=
  match o with
  | Some n => negb (n =? 0)%Z
  | None => false
  end.

Definition estimate_cv (params : gmap string pyval) : outcome (option float) :=
  scan_rate ← _as_positive_float (get params "scan_rate");
  cycles ← _as_positive_float (get params "cycles");
  start ← _as_float (get params "start");
  vertex1 ← _as_float (get params "vertex1");
  vertex2 ← _as_float (get params "vertex2");
  end_ ← _as_float (get params "end");
  match scan_rate, cycles, start, vertex1, vertex2, end_ with
  | Some scan_rate, Some cycles, Some start, Some vertex1, Some vertex2, Some end_ =>
      if negb (Py.truthy scan_rate) then Return None
      else
        let sweep := (abs (vertex1 - start) + abs (vertex2 - vertex1)
                      + abs (end_ - vertex2))%float in
        if PrimFloat.leb sweep 0 then Return None
        else
          let base := ((sweep / scan_rate) * Py.max cycles 1)%float in
          Return (Some (base + setup)%float)
  | _, _, _, _, _, _ => Return None
  end.

Definition estimate_duration (params : gmap string pyval) (key : string)
    : outcome (option float) :=
  duration ← _as_positive_float (get params key);
  match duration with
  | None => Return None
  | Some duration => Return (Some (duration + setup)%float)
  end.

Definition estimate_lsv (params : gmap string pyval) : outcome (option float) :=
  start ← _as_float (get params "start");
  end_ ← _as_float (get params "end");
  scan_rate ← _as_positive_float (get params "scan_rate");
  match start, end_, scan_rate with
  | Some start, Some end_, Some scan_rate =>
      if negb (Py.truthy scan_rate) then Return None
      else
        let base := (abs (end_ - start) / scan_rate)%float in
        Return (Some (base + setup)%float)
  | _, _, _ => Return None
  end.

(** PSTEP and STEPSEQ: the length of a list times the step duration. *)
Definition estimate_steps (params : gmap string pyval) (key : string)
    : outcome (option float) :=
  let values := get params key in
  step_duration ← _as_positive_float (get params "step_duration");
  match values, step_duration with
  | PyList l, Some step_duration =>
      if negb (Py.truthy step_duration) then Return None
      else
        let steps := Z.of_nat (length l) in
        if (steps <=? 0)%Z then Return None
        else
          let base := (Py.float_of_Z steps * step_duration)%float in
          Return (Some (base + setup)%float)
  | _, _ => Return None
  end.

Definition estimate_gs (params : gmap string pyval) : outcome (option float) :=
  num_steps ← _as_positive_int (get params "num_steps");
  step_duration ← _as_positive_float (get params "step_duration");
  match num_steps, step_duration with
  | Some num_steps, Some step_duration =>
      if (num_steps =? 0)%Z || negb (Py.truthy step_duration) then Return None
      else
        let base := (Py.float_of_Z num_steps * step_duration)%float in
        Return (Some (base + setup)%float)
  | _, _ => Return None
  end.

Definition estimate_gcv (params : gmap string pyval) : outcome (option float) :=
  num_steps ← _as_positive_int (get params "num_steps");
  step_duration ← _as_positive_float (get params "step_duration");
  cycles ← _as_positive_int (get params "cycles");
  match num_steps, step_duration, cycles with
  | Some num_steps, Some step_duration, Some cycles =>
      if (num_steps =? 0)%Z || negb (Py.truthy step_duration) || (cycles =? 0)%Z
      then Return None
      else
        let base := (Py.float_of_Z num_steps * step_duration
                     * Py.float_of_Z (Z.max cycles 1))%float in
        Return (Some (base + setup)%float)
  | _, _, _ => Return None
  end.

(** [[g(i) for i in range(points)]] for a [g] that may raise. *)
Fixpoint comprehension (g : Z -> outcome float) (indices : list Z)
    : outcome (list float) :=
  match indices with
  | [] => Return []
  | i :: rest =>
      x ← g i;
      xs ← comprehension g rest;
      Return (x :: xs)
  end.

(** [str(params.get("spacing") or "log").strip().lower() == "lin"]: only a
    string can print as ["lin"]. *)
Definition spacing_is_lin (params : gmap string pyval) : bool :=
  match get params "spacing" with
  | PyStr s => String.eqb (Py.lower (Storage.strip Storage.is_space s)) "lin"
  | _ => false
  end.

(** The frequency points of an EIS sweep. *)
Definition eis_freqs (params : gmap string pyval)
    (start_freq end_freq points_per_decade : float) : outcome (list float) :=
  if Py.isclose start_freq end_freq then Return [start_freq]
  else
    log_e ← log10 end_freq;
    log_s ← log10 start_freq;
    let decades := abs (log_e - log_s)%float in
    rounded ← Py.round (decades * points_per_decade)%float;
    let points := Z.max (rounded + 1) 2 in
    if spacing_is_lin params then
      let step := ((end_freq - start_freq) / Py.float_of_Z (points - 1))%float in
      Return ((fun i => (start_freq + Py.float_of_Z i * step)%float)
                <$> seqZ 0 points)
    else
      log_start ← log10 start_freq;
      log_end ← log10 end_freq;
      let step_log := ((log_end - log_start) / Py.float_of_Z (points - 1))%float in
      comprehension
        (fun i => pow10 (log_start + Py.float_of_Z i * step_log)%float)
        (seqZ 0 points).

Definition estimate_eis (params : gmap string pyval) : outcome (option float) :=
  start_freq ← _as_positive_float (get params "start_freq");
  end_freq ← _as_positive_float (get params "end_freq");
  points_per_decade ← _as_positive_float (get params "points_per_decade");
  given ← _as_positive_float (get params "cycles_per_freq");
  let cycles_per_freq := if present given then default 3%float given else 3%float in
  match start_freq, end_freq, points_per_decade with
  | Some start_freq, Some end_freq, Some points_per_decade =>
      if negb (Py.truthy start_freq) || negb (Py.truthy end_freq)
         || negb (Py.truthy points_per_decade) || negb (Py.truthy cycles_per_freq)
      then Return None
      else
        freqs ← eis_freqs params start_freq end_freq points_per_decade;
        let terms :=
          (fun f => (cycles_per_freq / f)%float)
            <$> filter (fun f => Py.truthy f && PrimFloat.ltb 0 f = true) freqs in
        let total := foldl PrimFloat.add 0%float terms in
        if PrimFloat.leb total 0 then Return None
        else Return (Some (total + setup)%float)
  | _, _, _ => Return None
  end.

Definition estimate_planned_duration (mode : option string)
    (params : gmap string pyval) : outcome (option float) :=
  match mode with
  | None => Return None
  | Some mode =>
      if String.eqb mode "" || bool_decide (params = ∅) then Return None
      else
        let mode_key := Py.upper mode in
        if String.eqb mode_key "CV" then estimate_cv params
        else if String.eqb mode_key "CA" || String.eqb mode_key "CP"
                || String.eqb mode_key "OCP"
        then estimate_duration params "duration"
        else if String.eqb mode_key "LSV" then estimate_lsv params
        else if String.eqb mode_key "PSTEP" then estimate_steps params "potentials"
        else if String.eqb mode_key "GS" then estimate_gs params
        else if String.eqb mode_key "GCV" then estimate_gcv params
        else if String.eqb mode_key "STEPSEQ" then estimate_steps params "currents"
        else if String.eqb mode_key "DC" then estimate_duration params "duration_s"
        else if String.eqb mode_key "EIS" then estimate_eis params
        else Return None
  end.

End WithLibm.
End Estimate.

(* ===================================================================== *)
(** * progress_utils.py : parse_iso and compute_progress                  *)
(* ===================================================================== *)

(** Instants are microseconds since the epoch, as [datetime] counts them.
    The inputs are the code's: a binary64 planned duration and integer
    microsecond instants. The arithmetic between them is carried out on
    their exact rational values: the rounding of the intermediate
    quotient and product to binary64 is not modelled. *)
Module Progress.

(** The exact value of a finite float; [None] for an infinity or a NaN. *)
Definition Q_of_float (x : float) : option Q :=
  match Prim2SF x with
  | S754_zero _ => Some 0%Q
  | S754_finite s m e =>
      let n := if s then Z.neg m else Z.pos m in
      Some (if (0 <=? e)%Z then Qmake (n * 2 ^ e) 1
            else Qmake n (Z.to_pos (2 ^ (- e))))
  | S754_infinity _ => None
  | S754_nan => None
  end.

Definition Qmax (a b : Q) : Q := if Qle_bool a b then b else a.
Definition Qmin (a b : Q) : Q := if Qle_bool b a then b else a.

(** [round(q)]: the nearest integer, ties to even. *)
Definition round_half_even (q : Q) : Z :=
  let f := Qfloor q in
  match Qcompare (q - inject_Z f) (1 # 2) with
  | Lt => f
  | Gt => (f + 1)%Z
  | Eq => if Z.even f then f else (f + 1)%Z
  end.

(** One entry of the [slots] argument: the two keys [compute_progress]
    reads. *)
Record slot := {
  status : string;
  started_at : option string
}.

Record metrics := {
  progress_pct : Z;
  remaining_s : option Z
}.

(** [ts.replace("Z", "+00:00")]. *)
Fixpoint replace_Z (ts : string) : string :=
  match ts with
  | "" => ""
  | String c t =>
      if Ascii.eqb c "Z"%char then "+00:00" ++ replace_Z t
      else String c (replace_Z t)
  end.

Definition endswith_Z (ts : string) : bool :=
  match Storage.last_char ts with
  | Some c => Ascii.eqb c "Z"%char
  | None => false
  end.

Section WithClock.

(** [datetime.fromisoformat] followed by the normalisation to UTC
    ([None]: it raises). *)
Variable fromisoformat : string -> option Z.

Definition parse_iso (ts : option string) : option Z :=
  match ts with
  | None => None
  | Some ts =>
      if String.eqb ts "" then None
      else
        let normalized := if endswith_Z ts then replace_Z ts else ts in
        fromisoformat normalized
  end.

(** [max((now - started).total_seconds(), 0.0)]. *)
Definition elapsed_s (now started : Z) : Q :=
  Qmax (Qmake (now - started) 1000000) 0.

(** The percentage a running slot contributes. *)
Definition running_pct (now started : Z) (planned : Q) : Z :=
  let elapsed := elapsed_s now started in
  let pct := round_half_even (Qmin 1 (elapsed / planned) * 100) in
  let pct := if (100 <=? pct)%Z then 99%Z else pct in
  Z.max 0 pct.

(** [max(int(math.ceil(planned_duration_s - elapsed)), 0)]. *)
Definition running_remaining (now started : Z) (planned : Q) : Z :=
  Z.max (Qceiling (planned - elapsed_s now started)) 0.

(** One turn of the loop over the slots: what is appended to
    [slot_progress], and what to [remaining_candidates] if anything. *)
Definition slot_contribution (job_started_at : option string)
    (planned_duration_s : option float) (now : Z) (s : slot)
    : outcome (Z * option Z) :=
  let slot_status := Py.lower (status s) in
  if String.eqb slot_status "done" || String.eqb slot_status "failed" then
    Return (100%Z, Some 0%Z)
  else if String.eqb slot_status "queued" then Return (0%Z, None)
  else if String.eqb slot_status "running" then
    let started :=
      match parse_iso (started_at s) with
      | Some t => Some t
      | None => parse_iso job_started_at
      end in
    match started, planned_duration_s with
    | Some started, Some planned =>
        if Py.truthy planned && PrimFloat.ltb 0 planned then
          match Q_of_float planned with
          | Some p =>
              Return (running_pct now started p,
                      Some (running_remaining now started p))
          | None => Raise OverflowError
          end
        else Return (0%Z, None)
    | _, _ => Return (0%Z, None)
    end
  else Return (0%Z, None).

(** How two results of [slot_contribution] for the same slot at two
    instants compare: both return and the percentage has not decreased, or
    both raise the same exception. *)
Definition not_decreased (r1 r2 : outcome (Z * option Z)) : Prop :=
  match r1, r2 with
  | Return (pct1, _), Return (pct2, _) => (pct1 <= pct2)%Z
  | Raise e1, Raise e2 => e1 = e2
  | _, _ => False
  end.

Fixpoint contributions (job_started_at : option string)
    (planned_duration_s : option float) (now : Z) (slot_list : list slot)
    : outcome (list (Z * option Z)) :=
  match slot_list with
  | [] => Return []
  | s :: rest =>
      c ← slot_contribution job_started_at planned_duration_s now s;
      cs ← contributions job_started_at planned_duration_s now rest;
      Return (c :: cs)
  end.

Definition sumZ (l : list Z) : Z := foldr Z.add 0%Z l.

(** [max(l)] of a non-empty list. *)
Definition maxZ (l : list Z) : option Z :=
  match l with
  | [] => None
  | x :: rest => Some (foldl Z.max x rest)
  end.

Definition any_running (slot_list : list slot) : bool :=
  existsb (fun s => String.eqb (Py.lower (status s)) "running") slot_list.

Definition compute_progress (job_status : option string) (slots : list slot)
    (job_started_at : option string) (planned_duration_s : option float)
    (now : Z) : outcome metrics :=
  let status_norm := Py.lower (default "" job_status) in
  if String.eqb status_norm "done" || String.eqb status_norm "failed" then
    Return {| progress_pct := 100; remaining_s := Some 0%Z |}
  else
    cs ← contributions job_started_at planned_duration_s now slots;
    let slot_progress := fst <$> cs in
    let remaining_candidates := omap snd cs in
    match slot_progress with
    | [] => Return {| progress_pct := 0; remaining_s := None |}
    | _ =>
        let avg_progress :=
          round_half_even
            (Qmake (sumZ slot_progress) (Pos.of_nat (length slot_progress))) in
        let avg_progress :=
          if String.eqb status_norm "running" && any_running slots
          then Z.min avg_progress 99 else avg_progress in
        let remaining_val :=
          if String.eqb status_norm "running" then maxZ remaining_candidates
          else if String.eqb status_norm "done" || String.eqb status_norm "failed"
               then Some 0%Z else None in
        Return {| progress_pct := avg_progress; remaining_s := remaining_val |}
    end.

End WithClock.
End Progress.

(* ===================================================================== *)
(** * app.py : the registries and the operations on them                  *)
(* ===================================================================== *)

(** Concurrency is modelled at the granularity of the code's lock
    sections: a request handler is one atomic step, and a slot worker
    takes one step per section it runs under [JOB_LOCK] (begin, publish the
    current mode, finish; the release of the slot is part of the finish
    step). The clock does not advance inside a step. Starting a thread is
    assumed to succeed. *)
Module App.

(** [Literal["queued", "running", "done", "failed", "cancelled"]]. *)
Inductive run_state : Type := queued | running | done | failed | cancelled.

#[global] Instance run_state_eq_dec : EqDecision run_state.
Proof. solve_decision. Defined.

Definition status_str (s : run_state) : string :=
  match s with
  | queued => "queued"
  | running => "running"
  | done => "done"
  | failed => "failed"
  | cancelled => "cancelled"
  end.

Definition terminal (s : run_state) : bool :=
  match s with
  | done | failed | cancelled => true
  | queued | running => false
  end.

Module SlotStatus.
Record t : Type := mk {
  slot : string;
  status : run_state;
  started_at : option string;
  ended_at : option string;
  message : option string;
  files : list string
}.
End SlotStatus.

Module JobStatus.
Record t : Type := mk {
  run_id : string;
  mode : string;
  started_at : string;
  status : run_state;
  ended_at : option string;
  slots : list SlotStatus.t;
  progress_pct : Z;
  remaining_s : option Z;
  modes : list string;
  current_mode : option string;
  remaining_modes : list string
}.

Definition with_status (s : run_state) (e : option string) (j : t) : t :=
  mk (run_id j) (mode j) (started_at j) s e (slots j) (progress_pct j)
     (remaining_s j) (modes j) (current_mode j) (remaining_modes j).

Definition with_slots (l : list SlotStatus.t) (j : t) : t :=
  mk (run_id j) (mode j) (started_at j) (status j) (ended_at j) l
     (progress_pct j) (remaining_s j) (modes j) (current_mode j)
     (remaining_modes j).

Definition with_modes (m : string) (all : list string) (cur : option string)
    (rest : list string) (j : t) : t :=
  mk (run_id j) m (started_at j) (status j) (ended_at j) (slots j)
     (progress_pct j) (remaining_s j) all cur rest.

Definition with_current (cur : option string) (rest : list string) (j : t) : t :=
  mk (run_id j) (mode j) (started_at j) (status j) (ended_at j) (slots j)
     (progress_pct j) (remaining_s j) (modes j) cur rest.

Definition with_progress (pct : Z) (rem : option Z) (j : t) : t :=
  mk (run_id j) (mode j) (started_at j) (status j) (ended_at j) (slots j)
     pct rem (modes j) (current_mode j) (remaining_modes j).
End JobStatus.

(** The fields of [JobRequest] the bookkeeping reads. [devices = None] is
    the literal ["all"]. *)
Record JobRequest : Type := {
  devices : option (list string);
  modes : list string;
  params_by_mode : gmap string (gmap string pyval);
  experiment_name : string;
  subdir : option string;
  client_datetime : string;
  run_name : option string;
  folder_name : option string;
  make_plot : bool
}.

Record RunStorageInfo : Type := {
  experiment : string;
  storage_subdir : option string;
  timestamp_dir : string;
  timestamp_name : string;
  filename_prefix : string
}.

(** One entry of [JOB_META]. *)
Record meta : Type := {
  meta_mode : string;
  meta_params : gmap string pyval;
  planned_duration_s : option float
}.

(** A slot worker thread: the arguments it was started with and where it
    stands. Its [slot_status] argument is the object at position [w_idx]
    of the job's [slots]. *)
Inductive pc : Type := Created | InSequence | Exited.

Record worker : Type := {
  w_run : string;
  w_slot : string;
  w_idx : nat;
  w_modes : list string;
  w_pc : pc
}.

Definition with_pc (p : pc) (w : worker) : worker :=
  {| w_run := w_run w; w_slot := w_slot w; w_idx := w_idx w;
     w_modes := w_modes w; w_pc := p |}.

(** The module-level registries, the run directory index in memory and on
    disk, the worker threads started so far and the runs handed to
    [NAS.enqueue_upload]. Run directories are POSIX paths relative to
    [RUNS_ROOT]. A [threading.Event] is the boolean it holds. *)
Record state : Type := {
  DEVICES : gset string;
  JOBS : gmap string JobStatus.t;
  SLOT_RUNS : gmap string string;
  JOB_META : gmap string meta;
  JOB_GROUP_IDS : gmap string string;
  JOB_GROUP_FOLDERS : gmap string string;
  CANCEL_FLAGS : gmap string bool;
  RUN_DIRECTORIES : gmap string string;
  run_index : gmap string string;
  threads : list worker;
  uploads : list string
}.

Definition set_DEVICES (v : gset string) (st : state) : state :=
  {| DEVICES := v; JOBS := JOBS st; SLOT_RUNS := SLOT_RUNS st;
     JOB_META := JOB_META st; JOB_GROUP_IDS := JOB_GROUP_IDS st;
     JOB_GROUP_FOLDERS := JOB_GROUP_FOLDERS st; CANCEL_FLAGS := CANCEL_FLAGS st;
     RUN_DIRECTORIES := RUN_DIRECTORIES st; run_index := run_index st;
     threads := threads st; uploads := uploads st |}.

Definition set_JOBS (v : gmap string JobStatus.t) (st : state) : state :=
  {| DEVICES := DEVICES st; JOBS := v; SLOT_RUNS := SLOT_RUNS st;
     JOB_META := JOB_META st; JOB_GROUP_IDS := JOB_GROUP_IDS st;
     JOB_GROUP_FOLDERS := JOB_GROUP_FOLDERS st; CANCEL_FLAGS := CANCEL_FLAGS st;
     RUN_DIRECTORIES := RUN_DIRECTORIES st; run_index := run_index st;
     threads := threads st; uploads := uploads st |}.

Definition set_SLOT_RUNS (v : gmap string string) (st : state) : state :=
  {| DEVICES := DEVICES st; JOBS := JOBS st; SLOT_RUNS := v;
     JOB_META := JOB_META st; JOB_GROUP_IDS := JOB_GROUP_IDS st;
     JOB_GROUP_FOLDERS := JOB_GROUP_FOLDERS st; CANCEL_FLAGS := CANCEL_FLAGS st;
     RUN_DIRECTORIES := RUN_DIRECTORIES st; run_index := run_index st;
     threads := threads st; uploads := uploads st |}.

Definition set_JOB_META (v : gmap string meta) (st : state) : state :=
  {| DEVICES := DEVICES st; JOBS := JOBS st; SLOT_RUNS := SLOT_RUNS st;
     JOB_META := v; JOB_GROUP_IDS := JOB_GROUP_IDS st;
     JOB_GROUP_FOLDERS := JOB_GROUP_FOLDERS st; CANCEL_FLAGS := CANCEL_FLAGS st;
     RUN_DIRECTORIES := RUN_DIRECTORIES st; run_index := run_index st;
     threads := threads st; uploads := uploads st |}.

Definition set_JOB_GROUP_IDS (v : gmap string string) (st : state) : state :=
  {| DEVICES := DEVICES st; JOBS := JOBS st; SLOT_RUNS := SLOT_RUNS st;
     JOB_META := JOB_META st; JOB_GROUP_IDS := v;
     JOB_GROUP_FOLDERS := JOB_GROUP_FOLDERS st; CANCEL_FLAGS := CANCEL_FLAGS st;
     RUN_DIRECTORIES := RUN_DIRECTORIES st; run_index := run_index st;
     threads := threads st; uploads := uploads st |}.

Definition set_JOB_GROUP_FOLDERS (v : gmap string string) (st : state) : state :=
  {| DEVICES := DEVICES st; JOBS := JOBS st; SLOT_RUNS := SLOT_RUNS st;
     JOB_META := JOB_META st; JOB_GROUP_IDS := JOB_GROUP_IDS st;
     JOB_GROUP_FOLDERS := v; CANCEL_FLAGS := CANCEL_FLAGS st;
     RUN_DIRECTORIES := RUN_DIRECTORIES st; run_index := run_index st;
     threads := threads st; uploads := uploads st |}.

Definition set_CANCEL_FLAGS (v : gmap string bool) (st : state) : state :=
  {| DEVICES := DEVICES st; JOBS := JOBS st; SLOT_RUNS := SLOT_RUNS st;
     JOB_META := JOB_META st; JOB_GROUP_IDS := JOB_GROUP_IDS st;
     JOB_GROUP_FOLDERS := JOB_GROUP_FOLDERS st; CANCEL_FLAGS := v;
     RUN_DIRECTORIES := RUN_DIRECTORIES st; run_index := run_index st;
     threads := threads st; uploads := uploads st |}.

Definition set_RUN_DIRECTORIES (v : gmap string string) (st : state) : state :=
  {| DEVICES := DEVICES st; JOBS := JOBS st; SLOT_RUNS := SLOT_RUNS st;
     JOB_META := JOB_META st; JOB_GROUP_IDS := JOB_GROUP_IDS st;
     JOB_GROUP_FOLDERS := JOB_GROUP_FOLDERS st; CANCEL_FLAGS := CANCEL_FLAGS st;
     RUN_DIRECTORIES := v; run_index := run_index st;
     threads := threads st; uploads := uploads st |}.

Definition set_run_index (v : gmap string string) (st : state) : state :=
  {| DEVICES := DEVICES st; JOBS := JOBS st; SLOT_RUNS := SLOT_RUNS st;
     JOB_META := JOB_META st; JOB_GROUP_IDS := JOB_GROUP_IDS st;
     JOB_GROUP_FOLDERS := JOB_GROUP_FOLDERS st; CANCEL_FLAGS := CANCEL_FLAGS st;
     RUN_DIRECTORIES := RUN_DIRECTORIES st; run_index := v;
     threads := threads st; uploads := uploads st |}.

Definition set_threads (v : list worker) (st : state) : state :=
  {| DEVICES := DEVICES st; JOBS := JOBS st; SLOT_RUNS := SLOT_RUNS st;
     JOB_META := JOB_META st; JOB_GROUP_IDS := JOB_GROUP_IDS st;
     JOB_GROUP_FOLDERS := JOB_GROUP_FOLDERS st; CANCEL_FLAGS := CANCEL_FLAGS st;
     RUN_DIRECTORIES := RUN_DIRECTORIES st; run_index := run_index st;
     threads := v; uploads := uploads st |}.

Definition set_uploads (v : list string) (st : state) : state :=
  {| DEVICES := DEVICES st; JOBS := JOBS st; SLOT_RUNS := SLOT_RUNS st;
     JOB_META := JOB_META st; JOB_GROUP_IDS := JOB_GROUP_IDS st;
     JOB_GROUP_FOLDERS := JOB_GROUP_FOLDERS st; CANCEL_FLAGS := CANCEL_FLAGS st;
     RUN_DIRECTORIES := RUN_DIRECTORIES st; run_index := run_index st;
     threads := threads st; uploads := v |}.

(** What the environment contributes to one call of a handler: the run
    identifier generated when the request names none, the two readings of
    the clock, and the file-system call of [start_job] that fails, if any. *)
Inductive io_stage : Type := FailMkdir | FailIndexWrite.

#[global] Instance io_stage_eq_dec : EqDecision io_stage.
Proof. solve_decision. Defined.

Record env : Type := {
  fresh_run_id : string;
  now_iso : string;
  now : Z;
  io_failure : option io_stage
}.

#[global] Instance result_bind : MBind result := fun A B f m =>
  match m with
  | Ok a => f a
  | HTTPException sc c msg => HTTPException sc c msg
  | Unhandled e => Unhandled e
  end.

(** [http_error(status_code, code, message, hint)]; the hint is not kept. *)
Definition http_error {A} (status_code : Z) (code message : string) : result A :=
  HTTPException status_code code message.

Definition _normalize_group_value (value : option string) : option string :=
  Storage.value_or_none value.

(** [a or b] on optional strings. *)
Definition str_or (a b : option string) : option string :=
  match a with
  | Some x => if String.eqb x "" then b else a
  | None => b
  end.

Definition _build_run_storage_info (req : JobRequest) : result RunStorageInfo :=
  let subdir_source :=
    match Storage.value_or_none (subdir req) with
    | None => folder_name req
    | Some _ => subdir req
    end in
  experiment_segment ←
    Storage.sanitize_path_segment (Some (experiment_name req)) "experiment_name";
  subdir_segment ← Storage.sanitize_optional_segment subdir_source;
  timestamp_segment ← Storage.sanitize_client_datetime (Some (client_datetime req));
  let timestamp_name := Storage.replace_char "T" "_" timestamp_segment in
  let filename_parts :=
    ([experiment_segment]
     ++ match str_or subdir_segment None with Some p => [p] | None => [] end
     ++ [timestamp_name])%list in
  Ok {| experiment := experiment_segment;
        storage_subdir := subdir_segment;
        timestamp_dir := timestamp_segment;
        timestamp_name := timestamp_name;
        filename_prefix := Py.join "_" filename_parts |}.

(** The run directory of a submission, relative to [RUNS_ROOT]. *)
Definition run_dir_of (info : RunStorageInfo) : string :=
  let path_parts :=
    (match str_or (Some (experiment info)) None with Some p => [p] | None => [] end
     ++ match str_or (storage_subdir info) None with Some p => [p] | None => [] end)%list in
  Py.join "/" (path_parts ++ [timestamp_dir info])%list.

(** [_update_job_status_locked(JOBS.get(key))]: the job is the object
    stored under [key]. *)
Definition _update_job_status_locked (key : string) (now_iso : string)
    (st : state) : state :=
  match JOBS st !! key with
  | None => st
  | Some job =>
      let statuses := SlotStatus.status <$> JobStatus.slots job in
      if existsb (fun s => bool_decide (s = queued) || bool_decide (s = running))
           statuses
      then
        set_JOBS (<[key := JobStatus.with_status running None job]> (JOBS st)) st
      else
        let status :=
          if existsb (fun s => bool_decide (s = failed)) statuses then failed
          else if existsb (fun s => bool_decide (s = cancelled)) statuses
               then cancelled
               else done in
        let job := JobStatus.with_status status (Some now_iso) job in
        let st := set_JOBS (<[key := job]> (JOBS st)) st in
        let st := set_JOB_META (delete (JobStatus.run_id job) (JOB_META st)) st in
        let st := set_CANCEL_FLAGS (delete (JobStatus.run_id job) (CANCEL_FLAGS st)) st in
        if bool_decide (status = done)
        then set_uploads (uploads st ++ [JobStatus.run_id job])%list st
        else st
  end.

(** [SLOT_RUNS[s] = run_id] for every slot of the submission. *)
Definition reserve (slots : list string) (run_id : string)
    (m : gmap string string) : gmap string string :=
  foldl (fun m s => <[s := run_id]> m) m slots.

(** [if SLOT_RUNS.get(s) == run_id: del SLOT_RUNS[s]] for every slot. *)
Definition release (slots : list string) (run_id : string)
    (m : gmap string string) : gmap string string :=
  foldl (fun m s => if bool_decide (m !! s = Some run_id) then delete s m else m)
        m slots.

(** [storage.forget_run_directory]. *)
Definition _forget_run_directory (run_id : string) (st : state) : state :=
  let st := set_RUN_DIRECTORIES (delete run_id (RUN_DIRECTORIES st)) st in
  set_run_index (delete run_id (run_index st)) st.

Section WithEnvironment.

Variable float_of_str : string -> option float.
Variable log10 : float -> outcome float.
Variable pow10 : float -> outcome float.
Variable fromisoformat : string -> option Z.

Definition estimate_planned_duration :=
  Estimate.estimate_planned_duration float_of_str log10 pow10.

Definition compute_progress := Progress.compute_progress fromisoformat.

Definition record_job_meta (run_id mode : string) (params : gmap string pyval)
    (st : state) : outcome state :=
  planned ← estimate_planned_duration (Some mode) params;
  Return (set_JOB_META
            (<[run_id := {| meta_mode := mode; meta_params := params;
                            planned_duration_s := planned |}]> (JOB_META st)) st).

Definition slot_payload (s : SlotStatus.t) : Progress.slot :=
  {| Progress.status := status_str (SlotStatus.status s);
     Progress.started_at := SlotStatus.started_at s |}.

(** [job_snapshot(job)]: the copy with its derived progress, and
    [JOB_META] as the call leaves it. *)
Definition job_snapshot (job : JobStatus.t) (now : Z) (st : state)
    : state * outcome JobStatus.t :=
  let rid := JobStatus.run_id job in
  let is_running := bool_decide (JobStatus.status job = running) in
  let fresh := {| meta_mode := JobStatus.mode job; meta_params := ∅;
                  planned_duration_s := None |} in
  let '(st, m) :=
    match JOB_META st !! rid with
    | Some m => (st, m)
    | None =>
        if is_running then (set_JOB_META (<[rid := fresh]> (JOB_META st)) st, fresh)
        else (st, fresh)
    end in
  let planned_known :=
    match planned_duration_s m with
    | Some p => (st, Return (Some p))
    | None =>
        let mode := if String.eqb (meta_mode m) "" then JobStatus.mode job
                    else meta_mode m in
        match estimate_planned_duration (Some mode) (meta_params m) with
        | Raise e => (st, Raise e)
        | Return planned =>
            if is_running then
              (set_JOB_META
                 (<[rid := {| meta_mode := meta_mode m;
                              meta_params := meta_params m;
                              planned_duration_s := planned |}]> (JOB_META st)) st,
               Return planned)
            else (st, Return planned)
        end
    end in
  let '(st, planned) := planned_known in
  (st,
   planned ← planned;
   metrics ← compute_progress (Some (status_str (JobStatus.status job)))
               (slot_payload <$> JobStatus.slots job)
               (Some (JobStatus.started_at job)) planned now;
   Return (JobStatus.with_progress (Progress.progress_pct metrics)
             (Progress.remaining_s metrics) job)).

(** The slots a request resolves to. *)
Definition resolve_slots (req : JobRequest) (st : state) : list string :=
  match devices req with
  | None => Py.sorted (elements (DEVICES st))
  | Some l => filter (fun s => s ∈ DEVICES st) l
  end.

(** The first part of [start_job]: the checks and, when all pass, the
    reservation of the resolved slots under [SLOT_STATE_LOCK]. *)
Definition admission (req : JobRequest) (E : env) (st : state)
    : state * result (string * list string) :=
  match modes req with
  | [] => (st, http_error 422 "jobs.invalid_request" "modes must not be empty")
  | _ =>
      match List.find (fun m => bool_decide (params_by_mode req !! m = None))
              (modes req) with
      | Some m =>
          (st, http_error 422 "jobs.invalid_request"
                 ("missing params for mode " ++ m))
      | None =>
          let slots := resolve_slots req st in
          match slots with
          | [] => (st, http_error 400 "jobs.invalid_devices"
                         "Keine gueltigen devices angegeben")
          | _ =>
              let run_id := default (fresh_run_id E) (str_or (run_name req) None) in
              if bool_decide (is_Some (JOBS st !! run_id)) then
                (st, http_error 409 "jobs.run_id_conflict" "run_id bereits aktiv")
              else
                let busy :=
                  Py.sorted (filter (fun s => is_Some (SLOT_RUNS st !! s)) slots) in
                match busy with
                | _ :: _ =>
                    (st, http_error 409 "jobs.slots_busy"
                           ("Slots belegt: " ++ Py.join ", " busy))
                | [] =>
                    (set_SLOT_RUNS (reserve slots run_id (SLOT_RUNS st)) st,
                     Ok (run_id, slots))
                end
          end
      end
  end.

Definition new_slot_status (s : string) : SlotStatus.t :=
  SlotStatus.mk s queued None None None [].

Definition new_worker (run_id : string) (req : JobRequest) (i : nat)
    (s : SlotStatus.t) : worker :=
  {| w_run := run_id; w_slot := SlotStatus.slot s; w_idx := i;
     w_modes := modes req; w_pc := Created |}.

(** The [try] block of [start_job], run on the state the reservation left.
    It returns the state at the point it ended and, when it raised, what. *)
Definition setup_job (req : JobRequest) (E : env) (run_id : string)
    (slots : list string) (st : state) : state * result unit :=
  let slot_statuses := new_slot_status <$> slots in
  match _build_run_storage_info req with
  | HTTPException sc c m => (st, HTTPException sc c m)
  | Unhandled e => (st, Unhandled e)
  | Ok storage_info =>
      let run_dir := run_dir_of storage_info in
      if bool_decide (io_failure E = Some FailMkdir) then (st, Unhandled OSError)
      else
        let st := set_RUN_DIRECTORIES (<[run_id := run_dir]> (RUN_DIRECTORIES st)) st in
        if bool_decide (io_failure E = Some FailIndexWrite)
        then (st, Unhandled OSError)
        else
          let st := set_run_index (<[run_id := run_dir]> (run_index st)) st in
          let raw_group_id :=
            str_or (_normalize_group_value (folder_name req))
                   (_normalize_group_value (subdir req)) in
          let storage_folder := storage_subdir storage_info in
          let first_mode := hd "" (modes req) in
          let job :=
            JobStatus.mk run_id first_mode (now_iso E) running None slot_statuses
              0 None (modes req) (Some first_mode) (tl (modes req)) in
          let st := set_JOBS (<[run_id := job]> (JOBS st)) st in
          let st := set_CANCEL_FLAGS (<[run_id := false]> (CANCEL_FLAGS st)) st in
          match record_job_meta run_id first_mode
                  (default ∅ (params_by_mode req !! first_mode)) st with
          | Raise e => (st, Unhandled e)
          | Return st =>
              let st :=
                match raw_group_id with
                | Some g => set_JOB_GROUP_IDS (<[run_id := g]> (JOB_GROUP_IDS st)) st
                | None => set_JOB_GROUP_IDS (delete run_id (JOB_GROUP_IDS st)) st
                end in
              let st :=
                match str_or storage_folder None with
                | Some f =>
                    set_JOB_GROUP_FOLDERS (<[run_id := f]> (JOB_GROUP_FOLDERS st)) st
                | None =>
                    set_JOB_GROUP_FOLDERS (delete run_id (JOB_GROUP_FOLDERS st)) st
                end in
              (set_threads (threads st ++ imap (new_worker run_id req) slot_statuses)%list st,
               Ok ())
          end
  end.

(** The [except Exception] handler of [start_job]. *)
Definition rollback (run_id : string) (slots : list string) (st : state) : state :=
  let st := set_SLOT_RUNS (release slots run_id (SLOT_RUNS st)) st in
  let st := set_JOBS (delete run_id (JOBS st)) st in
  let st := set_JOB_GROUP_IDS (delete run_id (JOB_GROUP_IDS st)) st in
  let st := set_JOB_GROUP_FOLDERS (delete run_id (JOB_GROUP_FOLDERS st)) st in
  let st := set_CANCEL_FLAGS (delete run_id (CANCEL_FLAGS st)) st in
  let st := set_JOB_META (delete run_id (JOB_META st)) st in
  _forget_run_directory run_id st.

Definition of_outcome {A} (o : outcome A) : result A :=
  match o with
  | Return a => Ok a
  | Raise e => Unhandled e
  end.

(** The second part of [start_job], run on the state the reservation
    left: the [try] block, its handler, and the snapshot returned on
    success. *)
Definition launch (req : JobRequest) (E : env) (run_id : string)
    (slots : list string) (st : state) : state * result JobStatus.t :=
  match setup_job req E run_id slots st with
  | (st, HTTPException sc c m) => (rollback run_id slots st, HTTPException sc c m)
  | (st, Unhandled e) => (rollback run_id slots st, Unhandled e)
  | (st, Ok _) =>
      match JOBS st !! run_id with
      | Some job =>
          let '(st, snap) := job_snapshot job (now E) st in
          (st, of_outcome snap)
      | None => (st, Unhandled TypeError)
      end
  end.

Definition start_job (req : JobRequest) (E : env) (st : state)
    : state * result JobStatus.t :=
  match admission req E st with
  | (st, HTTPException sc c m) => (st, HTTPException sc c m)
  | (st, Unhandled e) => (st, Unhandled e)
  | (st, Ok (run_id, slots)) => launch req E run_id slots st
  end.

(** ** [cancel_job] *)

Definition cancel_slot (now_iso : string) (s : SlotStatus.t) : SlotStatus.t :=
  if bool_decide (SlotStatus.status s = queued) then
    SlotStatus.mk (SlotStatus.slot s) cancelled
      (Some (default now_iso (str_or (SlotStatus.started_at s) None)))
      (Some now_iso) (Some "cancelled") []
  else s.

(** The response body: [{"run_id": ..., "status": ...}]. *)
Record cancel_response : Type := {
  resp_run_id : string;
  resp_status : string
}.

Definition cancel_job (run_id : string) (E : env) (st : state)
    : state * result cancel_response :=
  match JOBS st !! run_id with
  | None => (st, http_error 404 "jobs.not_found" "Unbekannte run_id")
  | Some job =>
      let st :=
        match CANCEL_FLAGS st !! run_id with
        | None => set_CANCEL_FLAGS (<[run_id := false]> (CANCEL_FLAGS st)) st
        | Some _ => st
        end in
      if terminal (JobStatus.status job) then
        (st, Ok {| resp_run_id := run_id;
                   resp_status := status_str (JobStatus.status job) |})
      else
        let st := set_CANCEL_FLAGS (<[run_id := true]> (CANCEL_FLAGS st)) st in
        let queued_slots :=
          SlotStatus.slot
            <$> filter (fun s => SlotStatus.status s = queued) (JobStatus.slots job) in
        let job := JobStatus.with_slots (cancel_slot (now_iso E) <$> JobStatus.slots job) job in
        let st := set_JOBS (<[run_id := job]> (JOBS st)) st in
        let st := _update_job_status_locked run_id (now_iso E) st in
        let st := set_SLOT_RUNS (release queued_slots run_id (SLOT_RUNS st)) st in
        (st, Ok {| resp_run_id := run_id; resp_status := "cancelled" |})
  end.

(** ** [job_status] and [jobs_bulk_status] *)

Definition job_status (run_id : string) (E : env) (st : state)
    : state * result JobStatus.t :=
  match JOBS st !! run_id with
  | None => (st, http_error 404 "jobs.not_found" "Unbekannte run_id")
  | Some job =>
      let '(st, snap) := job_snapshot job (now E) st in
      (st, of_outcome snap)
  end.

(** [[job_snapshot(JOBS[rid]) for rid in run_ids]]. *)
Fixpoint snapshots (run_ids : list string) (now : Z) (st : state)
    : state * result (list JobStatus.t) :=
  match run_ids with
  | [] => (st, Ok [])
  | rid :: rest =>
      match JOBS st !! rid with
      | None => (st, Unhandled TypeError)
      | Some job =>
          match job_snapshot job now st with
          | (st, Raise e) => (st, Unhandled e)
          | (st, Return snap) =>
              match snapshots rest now st with
              | (st, Ok snaps) => (st, Ok (snap :: snaps))
              | (st, err) => (st, err)
              end
          end
      end
  end.

Definition jobs_bulk_status (req_run_ids : list string) (E : env) (st : state)
    : state * result (list JobStatus.t) :=
  let run_ids := filter (fun rid => rid <> "") req_run_ids in
  match run_ids with
  | [] => (st, http_error 400 "jobs.missing_run_ids" "Keine run_ids angegeben")
  | _ =>
      let missing := filter (fun rid => JOBS st !! rid = None) run_ids in
      match missing with
      | _ :: _ =>
          (st, http_error 404 "jobs.run_ids_unknown"
                 ("Unbekannte run_ids: " ++ Py.join ", " (Py.sorted missing)))
      | [] => snapshots run_ids (now E) st
      end
  end.

(** ** The slot worker, [_run_slot_sequence], one step per lock section *)

Definition begin_slot (now_iso : string) (s : SlotStatus.t) : SlotStatus.t :=
  SlotStatus.mk (SlotStatus.slot s) running
    (Some (default now_iso (str_or (SlotStatus.started_at s) None)))
    (SlotStatus.ended_at s) None (SlotStatus.files s).

(** The statements before the loop: the lookup of the controller (a worker
    whose slot is no longer in [DEVICES] dies on it), [CANCEL_FLAGS.setdefault],
    and the first lock section, which sets the slot to running and with it
    the job registered under the run identifier. *)
Definition worker_begin (tid : nat) (E : env) (st : state) : state :=
  match threads st !! tid with
  | Some w =>
      match w_pc w with
      | Created =>
          if bool_decide (w_slot w ∈ DEVICES st) then
            let st := set_threads (<[tid := with_pc InSequence w]> (threads st)) st in
            let st :=
              match CANCEL_FLAGS st !! w_run w with
              | None => set_CANCEL_FLAGS (<[w_run w := false]> (CANCEL_FLAGS st)) st
              | Some _ => st
              end in
            match JOBS st !! w_run w with
            | Some job =>
                let job :=
                  JobStatus.with_slots
                    (alter (begin_slot (now_iso E)) (w_idx w) (JobStatus.slots job)) job in
                let job := JobStatus.with_status running None job in
                set_JOBS (<[w_run w := job]> (JOBS st)) st
            | None => st
            end
          else set_threads (<[tid := with_pc Exited w]> (threads st)) st
      | _ => st
      end
  | None => st
  end.

(** The section at the head of one turn of the loop over the modes. *)
Definition worker_publish (tid : nat) (idx : nat) (st : state) : state :=
  match threads st !! tid with
  | Some w =>
      match w_pc w, w_modes w !! idx, JOBS st !! w_run w with
      | InSequence, Some mode, Some job =>
          let job :=
            JobStatus.with_modes mode (w_modes w) (Some mode)
              (drop (S idx) (w_modes w)) job in
          set_JOBS (<[w_run w := job]> (JOBS st)) st
      | _, _, _ => st
      end
  | None => st
  end.

Definition finish_slot (error : option string) (files_collected : list string)
    (now_iso : string) (s : SlotStatus.t) : SlotStatus.t :=
  let '(status, message) :=
    match error with
    | Some e =>
        if String.eqb e "cancelled" then (cancelled, Some "cancelled")
        else if String.eqb e "" then (done, None)
        else (failed, Some e)
    | None => (done, None)
    end in
  SlotStatus.mk (SlotStatus.slot s) status (SlotStatus.started_at s)
    (Some now_iso) message (Py.sorted files_collected).

(** The last two sections: the slot's terminal status, the recomputation
    of the job's, and the release of the slot. [error] is what the loop
    over the modes left in its variable of that name. *)
Definition worker_finish (tid : nat) (error : option string)
    (files_collected : list string) (E : env) (st : state) : state :=
  match threads st !! tid with
  | Some w =>
      match w_pc w with
      | InSequence =>
          let st := set_threads (<[tid := with_pc Exited w]> (threads st)) st in
          let st :=
            match JOBS st !! w_run w with
            | Some job =>
                let job :=
                  JobStatus.with_slots
                    (alter (finish_slot error files_collected (now_iso E))
                           (w_idx w) (JobStatus.slots job)) job in
                let st := set_JOBS (<[w_run w := job]> (JOBS st)) st in
                let st := _update_job_status_locked (w_run w) (now_iso E) st in
                match JOBS st !! w_run w with
                | Some job =>
                    if terminal (JobStatus.status job) then
                      set_JOBS (<[w_run w := JobStatus.with_current None [] job]>
                                  (JOBS st)) st
                    else st
                | None => st
                end
            | None => st
            end in
          set_SLOT_RUNS (release [w_slot w] (w_run w) (SLOT_RUNS st)) st
      | _ => st
      end
  | None => st
  end.

(** ** The remaining handlers that write a registry *)

(** [discover_devices] with the slots it found. *)
Definition rescan (found : gset string) (st : state) : state :=
  set_DEVICES found st.

(** [POST /runs/{run_id}/upload]. *)
Definition nas_upload_run (run_id : string) (st : state) : state :=
  set_uploads (uploads st ++ [run_id])%list st.

(** ** The states the process can be in *)

(** The state after start-up: [configure_runs_root] has loaded the index
    file and kept the entries whose directory exists. *)
Definition boot (found : gset string) (index : gmap string string)
    (is_dir : string -> bool) : state :=
  {| DEVICES := found; JOBS := ∅; SLOT_RUNS := ∅; JOB_META := ∅;
     JOB_GROUP_IDS := ∅; JOB_GROUP_FOLDERS := ∅; CANCEL_FLAGS := ∅;
     RUN_DIRECTORIES := filter (fun kv => is_dir kv.2 = true) index;
     run_index := index; threads := []; uploads := [] |}.

Inductive step : state -> state -> Prop :=
| step_start_job req E st : step st (start_job req E st).1
| step_cancel_job run_id E st : step st (cancel_job run_id E st).1
| step_job_status run_id E st : step st (job_status run_id E st).1
| step_jobs_bulk_status ids E st : step st (jobs_bulk_status ids E st).1
| step_worker_begin tid E st : step st (worker_begin tid E st)
| step_worker_publish tid idx st : step st (worker_publish tid idx st)
| step_worker_finish tid error files E st :
    step st (worker_finish tid error files E st)
| step_rescan found st : step st (rescan found st)
| step_nas_upload_run run_id st : step st (nas_upload_run run_id st).

Inductive reachable : state -> Prop :=
| reachable_boot found index is_dir : reachable (boot found index is_dir)
| reachable_step st st' : reachable st -> step st st' -> reachable st'.

(** ** The aggregate status rule as the specification words it *)

(** If any slot is queued or running the job is running; else failed if
    any slot failed; else cancelled if any slot was cancelled; else done. *)
Definition spec_aggregate (statuses : list run_state) : run_state :=
  if bool_decide (Exists (fun s => s = queued \/ s = running) statuses) then running
  else if bool_decide (failed ∈ statuses) then failed
  else if bool_decide (cancelled ∈ statuses) then cancelled
  else done.

(** The stored status and end-timestamp of a job agree with the rule. *)
Definition status_consistent (job : JobStatus.t) : Prop :=
  JobStatus.status job = spec_aggregate (SlotStatus.status <$> JobStatus.slots job)
  /\ (JobStatus.status job = running -> JobStatus.ended_at job = None).

(** A worker refers to a registered job and to one of its slots. *)
Definition worker_valid (st : state) (w : worker) : Prop :=
  exists job, JOBS st !! w_run w = Some job
              /\ w_idx w < length (JobStatus.slots job).

(** What every step keeps: each registered job is consistent, and each
    worker refers to a slot of a registered job. *)
Definition invariant (st : state) : Prop :=
  (forall rid job, JOBS st !! rid = Some job -> status_consistent job)
  /\ (forall w, w ∈ threads st -> worker_valid st w).

(** Two results carry the same exception. *)
Definition same_error {A B} (r1 : result A) (r2 : result B) : Prop :=
  match r1, r2 with
  | HTTPException a b c, HTTPException a' b' c' => a = a' /\ b = b' /\ c = c'
  | Unhandled e, Unhandled e' => e = e'
  | _, _ => False
  end.

End WithEnvironment.
(** ** What the registries keep in step *)

Definition slot_names (job : JobStatus.t) : list string :=
  SlotStatus.slot <$> JobStatus.slots job.

(** Every job is stored under its own run identifier; a reserved slot is
    reserved for a registered job that has this slot; scheduling metadata
    is kept only for registered jobs that are not terminal; a cancellation
    flag is kept only for registered jobs. *)
Definition registries_consistent (st : state) : Prop :=
  (forall rid job, JOBS st !! rid = Some job -> JobStatus.run_id job = rid)
  /\ (forall s rid, SLOT_RUNS st !! s = Some rid ->
        exists job, JOBS st !! rid = Some job /\ s ∈ slot_names job)
  /\ (forall rid, is_Some (JOB_META st !! rid) ->
        exists job, JOBS st !! rid = Some job
                    /\ terminal (JobStatus.status job) = false)
  /\ (forall rid, is_Some (CANCEL_FLAGS st !! rid) -> is_Some (JOBS st !! rid)).

(** One step seen from the registries: the job under [key] becomes
    [job'], which keeps the run identifier and the slots of the job it
    replaces, if any; reservations, metadata and flags are added for
    [key] at most. *)
Definition touches (st st' : state) (key : string) (job' : JobStatus.t) : Prop :=
  JOBS st' = <[key := job']> (JOBS st)
  /\ JobStatus.run_id job' = key
  /\ (forall job, JOBS st !! key = Some job -> slot_names job' = slot_names job)
  /\ (forall s rid, SLOT_RUNS st' !! s = Some rid ->
        SLOT_RUNS st !! s = Some rid \/ (rid = key /\ s ∈ slot_names job'))
  /\ (forall rid, is_Some (JOB_META st' !! rid) ->
        (rid = key /\ terminal (JobStatus.status job') = false)
        \/ (rid <> key /\ is_Some (JOB_META st !! rid)))
  /\ (forall rid, is_Some (CANCEL_FLAGS st' !! rid) ->
        rid = key \/ is_Some (CANCEL_FLAGS st !! rid)).

End App.

(* ===================================================================== *)
(** * nas_smb.py and nas.py : the upload workers                          *)
(* ===================================================================== *)

(** The marker files of one run directory, by name, and the set of runs
    being uploaded. *)
Module Nas.

Record state : Type := {
  markers : gmap string string;
  _uploading : gset string
}.

Definition write_text (name content : string) (st : state) : state :=
  {| markers := <[name := content]> (markers st); _uploading := _uploading st |}.

Definition discard (run_id : string) (st : state) : state :=
  {| markers := markers st; _uploading := _uploading st ∖ {[run_id]} |}.

(** [f"{n}"] for an integer. *)
Definition str_of_Z (n : Z) : string := pretty n.

Definition verify_mismatch (local_count remote_count : Z) : string :=
  "verify mismatch local=" ++ str_of_Z local_count
  ++ " remote=" ++ str_of_Z remote_count.

(** [enqueue_upload], the same in both managers: a run that is being
    uploaded is refused; otherwise it is noted and a worker thread is
    started for it. *)
Definition enqueue_upload (run_id : string) (st : state) : state * bool :=
  if bool_decide (run_id ∈ _uploading st) then (st, false)
  else ({| markers := markers st; _uploading := _uploading st ∪ {[run_id]} |},
        true).

End Nas.

(** [nas_smb.NASManager], the manager [app.py] instantiates. *)
Module NasSmb.
Import Nas.

(** What the world answers during one upload: whether a configuration
    loads, whether the run directory resolves, whether the mount and the
    creation of the destination succeed, rsync's return code with its
    error text, the two file counts and the clock. *)
Record env : Type := {
  configured : bool;
  resolves : bool;
  mount_ok : bool;
  rsync_rc : Z;
  rsync_stderr : string;
  local_count : Z;
  remote_count : Z;
  now : string
}.

(** [self._mark_failed(run_dir, reason)]: the class defines no attribute
    of that name, so the lookup raises before anything is written. *)
Definition _mark_failed (reason : string) (st : state) : state * outcome unit :=
  (st, Raise AttributeError).

(** The body of the [try] statement. *)
Definition transfer_and_verify (E : env) (st : state) : state * outcome unit :=
  if negb (mount_ok E) then (st, Raise RuntimeError)
  else if negb (rsync_rc E =? 0)%Z then
    _mark_failed ("rsync rc=" ++ str_of_Z (rsync_rc E) ++ ", err=" ++ rsync_stderr E) st
  else if (remote_count E <? local_count E)%Z then
    _mark_failed (verify_mismatch (local_count E) (remote_count E)) st
  else (write_text "UPLOAD_DONE" (now E) st, Return ()).

Definition _upload_worker (run_id : string) (E : env) (st : state)
    : state * outcome unit :=
  if negb (configured E) then (discard run_id st, Return ())
  else if negb (resolves E) then (discard run_id st, Return ())
  else
    let '(st, r) := transfer_and_verify E st in
    let '(st, r) :=
      match r with
      | Raise _ => _mark_failed "upload error" st
      | Return _ => (st, Return ())
      end in
    (discard run_id st, r).

End NasSmb.

(** [nas.NASManager], the variant over SSH. *)
Module NasSsh.
Import Nas.

(** As for [NasSmb], with the remote [mkdir] in place of the mount, and
    the count command's return code and what [int] makes of its output
    ([None]: it raises). *)
Record env : Type := {
  configured : bool;
  resolves : bool;
  mkdir_ok : bool;
  mkdir_rc : Z;
  rsync_rc : Z;
  local_count : Z;
  count_rc : Z;
  count_stdout : option Z;
  now : string
}.

Definition _mark_failed (reason : string) (st : state) : state :=
  write_text "upload_failed" reason st.

(** The value of the variable [remote_count]. *)
Definition remote_count (E : env) : Z :=
  if (count_rc E =? 0)%Z then default (-1)%Z (count_stdout E) else (-1)%Z.

Definition _upload_worker (run_id : string) (E : env) (st : state) : state :=
  if negb (configured E) then discard run_id st
  else if negb (resolves E) then discard run_id st
  else if negb (mkdir_ok E) then
    discard run_id
      (_mark_failed ("mkdir remote failed: rc=" ++ str_of_Z (mkdir_rc E)) st)
  else
    let st :=
      if negb (rsync_rc E =? 0)%Z then
        _mark_failed ("rsync rc=" ++ str_of_Z (rsync_rc E)) st
      else if (0 <=? remote_count E)%Z && (remote_count E <? local_count E)%Z then
        _mark_failed (verify_mismatch (local_count E) (remote_count E)) st
      else write_text "UPLOAD_DONE" (now E) st in
    discard run_id st.

End NasSsh.

(* ===================================================================== *)
(** * nas_smb.py and nas.py : _apply_retention                            *)
(* ===================================================================== *)

(** The two managers share the text of [_apply_retention]. The tree under
    [runs_root] is a finite map from paths (the segments below the root) to
    nodes; times are microseconds since the epoch. *)
Module Retention.

Abbreviation path := (list string).

(** A file with its modification time ([None]: [stat] raises on it), or a
    directory with its own. *)
Inductive node : Type :=
| File (mtime : option Z)
| Dir (mtime : Z).

Abbreviation tree := (gmap path node).

Definition is_dir (fs : tree) (p : path) : bool :=
  match fs !! p with
  | Some (Dir _) => true
  | _ => false
  end.

Definition marker_of (p : path) : path := (p ++ ["UPLOAD_DONE"])%list.

(** [marker.exists()]. *)
Definition marker_exists (fs : tree) (p : path) : bool :=
  bool_decide (is_Some (fs !! marker_of p)).

(** The time the sweep compares with the cutoff, for a directory whose own
    modification time is [dir_mtime] and whose marker is the node [m]: the
    marker's modification time, or the directory's own when the marker's
    cannot be read. *)
Definition timestamp_of (dir_mtime : Z) (m : node) : Z :=
  match m with
  | File (Some t) => t
  | File None => dir_mtime
  | Dir t => t
  end.

Definition timestamp (fs : tree) (p : path) : option Z :=
  match fs !! p, fs !! marker_of p with
  | Some (Dir dir_mtime), Some m => Some (timestamp_of dir_mtime m)
  | _, _ => None
  end.

(** A directory the sweep may delete: it holds the marker and the time
    the sweep reads for it is not after the cutoff. *)
Definition expired (cutoff : Z) (fs : tree) (p : path) : Prop :=
  is_dir fs p = true /\ marker_exists fs p = true
  /\ exists ts, timestamp fs p = Some ts /\ (ts <= cutoff)%Z.

(** [shutil.rmtree(p)]: the directory and everything below it. *)
Definition rmtree (p : path) (fs : tree) : tree :=
  filter (fun kv => ¬ p `prefix_of` kv.1) fs.

Definition microseconds_per_day : Z := 86400000000.

(** [utcnow() - timedelta(days=retention_days)]. *)
Definition cutoff_of (now retention_days : Z) : Z :=
  (now - retention_days * microseconds_per_day)%Z.

(** The loop over what [rglob] yields, [listing]; the result is the tree
    it leaves and the paths it called [rmtree] on, latest first. *)
Fixpoint sweep (cutoff : Z) (listing : list path) (fs : tree)
    (deleted : list path) : tree * list path :=
  match listing with
  | [] => (fs, deleted)
  | p :: rest =>
      match fs !! p with
      | Some (Dir dir_mtime) =>
          match fs !! marker_of p with
          | None => sweep cutoff rest fs deleted
          | Some m =>
              if (timestamp_of dir_mtime m <=? cutoff)%Z
              then sweep cutoff rest (rmtree p fs) (p :: deleted)
              else sweep cutoff rest fs deleted
          end
      | _ => sweep cutoff rest fs deleted
      end
  end.

Definition _apply_retention (retention_days now : Z) (listing : list path)
    (fs : tree) : tree * list path :=
  sweep (cutoff_of now retention_days) listing fs [].

End Retention.

(* ===================================================================== *)
(** * validation.py                                                       *)
(* ===================================================================== *)
Module Validation.
Local Open Scope list_scope.

Record ValidationIssue : Type := {
  field : string;
  code : string;
  message : string
}.

Record ValidationResult : Type := {
  ok : bool;
  errors : list ValidationIssue;
  warnings : list ValidationIssue
}.

(** What [validate_mode_payload] does: it returns a result or raises
    [UnsupportedModeError] with its message. *)
Inductive checked : Type :=
| Validated (r : ValidationResult)
| UnsupportedModeError (msg : string).

Definition _is_empty (value : pyval) : bool :=
  match value with
  | PyNone => true
  | PyStr s => String.eqb (Storage.strip Storage.is_space s) ""
  | _ => false
  end.

Definition missing_field (name : string) : ValidationIssue :=
  {| field := name; code := "missing_field"; message := "Field is required." |}.

Definition _require_fields (payload : gmap string pyval) (fields : list string)
    (errors : list ValidationIssue) : list ValidationIssue :=
  foldl (fun errors name =>
           if _is_empty (Estimate.get payload name)
           then errors ++ [missing_field name] else errors)
        errors fields.

Definition _warn_not_implemented (warnings : list ValidationIssue)
    (field message : string) : list ValidationIssue :=
  warnings ++ [{| field := field; code := "not_implemented"; message := message |}].

(** [int(x)] for a float: truncation, [ValueError] on a NaN and
    [OverflowError] on an infinity. *)
Definition int_of_float (x : float) : outcome Z :=
  if PrimFloat.is_nan x then Raise ValueError
  else if PrimFloat.is_infinity x then Raise OverflowError
  else Return (Py.Z_of_float x).

(** The body the six placeholder validators share: the required fields
    must be present, and one warning says that nothing else was checked. *)
Definition placeholder (required : list string) (message : string)
    (payload : gmap string pyval) : ValidationResult :=
  let errors := _require_fields payload required [] in
  let warnings := _warn_not_implemented [] "*" message in
  {| ok := bool_decide (errors = []); errors := errors; warnings := warnings |}.

Definition _validate_dc_params : gmap string pyval -> ValidationResult :=
  placeholder ["duration_s"; "voltage_v"]
    "DC validation is not yet implemented; values were not checked.".

Definition _validate_ac_params : gmap string pyval -> ValidationResult :=
  placeholder ["duration_s"; "frequency_hz"; "voltage_v"]
    "AC validation is not yet implemented; values were not checked.".

Definition _validate_lsv_params : gmap string pyval -> ValidationResult :=
  placeholder ["start"; "end"; "scan_rate"]
    "LSV validation is not yet implemented; values were not checked.".

Definition _validate_eis_params : gmap string pyval -> ValidationResult :=
  placeholder ["freq_start_hz"; "freq_end_hz"; "points"; "spacing"]
    "EIS validation is not yet implemented; values were not checked.".

Definition _validate_cdl_params : gmap string pyval -> ValidationResult :=
  placeholder ["vertex_a_v"; "vertex_b_v"; "cycles"]
    "CDL validation is not yet implemented; values were not checked.".

Definition _validate_ca_params : gmap string pyval -> ValidationResult :=
  placeholder ["duration"; "potential"]
    "CDL validation is not yet implemented; values were not checked.".

Section WithFloatText.

(** What [float] makes of a string ([None]: it raises), and what an
    f-string makes of a float. *)
Variable float_of_str : string -> option float.
Variable float_repr : float -> string.

Definition _coerce_float (field : string) (payload : gmap string pyval)
    (errors : list ValidationIssue) (positive : bool)
    (minimum maximum : option float)
    : list ValidationIssue * option float :=
  let raw := Estimate.get payload field in
  if _is_empty raw then (errors ++ [missing_field field], None)
  else
    match Estimate.py_float float_of_str raw with
    | Raise _ =>
        (errors ++ [{| field := field; code := "not_a_number";
                       message := "Value must be numeric." |}], None)
    | Return number =>
        let errors :=
          if positive && PrimFloat.leb number 0 then
            errors ++ [{| field := field; code := "must_be_positive";
                          message := "Value must be greater than zero." |}]
          else errors in
        let errors :=
          match minimum with
          | Some minimum =>
              if PrimFloat.ltb number minimum then
                errors ++ [{| field := field; code := "min_value";
                              message := ("Value must be at least "
                                          ++ float_repr minimum ++ ".")%string |}]
              else errors
          | None => errors
          end in
        let errors :=
          match maximum with
          | Some maximum =>
              if PrimFloat.ltb maximum number then
                errors ++ [{| field := field; code := "max_value";
                              message := ("Value must be at most "
                                          ++ float_repr maximum ++ ".")%string |}]
              else errors
          | None => errors
          end in
        (errors, Some number)
    end.

Definition _coerce_int (field : string) (payload : gmap string pyval)
    (errors : list ValidationIssue) (positive : bool)
    : list ValidationIssue * option Z :=
  let raw := Estimate.get payload field in
  if _is_empty raw then (errors ++ [missing_field field], None)
  else
    match Estimate.py_float float_of_str raw ≫= int_of_float with
    | Raise _ =>
        (errors ++ [{| field := field; code := "not_an_integer";
                       message := "Value must be an integer." |}], None)
    | Return number =>
        let errors :=
          if positive && (number <=? 0)%Z then
            errors ++ [{| field := field; code := "must_be_positive";
                          message := "Value must be greater than zero." |}]
          else errors in
        (errors, Some number)
    end.

Definition voltage_bounds : float * float := ((-10)%float, 10%float).

(** [start == vertex1 == vertex2 == end]. *)
Definition all_equal (start vertex1 vertex2 end_ : float) : bool :=
  PrimFloat.eqb start vertex1 && PrimFloat.eqb vertex1 vertex2
  && PrimFloat.eqb vertex2 end_.

Definition _validate_cv_params (payload : gmap string pyval) : ValidationResult :=
  let errors := [] in
  let warnings := [] in
  let '(errors, start) :=
    _coerce_float "start" payload errors false
      (Some voltage_bounds.1) (Some voltage_bounds.2) in
  let '(errors, vertex1) :=
    _coerce_float "vertex1" payload errors false
      (Some voltage_bounds.1) (Some voltage_bounds.2) in
  let '(errors, vertex2) :=
    _coerce_float "vertex2" payload errors false
      (Some voltage_bounds.1) (Some voltage_bounds.2) in
  let '(errors, end_) :=
    _coerce_float "end" payload errors false
      (Some voltage_bounds.1) (Some voltage_bounds.2) in
  let '(errors, scan_rate) :=
    _coerce_float "scan_rate" payload errors true None None in
  let '(errors, cycles) := _coerce_int "cycles" payload errors true in
  let errors :=
    match start, vertex1, vertex2, end_ with
    | Some start, Some vertex1, Some vertex2, Some end_ =>
        if all_equal start vertex1 vertex2 end_ then
          errors ++ [{| field := "end"; code := "zero_sweep";
                        message := "Potential sweep must span at least one vertex." |}]
        else errors
    | _, _, _, _ => errors
    end in
  let warnings :=
    match scan_rate with
    | Some scan_rate =>
        if PrimFloat.ltb 5 scan_rate then
          warnings ++ [{| field := "scan_rate"; code := "high_value";
                          message := "Scan rate exceeds 5 V/s; verify hardware capability." |}]
        else warnings
    | None => warnings
    end in
  let warnings :=
    match cycles with
    | Some cycles =>
        if (50 <? cycles)%Z then
          warnings ++ [{| field := "cycles"; code := "high_value";
                          message := "Cycle count above 50 may lead to long experiment times." |}]
        else warnings
    | None => warnings
    end in
  {| ok := bool_decide (errors = []); errors := errors; warnings := warnings |}.

Definition _MODE_VALIDATORS (mode_key : string)
    : option (gmap string pyval -> ValidationResult) :=
  if String.eqb mode_key "CV" then Some _validate_cv_params
  else if String.eqb mode_key "DC" then Some _validate_dc_params
  else if String.eqb mode_key "AC" then Some _validate_ac_params
  else if String.eqb mode_key "LSV" then Some _validate_lsv_params
  else if String.eqb mode_key "EIS" then Some _validate_eis_params
  else if String.eqb mode_key "CDL" then Some _validate_cdl_params
  else if String.eqb mode_key "CA" then Some _validate_ca_params
  else None.

Definition validate_mode_payload (mode : string) (params : gmap string pyval)
    : checked :=
  let mode_key := Py.upper mode in
  match _MODE_VALIDATORS mode_key with
  | None => UnsupportedModeError ("Unsupported mode '" ++ mode ++ "'.")%string
  | Some validator => Validated (validator params)
  end.

(** [POST /modes/{mode}/validate], after the key check. *)
Definition validate_mode_params (mode : string) (params : gmap string pyval)
    : result ValidationResult :=
  match validate_mode_payload mode params with
  | Validated r => Ok r
  | UnsupportedModeError msg => HTTPException 404 "modes.not_found" msg
  end.

(** The modes that have a validator. *)
Definition supported : list string := ["CV"; "DC"; "AC"; "LSV"; "EIS"; "CDL"; "CA"].

(** What a CV payload must satisfy to pass: every field present and
    convertible, no voltage below -10 or above 10, a scan rate not at or
    below zero, a cycle count above zero, and four voltages not all equal. *)
Definition in_bounds (x : float) : bool :=
  negb (PrimFloat.ltb x voltage_bounds.1) && negb (PrimFloat.ltb voltage_bounds.2 x).

Definition cv_voltage (payload : gmap string pyval) (name : string) : option float :=
  let raw := Estimate.get payload name in
  if _is_empty raw then None
  else match Estimate.py_float float_of_str raw with
       | Return x => if in_bounds x then Some x else None
       | Raise _ => None
       end.

Definition cv_scan_rate (payload : gmap string pyval) : option float :=
  let raw := Estimate.get payload "scan_rate" in
  if _is_empty raw then None
  else match Estimate.py_float float_of_str raw with
       | Return x => if PrimFloat.leb x 0 then None else Some x
       | Raise _ => None
       end.

Definition cv_cycles (payload : gmap string pyval) : option Z :=
  let raw := Estimate.get payload "cycles" in
  if _is_empty raw then None
  else match Estimate.py_float float_of_str raw ≫= int_of_float with
       | Return n => if (n <=? 0)%Z then None else Some n
       | Raise _ => None
       end.

Definition cv_acceptable (payload : gmap string pyval) : Prop :=
  exists start vertex1 vertex2 end_ scan_rate cycles,
    cv_voltage payload "start" = Some start
    /\ cv_voltage payload "vertex1" = Some vertex1
    /\ cv_voltage payload "vertex2" = Some vertex2
    /\ cv_voltage payload "end" = Some end_
    /\ cv_scan_rate payload = Some scan_rate
    /\ cv_cycles payload = Some cycles
    /\ all_equal start vertex1 vertex2 end_ = false.

End WithFloatText.

End Validation.

(* ===================================================================== *)
(** * storage.py : the run directory index                                *)
(* ===================================================================== *)

(** A run directory is the POSIX path [record_run_directory] writes to the
    index, relative to the configured root; [is_dir] tells which of them
    exist as directories. The index file holds what
    [_load_run_index_unlocked] reads from it: [None] when the file is
    missing, unreadable or not JSON. *)
Module RunIndex.

Record state : Type := {
  RUN_DIRECTORIES : gmap string string;
  index_file : option (gmap string string)
}.

Definition _load_run_index_unlocked (st : state) : gmap string string :=
  default ∅ (index_file st).

Definition _write_run_index_unlocked (data : gmap string string) (st : state)
    : state :=
  {| RUN_DIRECTORIES := RUN_DIRECTORIES st; index_file := Some data |}.

(** [path.unlink()], a missing file being ignored. *)
Definition unlink (st : state) : state :=
  {| RUN_DIRECTORIES := RUN_DIRECTORIES st; index_file := None |}.

Definition remember (run_id run_dir : string) (st : state) : state :=
  {| RUN_DIRECTORIES := <[run_id := run_dir]> (RUN_DIRECTORIES st);
     index_file := index_file st |}.

(** [write_ok]: whether the write of the index file succeeds. *)
Definition record_run_directory (run_id run_dir : string) (write_ok : bool)
    (st : state) : state * outcome unit :=
  let st := remember run_id run_dir st in
  let data := <[run_id := run_dir]> (_load_run_index_unlocked st) in
  if write_ok then (_write_run_index_unlocked data st, Return ())
  else (st, Raise OSError).

Definition forget_run_directory (run_id : string) (st : state) : state :=
  let st := {| RUN_DIRECTORIES := delete run_id (RUN_DIRECTORIES st);
               index_file := index_file st |} in
  let data := _load_run_index_unlocked st in
  match data !! run_id with
  | Some _ =>
      let data := delete run_id data in
      if bool_decide (data = ∅) then unlink st
      else _write_run_index_unlocked data st
  | None => st
  end.

Section WithFileSystem.

Variable is_dir : string -> bool.

Definition configure_runs_root (st : state) : state :=
  {| RUN_DIRECTORIES :=
       filter (fun kv => is_dir kv.2 = true) (_load_run_index_unlocked st);
     index_file := index_file st |}.

Definition resolve_run_directory (run_id : string) (st : state)
    : state * result string :=
  let cached :=
    match RUN_DIRECTORIES st !! run_id with
    | Some candidate => if is_dir candidate then Some candidate else None
    | None => None
    end in
  match cached with
  | Some candidate => (st, Ok candidate)
  | None =>
      let indexed :=
        match _load_run_index_unlocked st !! run_id with
        | Some rel =>
            if negb (String.eqb rel "") && is_dir rel then Some rel else None
        | None => None
        end in
      match indexed with
      | Some run_dir => (remember run_id run_dir st, Ok run_dir)
      | None =>
          let fallback := run_id in
          if is_dir fallback then (remember run_id fallback st, Ok fallback)
          else (st, HTTPException 404 "" "Run nicht gefunden")
      end
  end.

End WithFileSystem.

End RunIndex.

(* ===================================================================== *)
(** * app.py : the job overview                                           *)
(* ===================================================================== *)

(** [GET /jobs]. The handler is one atomic step, as the others are. Its
    result does not depend on the order in which [JOBS] is walked, since
    the list is sorted on a key that holds the run identifier; the entries
    are taken in the order of [map_to_list]. *)
Module Listing.
Import App.

(** [Literal["incomplete", "completed"]]. *)
Inductive state_filter : Type := incomplete | completed.

Record JobOverview : Type := {
  run_id : string;
  mode : string;
  status : run_state;
  started_at : option string;
  ended_at : option string;
  devices : list string
}.

Definition _normalize_group_value (value : option string) : option string :=
  match value with
  | None => None
  | Some value =>
      let trimmed := Storage.strip Storage.is_space value in
      if String.eqb trimmed "" then None else Some trimmed
  end.

Definition _job_overview_status (job : JobStatus.t) : run_state :=
  let slot_states := SlotStatus.status <$> JobStatus.slots job in
  if negb (bool_decide (slot_states = []))
     && forallb (fun state => bool_decide (state = queued)) slot_states
  then queued
  else JobStatus.status job.

(** The two [continue]s on the state filter. *)
Definition state_allows (state : option state_filter) (overview_status : run_state)
    : bool :=
  match state with
  | Some incomplete => bool_decide (overview_status ∈ [queued; running])
  | Some completed => bool_decide (overview_status ∈ [done; failed; cancelled])
  | None => true
  end.

Definition overview (run_id : string) (job : JobStatus.t) : JobOverview :=
  {| run_id := run_id;
     mode := JobStatus.mode job;
     status := _job_overview_status job;
     started_at := Some (JobStatus.started_at job);
     ended_at := JobStatus.ended_at job;
     devices := SlotStatus.slot <$> JobStatus.slots job |}.

(** The sort key [(item.started_at or "", item.run_id)] and the order of
    tuples of strings, by code points. *)
Definition sort_key (item : JobOverview) : string * string :=
  (default "" (started_at item), run_id item).

Definition key_leb (a b : string * string) : bool :=
  match String.compare a.1 b.1 with
  | Lt => true
  | Eq => String.leb a.2 b.2
  | Gt => false
  end.

(** [results.sort(key=..., reverse=True)]. *)
Definition newer_first (a b : JobOverview) : Prop :=
  key_leb (sort_key b) (sort_key a) = true.

#[global] Instance newer_first_dec a b : Decision (newer_first a b).
Proof. unfold newer_first. apply _. Defined.

Section WithFileSystem.

(** [str.lower]; which run directories exist; and the segments of a run
    directory relative to [RUNS_ROOT], [None] when [relative_to] raises. *)
Variable lower : string -> string.
Variable is_dir : string -> bool.
Variable parts : string -> option (list string).

(** [storage.resolve_run_directory] on the registries of the process. *)
Definition resolve_run_directory (run_id : string) (st : state)
    : state * result string :=
  let r := RunIndex.resolve_run_directory is_dir run_id
             {| RunIndex.RUN_DIRECTORIES := RUN_DIRECTORIES st;
                RunIndex.index_file := Some (run_index st) |} in
  (set_RUN_DIRECTORIES (RunIndex.RUN_DIRECTORIES r.1) st, r.2).

Definition _derive_group_folder (run_id : string) (st : state)
    : state * option string :=
  let '(st, r) := resolve_run_directory run_id st in
  match r with
  | Ok run_dir =>
      (st,
       match parts run_dir with
       | Some ps =>
           if bool_decide (3 <= length ps) then ps !! (length ps - 2) else None
       | None => None
       end)
  | _ => (st, None)
  end.

(** The group test of one job: [candidate_norms] as a list. *)
Definition group_allows (group_filter_lower : string)
    (group_raw_map group_folder_map : gmap string string) (run_id : string)
    (st : state) : state * bool :=
  let candidates : list (option string) :=
    [group_raw_map !! run_id; group_folder_map !! run_id] in
  let candidate_norms : list string :=
    lower <$> omap _normalize_group_value candidates in
  let '(st, folder) := _derive_group_folder run_id st in
  let candidate_norms :=
    match _normalize_group_value folder with
    | Some normalized_folder => (candidate_norms ++ [lower normalized_folder])%list
    | None => candidate_norms
    end in
  (st, bool_decide (group_filter_lower ∈ candidate_norms)).

(** The loop over [job_entries]. *)
Fixpoint collect (state : option state_filter) (group_filter_lower : option string)
    (group_raw_map group_folder_map : gmap string string)
    (job_entries : list (string * JobStatus.t)) (st : App.state)
    : App.state * list JobOverview :=
  match job_entries with
  | [] => (st, [])
  | (run_id, job) :: rest =>
      if negb (state_allows state (_job_overview_status job)) then
        collect state group_filter_lower group_raw_map group_folder_map rest st
      else
        let '(st, keep) :=
          match group_filter_lower with
          | Some g =>
              if String.eqb g "" then (st, true)
              else group_allows g group_raw_map group_folder_map run_id st
          | None => (st, true)
          end in
        let '(st, results) :=
          collect state group_filter_lower group_raw_map group_folder_map rest st in
        (st, if keep then overview run_id job :: results else results)
  end.

Definition list_jobs (state : option state_filter) (group_id : option string)
    (st : App.state) : App.state * list JobOverview :=
  let group_filter := _normalize_group_value group_id in
  let group_filter_lower := lower <$> group_filter in
  let job_entries := map_to_list (JOBS st) in
  let '(st', results) :=
    collect state group_filter_lower (JOB_GROUP_IDS st) (JOB_GROUP_FOLDERS st)
      job_entries st in
  (st', merge_sort newer_first results).

(** What the group test compares the filter with, read from one state. *)
Definition group_names (run_id : string) (st : App.state) : list string :=
  lower <$> omap _normalize_group_value
              [JOB_GROUP_IDS st !! run_id; JOB_GROUP_FOLDERS st !! run_id;
               (_derive_group_folder run_id st).2].

(** Whether a listing shows a job, read off one state. *)
Definition selected (state : option state_filter)
    (group_filter_lower : option string) (st : App.state) (run_id : string)
    (job : JobStatus.t) : bool :=
  state_allows state (_job_overview_status job)
  && match group_filter_lower with
     | Some g => String.eqb g "" || bool_decide (g ∈ group_names run_id st)
     | None => true
     end.

(** The registries two states share when the second is the first after
    some run directories were cached. *)
Definition cached_only (only : list string) (st st' : App.state) : Prop :=
  DEVICES st' = DEVICES st /\ JOBS st' = JOBS st /\ SLOT_RUNS st' = SLOT_RUNS st
  /\ JOB_META st' = JOB_META st /\ JOB_GROUP_IDS st' = JOB_GROUP_IDS st
  /\ JOB_GROUP_FOLDERS st' = JOB_GROUP_FOLDERS st
  /\ CANCEL_FLAGS st' = CANCEL_FLAGS st /\ run_index st' = run_index st
  /\ threads st' = threads st /\ uploads st' = uploads st
  /\ (forall rid, RUN_DIRECTORIES st' !! rid = RUN_DIRECTORIES st !! rid
                  \/ rid ∈ only
                     /\ exists d, RUN_DIRECTORIES st' !! rid = Some d
                                  /\ is_dir d = true).

End WithFileSystem.

End Listing.

(* ===================================================================== *)
(** * Inputs of the scenarios                                             *)
(* ===================================================================== *)
Module Scenario.

(** The parameter bundle of the CV scenario as JSON delivers it: integers
    for [0] and [1], binary64 for the rest ([0.1] is the double nearest to
    one tenth). *)
Definition cv_params : gmap string pyval :=
  <["start" := PyInt 0]>
  (<["vertex1" := PyFloat 0.5]>
  (<["vertex2" := PyFloat (-0.5)]>
  (<["end" := PyInt 0]>
  (<["scan_rate" := PyFloat 0x1.999999999999ap-4]>
  (<["cycles" := PyInt 1]> ∅))))).

(** The same bundle with every number a float. *)
Definition cv_params_float : gmap string pyval :=
  <["start" := PyFloat 0]>
  (<["vertex1" := PyFloat 0.5]>
  (<["vertex2" := PyFloat (-0.5)]>
  (<["end" := PyFloat 0]>
  (<["scan_rate" := PyFloat 0x1.999999999999ap-4]>
  (<["cycles" := PyFloat 1]> ∅))))).

(** A parser that knows one instant, the epoch. *)
Definition epoch_only (ts : string) : option Z :=
  if String.eqb ts "1970-01-01T00:00:00+00:00" then Some 0%Z else None.

Definition running_slot : Progress.slot :=
  {| Progress.status := "running";
     Progress.started_at := Some "1970-01-01T00:00:00Z" |}.

Definition cancelled_slot : Progress.slot :=
  {| Progress.status := "cancelled";
     Progress.started_at := Some "1970-01-01T00:00:00Z" |}.


(** The environment of the scenarios: no string parses as a float, and the
    two functions of the C library are not called. *)
Definition float_of_str (s : string) : option float := None.
Definition libm (x : float) : outcome float := Raise ValueError.

Definition start_job := App.start_job float_of_str libm libm epoch_only.
Definition jobs_bulk_status := App.jobs_bulk_status float_of_str libm libm epoch_only.

(** Two slots, an empty index. *)
Definition booted : App.state := App.boot {["slot01"; "slot02"]} ∅ (fun _ => true).

(** A process restarted over the index of an earlier run of the same
    name. *)
Definition rebooted : App.state :=
  App.boot {["slot01"; "slot02"]} {["run_a" := "exp/2023-12-31T00-00-00"]}
    (fun _ => true).

Definition E0 : App.env :=
  {| App.fresh_run_id := "20240102T030405_abc123";
     App.now_iso := "1970-01-01T00:00:00Z";
     App.now := 5000000;
     App.io_failure := None |}.

(** The same environment with the write of the index file failing. *)
Definition E_index_fails : App.env :=
  {| App.fresh_run_id := "20240102T030405_abc123";
     App.now_iso := "1970-01-01T00:00:00Z";
     App.now := 5000000;
     App.io_failure := Some App.FailIndexWrite |}.

(** Mode CV on [slot01] under the run name [run_a]. *)
Definition request_a : App.JobRequest :=
  {| App.devices := Some ["slot01"];
     App.modes := ["CV"];
     App.params_by_mode := {["CV" := cv_params]};
     App.experiment_name := "exp";
     App.subdir := None;
     App.client_datetime := "2024-01-02T03:04:05";
     App.run_name := Some "run_a";
     App.folder_name := None;
     App.make_plot := true |}.

(** Mode CV on every slot under the run name [run_b]. *)
Definition request_b : App.JobRequest :=
  {| App.devices := None;
     App.modes := ["CV"];
     App.params_by_mode := {["CV" := cv_params]};
     App.experiment_name := "exp";
     App.subdir := None;
     App.client_datetime := "2024-01-02T03:04:06";
     App.run_name := Some "run_b";
     App.folder_name := None;
     App.make_plot := true |}.

(** Mode CV on [slot02] under the run name [run_c]. *)
Definition request_c : App.JobRequest :=
  {| App.devices := Some ["slot02"];
     App.modes := ["CV"];
     App.params_by_mode := {["CV" := cv_params]};
     App.experiment_name := "exp";
     App.subdir := None;
     App.client_datetime := "2024-01-02T03:04:07";
     App.run_name := Some "run_c";
     App.folder_name := None;
     App.make_plot := true |}.

(** Mode CV on [slot01] under the run name [run_c] once more. *)
Definition request_clash : App.JobRequest :=
  {| App.devices := Some ["slot01"];
     App.modes := ["CV"];
     App.params_by_mode := {["CV" := cv_params]};
     App.experiment_name := "exp";
     App.subdir := None;
     App.client_datetime := "2024-01-02T03:04:08";
     App.run_name := Some "run_c";
     App.folder_name := None;
     App.make_plot := true |}.

(** [run_a] submitted; then its worker begun; and, apart from that,
    [run_c] submitted after [run_a]. *)
Definition submitted : App.state := (start_job request_a E0 booted).1.
Definition measuring : App.state := App.worker_begin 0 E0 submitted.
Definition two_runs : App.state := (start_job request_c E0 submitted).1.

(** An upload whose transfer succeeded and left two of three files on the
    remote side, for each of the two managers. *)
Definition idle : Nas.state := {| Nas.markers := ∅; Nas._uploading := {["run_a"]} |}.

Definition smb_two_of_three : NasSmb.env :=
  {| NasSmb.configured := true; NasSmb.resolves := true; NasSmb.mount_ok := true;
     NasSmb.rsync_rc := 0; NasSmb.rsync_stderr := "";
     NasSmb.local_count := 3; NasSmb.remote_count := 2;
     NasSmb.now := "2024-01-02T03:04:05Z" |}.

Definition ssh_two_of_three : NasSsh.env :=
  {| NasSsh.configured := true; NasSsh.resolves := true; NasSsh.mkdir_ok := true;
     NasSsh.mkdir_rc := 0; NasSsh.rsync_rc := 0; NasSsh.local_count := 3;
     NasSsh.count_rc := 0; NasSsh.count_stdout := Some 2%Z;
     NasSsh.now := "2024-01-02T03:04:05Z" |}.

(** The same upload over SSH with the count command failing. *)
Definition ssh_count_fails : NasSsh.env :=
  {| NasSsh.configured := true; NasSsh.resolves := true; NasSsh.mkdir_ok := true;
     NasSsh.mkdir_rc := 0; NasSsh.rsync_rc := 0; NasSsh.local_count := 3;
     NasSsh.count_rc := 255; NasSsh.count_stdout := None;
     NasSsh.now := "2024-01-02T03:04:05Z" |}.

(** One uploaded run with a subdirectory; the retention window is 14 days
    and the marker was written exactly 14 days before the pass. *)
Definition day14 : Z := 14 * Retention.microseconds_per_day.

Definition uploaded_run : Retention.tree :=
  <[["run"] := Retention.Dir 0]>
  (<[["run"; "UPLOAD_DONE"] := Retention.File (Some 1000%Z)]>
  (<[["run"; "Wells"] := Retention.Dir 0]> ∅)).

Definition walk : list Retention.path :=
  [["run"]; ["run"; "UPLOAD_DONE"]; ["run"; "Wells"]].

(** Two DC payloads that differ in every value and agree on which fields
    are there: the voltage is missing in the first and blank in the
    second. *)
Definition dc_no_voltage : gmap string pyval := {["duration_s" := PyInt 10]}.

Definition dc_blank_voltage : gmap string pyval :=
  <["duration_s" := PyStr "ten"]> {["voltage_v" := PyStr " "]}.

(** The floats a validation message shows are the two voltage bounds. *)
Definition float_repr (x : float) : string :=
  if PrimFloat.ltb x 0 then "-10.0" else "10.0".

(** A file system with one run directory, and a process that has recorded
    nothing yet. *)
Definition one_run_dir (p : string) : bool := String.eqb p "exp/2024-01-02T03-04-05".

Definition no_index : RunIndex.state :=
  {| RunIndex.RUN_DIRECTORIES := ∅; RunIndex.index_file := None |}.

(** A duration that JSON delivers as an integer beyond the binary64
    range. *)
Definition huge_duration : gmap string pyval := {["duration" := PyInt (10 ^ 400)]}.

End Scenario.

(* ===================================================================== *)
(** * Part II: the properties                                             *)
(* ===================================================================== *)

(* ===================================================================== *)
(** * Properties of storage.py                                            *)
(* ===================================================================== *)
Section StorageFacts.
Import Storage.

Lemma all_chars_impl (p q : ascii -> bool) s :
  (forall c, p c = true -> q c = true) ->
  all_chars p s = true -> all_chars q s = true.
Proof.
  intros Hpq. induction s as [|c t IH]; simpl; [done|].
  rewrite !andb_true_iff. intros [Hc Ht]. auto.
Qed.

Lemma all_chars_sub_runs cls rep p b s :
  p rep = true ->
  all_chars (fun c => cls c || p c) s = true ->
  all_chars p (sub_runs cls rep b s) = true.
Proof.
  intros Hrep. revert b. induction s as [|c t IH]; intros b; simpl; [done|].
  rewrite andb_true_iff. intros [Hc Ht].
  destruct (cls c) eqn:Hcls.
  - destruct b; simpl; rewrite ?Hrep; simpl; auto.
  - simpl in Hc. simpl. rewrite Hc. simpl. auto.
Qed.

Lemma all_chars_lstrip p q s :
  all_chars p s = true -> all_chars p (lstrip q s) = true.
Proof.
  induction s as [|c t IH]; simpl; [done|].
  rewrite andb_true_iff. intros [Hc Ht].
  destruct (q c); [auto|]. simpl. by rewrite Hc, Ht.
Qed.

Lemma all_chars_rstrip p q s :
  all_chars p s = true -> all_chars p (rstrip q s) = true.
Proof.
  induction s as [|c t IH]; simpl; [done|].
  rewrite andb_true_iff. intros [Hc Ht]. specialize (IH Ht).
  destruct (rstrip q t) eqn:Hr.
  - destruct (q c); simpl; [done|]. by rewrite Hc.
  - simpl. simpl in IH. by rewrite Hc, IH.
Qed.

Lemma all_chars_strip p q s :
  all_chars p s = true -> all_chars p (strip q s) = true.
Proof. intros H. unfold strip. by apply all_chars_rstrip, all_chars_lstrip. Qed.

(** Collapsing the runs of [c] leaves no two [c] side by side, and what
    follows directly after a run does not start with [c]. *)
Lemma sub_runs_no_double c b s :
  has_double c (sub_runs (Ascii.eqb c) c b s) = false
  /\ (b = true -> first_char (sub_runs (Ascii.eqb c) c b s) <> Some c).
Proof.
  revert b. induction s as [|a t IH]; intros b; simpl.
  - split; [done|]. by intros _.
  - destruct (Ascii.eqb c a) eqn:Hca.
    + destruct b.
      * apply IH.
      * destruct (IH true) as [Hd Hf]. specialize (Hf eq_refl). split; [|done].
        simpl. destruct (sub_runs (Ascii.eqb c) c true t) as [|x r] eqn:Hr; [done|].
        rewrite Hd, orb_false_r. rewrite Ascii.eqb_refl. simpl.
        apply Ascii.eqb_neq. intros ->. by apply Hf.
    + destruct (IH false) as [Hd _]. split.
      * simpl. destruct (sub_runs (Ascii.eqb c) c false t) as [|x r] eqn:Hr; [done|].
        rewrite Hd, orb_false_r. rewrite (Ascii.eqb_sym a c), Hca. done.
      * intros _. simpl. intros [= ->]. by rewrite Ascii.eqb_refl in Hca.
Qed.

Lemma first_char_sub_runs c s :
  first_char (sub_runs (Ascii.eqb c) c false s) = first_char s.
Proof.
  destruct s as [|a t]; simpl; [done|].
  destruct (Ascii.eqb c a) eqn:Hca; [|done].
  simpl. apply Ascii.eqb_eq in Hca. by subst.
Qed.

Lemma has_double_cons d a s :
  has_double d (String a s)
  = (Ascii.eqb a d && bool_decide (first_char s = Some d)) || has_double d s.
Proof.
  destruct s as [|b t]; simpl.
  - by rewrite andb_false_r.
  - f_equal. f_equal. destruct (Ascii.eqb b d) eqn:Hb.
    + apply Ascii.eqb_eq in Hb. subst. by rewrite bool_decide_eq_true_2.
    + rewrite bool_decide_eq_false_2; [done|]. intros [= ->].
      by rewrite Ascii.eqb_refl in Hb.
Qed.

(** Collapsing the runs of [c] brings no two [d] together. *)
Lemma sub_runs_keeps_no_double c d b s :
  c <> d ->
  has_double d s = false ->
  has_double d (sub_runs (Ascii.eqb c) c b s) = false.
Proof.
  intros Hcd. revert b. induction s as [|a t IH]; intros b; [done|].
  rewrite has_double_cons, orb_false_iff. intros [Ha Ht].
  cbn [sub_runs]. destruct (Ascii.eqb c a) eqn:Hca.
  - destruct b; [by apply IH|].
    rewrite has_double_cons, (IH true Ht), orb_false_r.
    apply Ascii.eqb_neq in Hcd. by rewrite Hcd.
  - rewrite has_double_cons, (IH false Ht), orb_false_r.
    by rewrite first_char_sub_runs.
Qed.

Lemma has_double_lstrip d p s :
  has_double d s = false -> has_double d (lstrip p s) = false.
Proof.
  induction s as [|a t IH]; [done|].
  intros H. cbn [lstrip]. destruct (p a); [|done].
  apply IH. rewrite has_double_cons, orb_false_iff in H. tauto.
Qed.

Lemma first_char_rstrip p s :
  rstrip p s <> "" -> first_char (rstrip p s) = first_char s.
Proof.
  destruct s as [|a t]; simpl; [done|].
  destruct (rstrip p t); [|done]. by destruct (p a).
Qed.

Lemma first_char_rstrip_inv p s c :
  first_char (rstrip p s) = Some c -> first_char s = Some c.
Proof.
  intros H. rewrite <- H. symmetry. apply first_char_rstrip.
  intros E. by rewrite E in H.
Qed.

Lemma has_double_rstrip d p s :
  has_double d s = false -> has_double d (rstrip p s) = false.
Proof.
  induction s as [|a t IH]; [done|].
  rewrite has_double_cons, orb_false_iff. intros [Ha Ht]. specialize (IH Ht).
  cbn [rstrip]. destruct (rstrip p t) as [|x r] eqn:Hr.
  - by destruct (p a).
  - rewrite has_double_cons, IH, orb_false_r.
    destruct (Ascii.eqb a d); [|done]. simpl in *.
    apply bool_decide_eq_false. apply bool_decide_eq_false in Ha.
    intros Hx. apply Ha. apply (first_char_rstrip_inv p). by rewrite Hr.
Qed.

Lemma has_double_strip d p s :
  has_double d s = false -> has_double d (strip p s) = false.
Proof. intros H. by apply has_double_rstrip, has_double_lstrip. Qed.

Lemma first_char_lstrip p s c :
  first_char (lstrip p s) = Some c -> p c = false.
Proof.
  induction s as [|a t IH]; simpl; [done|].
  destruct (p a) eqn:Hp; [done|]. simpl. by intros [= <-].
Qed.

Lemma last_char_rstrip p s c :
  last_char (rstrip p s) = Some c -> p c = false.
Proof.
  induction s as [|a t IH]; simpl; [done|].
  destruct (rstrip p t) as [|x r] eqn:Hr.
  - destruct (p a) eqn:Hp; simpl; [done|]. by intros [= <-].
  - intros H. apply IH. exact H.
Qed.

Lemma strip_ends p s :
  (forall c, first_char (strip p s) = Some c -> p c = false)
  /\ (forall c, last_char (strip p s) = Some c -> p c = false).
Proof.
  unfold strip. split; intros c H.
  - apply first_char_rstrip_inv in H. by apply first_char_lstrip in H.
  - by apply last_char_rstrip in H.
Qed.

Lemma sub_runs2_collapse c b s :
  sub_runs2 (Ascii.eqb c) c b s = sub_runs (Ascii.eqb c) c b s.
Proof.
  revert b. induction s as [|a t IH]; intros b; [done|].
  cbn [sub_runs2 sub_runs]. destruct (Ascii.eqb c a) eqn:Hca.
  - destruct b; [apply IH|].
    apply Ascii.eqb_eq in Hca. subst a.
    destruct t as [|x r]; [done|].
    destruct (Ascii.eqb c x) eqn:Hcx.
    + by rewrite IH.
    + rewrite IH. cbn [sub_runs]. by rewrite Hcx.
  - by rewrite IH.
Qed.

Lemma datetime_allowed_path_allowed c : datetime_allowed c = path_allowed c.
Proof.
  unfold datetime_allowed, path_allowed.
  destruct (Ascii.eqb c "T") eqn:H; [|by rewrite orb_false_r].
  apply Ascii.eqb_eq in H. by subst.
Qed.

Lemma path_allowed_component c :
  path_allowed c = true ->
  negb (Ascii.eqb c "/") && negb (Ascii.eqb c "\") && negb (Ascii.eqb c ".")
  && negb (N_of_ascii c =? 0)%N = true.
Proof.
  destruct c as [[] [] [] [] [] [] [] []]; vm_compute; congruence.
Qed.

Lemma eqb_empty_false s : String.eqb s "" = false -> s <> "".
Proof. intros H ->. done. Qed.

(** What the last three cleaning statements establish, whatever the first
    one produced, provided it left allow-listed characters only. *)
Lemma cleaned_safe allowed s1 s2 s :
  (forall c, allowed c = path_allowed c) ->
  all_chars allowed s = true ->
  has_double s1 (sub_runs (Ascii.eqb s2) s2 false
                   (sub_runs (Ascii.eqb s1) s1 false s)) = false ->
  has_double s2 (sub_runs (Ascii.eqb s2) s2 false
                   (sub_runs (Ascii.eqb s1) s1 false s)) = false ->
  allowed s1 = true -> allowed s2 = true ->
  let r := strip is_sep (sub_runs (Ascii.eqb s2) s2 false
                           (sub_runs (Ascii.eqb s1) s1 false s)) in
  r <> "" ->
  all_chars allowed r = true /\ has_double s1 r = false /\ has_double s2 r = false
  /\ not_sep (first_char r) = true /\ not_sep (last_char r) = true
  /\ single_component r = true.
Proof.
  intros Hallowed Hs H1 H2 Ha1 Ha2 r Hr.
  assert (Hall : all_chars allowed r = true).
  { apply all_chars_strip, all_chars_sub_runs; [done|].
    apply all_chars_impl with (p := allowed); [intros c ->; apply orb_true_r|].
    apply all_chars_sub_runs; [done|].
    apply all_chars_impl with (p := allowed); [intros c ->; apply orb_true_r|done]. }
  destruct (strip_ends is_sep
              (sub_runs (Ascii.eqb s2) s2 false (sub_runs (Ascii.eqb s1) s1 false s)))
    as [Hf Hl]. fold r in Hf, Hl.
  repeat split; try done.
  - by apply has_double_strip.
  - by apply has_double_strip.
  - destruct (first_char r) as [c|]; [|done]. simpl. by rewrite (Hf c).
  - destruct (last_char r) as [c|]; [|done]. simpl. by rewrite (Hl c).
  - unfold single_component. apply andb_true_iff. split.
    + eapply all_chars_impl; [|exact Hall]. intros c Hc.
      apply path_allowed_component. by rewrite <- Hallowed.
    + apply negb_true_iff. destruct r; [done|done].
Qed.

Lemma clean_path_segment_safe trimmed :
  clean_path_segment trimmed <> "" ->
  safe_segment path_allowed (clean_path_segment trimmed).
Proof.
  intros Hne. unfold clean_path_segment in *.
  set (s := sub_runs (fun c => negb (path_allowed c)) underscore false trimmed) in *.
  assert (Hs : all_chars path_allowed s = true).
  { apply all_chars_sub_runs; [done|].
    clear. induction trimmed as [|c t IH]; [done|]. simpl.
    rewrite IH. by destruct (path_allowed c). }
  assert (H1 : has_double underscore
                 (sub_runs (Ascii.eqb hyphen) hyphen false
                    (sub_runs (Ascii.eqb underscore) underscore false s)) = false).
  { apply sub_runs_keeps_no_double; [done|]. apply sub_runs_no_double. }
  assert (H2 : has_double hyphen
                 (sub_runs (Ascii.eqb hyphen) hyphen false
                    (sub_runs (Ascii.eqb underscore) underscore false s)) = false).
  { apply sub_runs_no_double. }
  destruct (cleaned_safe path_allowed underscore hyphen s
              (fun _ => eq_refl) Hs H1 H2 eq_refl eq_refl Hne)
    as (A & B & C & D & E & F).
  by constructor.
Qed.

Lemma clean_client_datetime_safe trimmed :
  clean_client_datetime trimmed <> "" ->
  safe_segment datetime_allowed (clean_client_datetime trimmed).
Proof.
  intros Hne. unfold clean_client_datetime in *.
  set (s := sub_runs (fun c => negb (datetime_allowed c)) hyphen false
              (normalize_client_datetime trimmed)) in *.
  rewrite !sub_runs2_collapse in *.
  assert (Hs : all_chars datetime_allowed s = true).
  { apply all_chars_sub_runs; [done|].
    generalize (normalize_client_datetime trimmed). clear.
    intros t. induction t as [|c t IH]; [done|]. simpl.
    rewrite IH. by destruct (datetime_allowed c). }
  assert (H1 : has_double hyphen
                 (sub_runs (Ascii.eqb underscore) underscore false
                    (sub_runs (Ascii.eqb hyphen) hyphen false s)) = false).
  { apply sub_runs_keeps_no_double; [done|]. apply sub_runs_no_double. }
  assert (H2 : has_double underscore
                 (sub_runs (Ascii.eqb underscore) underscore false
                    (sub_runs (Ascii.eqb hyphen) hyphen false s)) = false).
  { apply sub_runs_no_double. }
  destruct (cleaned_safe datetime_allowed hyphen underscore s
              datetime_allowed_path_allowed Hs H1 H2 eq_refl eq_refl Hne)
    as (A & B & C & D & E & F).
  by constructor.
Qed.

(** C7. For every input, [sanitize_path_segment] and
    [sanitize_client_datetime] either reject with status 400, exactly when
    the input is empty or blank or when cleaning leaves nothing, or return
    the cleaned input, which is then a safe segment: not empty, made of
    allow-listed characters only (letters, digits, underscore, hyphen),
    without a doubled underscore or hyphen, neither starting nor ending
    with one of them, and hence free of path separators and dots. *)
Theorem sanitize_rejects_or_safe (raw : option string) (field_name : string) :
  let trimmed := strip is_space (default "" raw) in
  match sanitize_path_segment raw field_name with
  | Ok s => trimmed <> "" /\ s = clean_path_segment trimmed
            /\ safe_segment path_allowed s
  | HTTPException status_code _ _ =>
      status_code = 400%Z /\ (trimmed = "" \/ clean_path_segment trimmed = "")
  | Unhandled _ => False
  end
  /\
  match sanitize_client_datetime raw with
  | Ok s => trimmed <> "" /\ s = clean_client_datetime trimmed
            /\ safe_segment datetime_allowed s
  | HTTPException status_code _ _ =>
      status_code = 400%Z /\ (trimmed = "" \/ clean_client_datetime trimmed = "")
  | Unhandled _ => False
  end.
Proof.
  intros trimmed. unfold sanitize_path_segment, sanitize_client_datetime.
  fold trimmed. split.
  - destruct (String.eqb trimmed "") eqn:Ht.
    + apply String.eqb_eq in Ht. auto.
    + apply eqb_empty_false in Ht.
      destruct (String.eqb (clean_path_segment trimmed) "") eqn:Hc.
      * apply String.eqb_eq in Hc. auto.
      * apply eqb_empty_false in Hc. repeat split; try done.
        all: by apply clean_path_segment_safe.
  - destruct (String.eqb trimmed "") eqn:Ht.
    + apply String.eqb_eq in Ht. auto.
    + apply eqb_empty_false in Ht.
      destruct (String.eqb (clean_client_datetime trimmed) "") eqn:Hc.
      * apply String.eqb_eq in Hc. auto.
      * apply eqb_empty_false in Hc. repeat split; try done.
        all: by apply clean_client_datetime_safe.
Qed.

Example sanitize_traversal :
  sanitize_path_segment (Some "  ../../etc/passwd ") "experiment_name"
  = Ok "etc_passwd".
Proof. reflexivity. Qed.

Example sanitize_datetime_iso :
  sanitize_client_datetime (Some "2024-01-02T03:04:05.123Z")
  = Ok "2024-01-02T03-04-05-123Z".
Proof. reflexivity. Qed.

Example sanitize_only_punctuation :
  sanitize_path_segment (Some " *** ") "subdir"
  = HTTPException 400 "" "subdir ist ungueltig".
Proof. reflexivity. Qed.

End StorageFacts.

(* ===================================================================== *)
(** * Properties of progress_utils.py                                     *)
(* ===================================================================== *)
Section EstimateFacts.

Variable float_of_str : string -> option float.
Variable log10 : float -> outcome float.
Variable pow10 : float -> outcome float.

(** C9. For mode "CV" with start=0, vertex1=0.5, vertex2=-0.5, end=0,
    scan_rate=0.1 and cycles=1, [estimate_planned_duration] returns the
    binary64 number 21.0, and that number is what the sweep distance
    0.5+1.0+0.5 divided by the scan rate, times one cycle, plus the setup
    constant 1.0 evaluates to in binary64. *)
Theorem estimate_cv_scenario :
  Estimate.estimate_planned_duration float_of_str log10 pow10
    (Some "CV") Scenario.cv_params = Return (Some 21%float)
  /\ ((0.5 + 1 + 0.5) / 0x1.999999999999ap-4 * 1 + Estimate.setup = 21)%float.
Proof. split; vm_compute; reflexivity. Qed.

Example estimate_cv_scenario_floats :
  Estimate.estimate_planned_duration float_of_str log10 pow10
    (Some "cv") Scenario.cv_params_float = Return (Some 21%float).
Proof. vm_compute. reflexivity. Qed.

Example estimate_unknown_mode :
  Estimate.estimate_planned_duration float_of_str log10 pow10
    (Some "XYZ") Scenario.cv_params = Return None.
Proof. vm_compute. reflexivity. Qed.

End EstimateFacts.

Section ProgressFacts.
Import Progress.

Local Open Scope Q_scope.

Lemma Qmax_mono a b c : a <= b -> Qmax a c <= Qmax b c.
Proof.
  intros H. unfold Qmax.
  destruct (Qle_bool a c) eqn:Ha; destruct (Qle_bool b c) eqn:Hb.
  - lra.
  - apply not_true_iff_false in Hb. rewrite Qle_bool_iff in Hb. lra.
  - apply Qle_bool_iff in Hb. lra.
  - exact H.
Qed.

Lemma Qmin_mono a b c : a <= b -> Qmin c a <= Qmin c b.
Proof.
  intros H. unfold Qmin.
  destruct (Qle_bool a c) eqn:Ha; destruct (Qle_bool b c) eqn:Hb.
  - exact H.
  - apply Qle_bool_iff in Ha. lra.
  - apply not_true_iff_false in Ha. rewrite Qle_bool_iff in Ha.
    apply Qle_bool_iff in Hb. lra.
  - lra.
Qed.

Lemma round_half_even_bounds q :
  (Qfloor q <= round_half_even q <= Qfloor q + 1)%Z.
Proof.
  unfold round_half_even.
  destruct (q - inject_Z (Qfloor q) ?= 1 # 2); [destruct (Z.even _)|..]; lia.
Qed.

Lemma round_half_even_mono q1 q2 :
  q1 <= q2 -> (round_half_even q1 <= round_half_even q2)%Z.
Proof.
  intros H. pose proof (Qfloor_resp_le _ _ H) as Hf.
  pose proof (round_half_even_bounds q1) as B1.
  pose proof (round_half_even_bounds q2) as B2.
  destruct (Z.eq_dec (Qfloor q1) (Qfloor q2)) as [E|N]; [|lia].
  clear B1 B2 Hf. unfold round_half_even. rewrite E.
  destruct (Qcompare_spec (q1 - inject_Z (Qfloor q2)) (1 # 2)) as [A|A|A];
    destruct (Qcompare_spec (q2 - inject_Z (Qfloor q2)) (1 # 2)) as [B|B|B];
    try (destruct (Z.even (Qfloor q2)); lia); try lia; exfalso; lra.
Qed.

Lemma elapsed_s_mono started now1 now2 :
  (now1 <= now2)%Z -> elapsed_s now1 started <= elapsed_s now2 started.
Proof.
  intros H. unfold elapsed_s. apply Qmax_mono.
  unfold Qle. simpl. lia.
Qed.

(** The percentage of a running slot never decreases as time passes. *)
Lemma running_pct_mono started planned now1 now2 :
  0 < planned -> (now1 <= now2)%Z ->
  (running_pct now1 started planned <= running_pct now2 started planned)%Z.
Proof.
  intros Hp H. unfold running_pct.
  assert (M : (round_half_even (Qmin 1 (elapsed_s now1 started / planned) * 100)
               <= round_half_even (Qmin 1 (elapsed_s now2 started / planned) * 100))%Z).
  { apply round_half_even_mono. apply Qmult_le_compat_r; [|lra].
    apply Qmin_mono. unfold Qdiv. apply Qmult_le_compat_r.
    - by apply elapsed_s_mono.
    - apply Qlt_le_weak. by apply Qinv_lt_0_compat. }
  destruct (100 <=? round_half_even (Qmin 1 (elapsed_s now1 started / planned) * 100))%Z eqn:A;
    destruct (100 <=? round_half_even (Qmin 1 (elapsed_s now2 started / planned) * 100))%Z eqn:B;
    lia.
Qed.

Lemma running_pct_range started planned now :
  (0 <= running_pct now started planned <= 99)%Z.
Proof.
  unfold running_pct.
  destruct (100 <=? round_half_even (Qmin 1 (elapsed_s now started / planned) * 100))%Z eqn:A;
    lia.
Qed.

(** A float the code's guard [planned > 0] lets through is, when finite,
    a positive rational. *)
Lemma Q_of_float_pos (x : float) (p : Q) :
  PrimFloat.ltb 0 x = true -> Q_of_float x = Some p -> 0 < p.
Proof.
  rewrite ltb_spec. unfold Q_of_float.
  replace (Prim2SF 0) with (S754_zero false) by reflexivity.
  destruct (Prim2SF x) as [s|s| |s m e]; simpl; try done.
  destruct s; [done|]. intros _ [= <-].
  destruct (0 <=? e)%Z eqn:He; unfold Qlt; simpl.
  - apply Z.leb_le in He. pose proof (Z.pow_pos_nonneg 2 e). lia.
  - lia.
Qed.

End ProgressFacts.

Section ProgressClaims.
Import Progress.

Variable fromisoformat : string -> option Z.


End ProgressClaims.



(* ===================================================================== *)
(** * Properties of app.py                                                *)
(* ===================================================================== *)
Arguments Estimate.estimate_planned_duration : simpl never.
Arguments Progress.compute_progress : simpl never.

Section AppFacts.
Import App.

Variable float_of_str : string -> option float.
Variable log10 : float -> outcome float.
Variable pow10 : float -> outcome float.
Variable fromisoformat : string -> option Z.

#[local] Abbreviation start_job := (App.start_job float_of_str log10 pow10 fromisoformat).
#[local] Abbreviation launch := (App.launch float_of_str log10 pow10 fromisoformat).
#[local] Abbreviation setup_job := (App.setup_job float_of_str log10 pow10).
#[local] Abbreviation job_snapshot := (App.job_snapshot float_of_str log10 pow10 fromisoformat).

Lemma reserve_cons a (l : list string) rid (m : gmap string string) :
  reserve (a :: l) rid m = reserve l rid (<[a := rid]> m).
Proof. reflexivity. Qed.

Lemma lookup_reserve (slots : list string) rid (m : gmap string string) s :
  reserve slots rid m !! s = if bool_decide (s ∈ slots) then Some rid else m !! s.
Proof.
  revert m. induction slots as [|a l IH]; intros m.
  - done.
  - rewrite reserve_cons, IH. destruct (decide (s ∈ l)) as [Hin|Hin].
    + rewrite !bool_decide_eq_true_2; [done|set_solver|done].
    + rewrite (bool_decide_eq_false_2 (s ∈ l)) by done.
      destruct (decide (s = a)) as [->|Hne].
      * rewrite lookup_insert_eq, bool_decide_eq_true_2; [done|set_solver].
      * rewrite lookup_insert_ne by done.
        rewrite bool_decide_eq_false_2; [done|set_solver].
Qed.

Lemma release_cons a (l : list string) rid (m : gmap string string) :
  release (a :: l) rid m
  = release l rid (if bool_decide (m !! a = Some rid) then delete a m else m).
Proof. reflexivity. Qed.

Lemma lookup_release (slots : list string) rid (m : gmap string string) s :
  release slots rid m !! s
  = if bool_decide (s ∈ slots /\ m !! s = Some rid) then None else m !! s.
Proof.
  revert m. induction slots as [|a l IH]; intros m.
  - change (release [] rid m) with m.
    rewrite bool_decide_eq_false_2; [done|]. intros [H _]. by apply elem_of_nil in H.
  - rewrite release_cons, IH.
    destruct (decide (s = a)) as [->|Hne].
    + destruct (decide (m !! a = Some rid)) as [Ha|Ha].
      * rewrite (bool_decide_eq_true_2 (m !! a = Some rid)) by done.
        rewrite lookup_delete_eq.
        rewrite (bool_decide_eq_false_2 (_ /\ None = _)) by (by intros [_ ?]).
        rewrite bool_decide_eq_true_2; [done|]. split; [set_solver|done].
      * rewrite (bool_decide_eq_false_2 (m !! a = Some rid)) by done.
        rewrite !bool_decide_eq_false_2; [done| |]; by intros [_ ?].
    + assert (E : (if bool_decide (m !! a = Some rid) then delete a m else m) !! s = m !! s).
      { case_bool_decide; [by rewrite lookup_delete_ne|done]. }
      rewrite E. apply f_equal with (f := fun b : bool => if b then None else m !! s).
      apply bool_decide_ext. set_solver.
Qed.

(** Releasing what was just reserved on free slots restores the map. *)
Lemma release_reserve (slots : list string) rid (m : gmap string string) :
  (forall s, s ∈ slots -> m !! s = None) ->
  release slots rid (reserve slots rid m) = m.
Proof.
  intros Hfree. apply map_eq. intros s.
  rewrite lookup_release, lookup_reserve.
  destruct (decide (s ∈ slots)) as [Hin|Hin].
  - rewrite (bool_decide_eq_true_2 (s ∈ slots)) by done.
    rewrite bool_decide_eq_true_2 by done. symmetry. by apply Hfree.
  - rewrite (bool_decide_eq_false_2 (s ∈ slots)) by done.
    rewrite bool_decide_eq_false_2; [done|]. by intros [? _].
Qed.

Lemma sorted_nil_inv (l : list string) : Py.sorted l = [] -> l = [].
Proof.
  intros H. apply Permutation_nil_r. rewrite <- H. unfold Py.sorted.
  symmetry. apply merge_sort_Permutation.
Qed.

Lemma elem_of_sorted (l : list string) s : s ∈ Py.sorted l <-> s ∈ l.
Proof. unfold Py.sorted. by rewrite merge_sort_Permutation. Qed.

Lemma find_missing_none (req : JobRequest) :
  Forall (fun m => is_Some (params_by_mode req !! m)) (modes req) ->
  List.find (fun m => bool_decide (params_by_mode req !! m = None)) (modes req) = None.
Proof.
  induction 1 as [|m l Hm _ IH]; simpl; [done|].
  rewrite bool_decide_eq_false_2; [done|].
  destruct Hm as [x Hx]. by rewrite Hx.
Qed.

(** A rejected admission leaves every registry as it was. *)
Lemma admission_rejected req E st st' sc c m :
  admission req E st = (st', HTTPException sc c m) -> st' = st.
Proof.
  unfold admission, http_error.
  destruct (modes req); [by intros [= <-]|].
  destruct (List.find _ _); [by intros [= <-]|].
  destruct (resolve_slots req st); [by intros [= <-]|].
  case_bool_decide; [by intros [= <-]|].
  destruct (Py.sorted _); [done|by intros [= <-]].
Qed.

Lemma admission_handled req E st st' e :
  admission req E st <> (st', Unhandled e).
Proof.
  unfold admission, http_error.
  destruct (modes req); [done|].
  destruct (List.find _ _); [done|].
  destruct (resolve_slots req st); [done|].
  case_bool_decide; [done|].
  destruct (Py.sorted _); done.
Qed.

Lemma admission_ok_inv req E st st1 run_id slots :
  admission req E st = (st1, Ok (run_id, slots)) ->
  modes req <> []
  /\ slots = resolve_slots req st
  /\ slots <> []
  /\ run_id = default (fresh_run_id E) (str_or (run_name req) None)
  /\ JOBS st !! run_id = None
  /\ (forall s, s ∈ slots -> SLOT_RUNS st !! s = None)
  /\ st1 = set_SLOT_RUNS (reserve slots run_id (SLOT_RUNS st)) st.
Proof.
  unfold admission, http_error.
  destruct (modes req) eqn:Hm; [done|].
  destruct (List.find _ _); [done|].
  destruct (resolve_slots req st) as [|s0 sl] eqn:Hs; [done|].
  case_bool_decide as Hj; [done|].
  destruct (Py.sorted _) eqn:Hb; [|done].
  intros [= <- <- <-]. repeat split; try done.
  - by apply eq_None_not_Some.
  - intros x Hin. apply sorted_nil_inv in Hb.
    apply eq_None_not_Some. intros Hsome.
    by apply (filter_nil_not_elem_of _ _ x Hb).
Qed.

Lemma record_job_meta_inv run_id mode params st st' :
  record_job_meta float_of_str log10 pow10 run_id mode params st = Return st' ->
  exists planned,
    st' = set_JOB_META
            (<[run_id := {| meta_mode := mode; meta_params := params;
                            planned_duration_s := planned |}]> (JOB_META st)) st.
Proof.
  unfold record_job_meta.
  destruct (App.estimate_planned_duration _ _ _ _ _) as [planned|e]; [|done].
  intros [= <-]. by exists planned.
Qed.

(** What the [try] block can have changed when it ends, with or without an
    exception: entries under the run identifier, and, only when it ran to
    its end, the list of threads. *)
Lemma setup_job_frame req E run_id slots st :
  let st2 := (setup_job req E run_id slots st).1 in
  DEVICES st2 = DEVICES st /\ SLOT_RUNS st2 = SLOT_RUNS st
  /\ uploads st2 = uploads st
  /\ delete run_id (JOBS st2) = delete run_id (JOBS st)
  /\ delete run_id (JOB_META st2) = delete run_id (JOB_META st)
  /\ delete run_id (JOB_GROUP_IDS st2) = delete run_id (JOB_GROUP_IDS st)
  /\ delete run_id (JOB_GROUP_FOLDERS st2) = delete run_id (JOB_GROUP_FOLDERS st)
  /\ delete run_id (CANCEL_FLAGS st2) = delete run_id (CANCEL_FLAGS st)
  /\ delete run_id (RUN_DIRECTORIES st2) = delete run_id (RUN_DIRECTORIES st)
  /\ delete run_id (run_index st2) = delete run_id (run_index st)
  /\ ((setup_job req E run_id slots st).2 <> Ok () -> threads st2 = threads st).
Proof.
  unfold App.setup_job.
  destruct (_build_run_storage_info req) as [info| |]; cbn [fst snd]; [|done|done].
  case_bool_decide; cbn [fst snd]; [done|].
  case_bool_decide; cbn [fst snd]; [simpl; rewrite ?delete_insert_eq; done|].
  destruct (record_job_meta _ _ _ _ _ _ _) as [st3|e] eqn:Hrec; cbn [fst snd].
  - apply record_job_meta_inv in Hrec. destruct Hrec as [planned ->].
    destruct (str_or _ _); destruct (str_or _ _); simpl;
      rewrite ?delete_insert_eq, ?delete_delete_eq; done.
  - simpl. by rewrite ?delete_insert_eq.
Qed.

Lemma state_eq (a b : state) :
  DEVICES a = DEVICES b -> JOBS a = JOBS b -> SLOT_RUNS a = SLOT_RUNS b ->
  JOB_META a = JOB_META b -> JOB_GROUP_IDS a = JOB_GROUP_IDS b ->
  JOB_GROUP_FOLDERS a = JOB_GROUP_FOLDERS b -> CANCEL_FLAGS a = CANCEL_FLAGS b ->
  RUN_DIRECTORIES a = RUN_DIRECTORIES b -> run_index a = run_index b ->
  threads a = threads b -> uploads a = uploads b -> a = b.
Proof. destruct a, b. simpl. by intros -> -> -> -> -> -> -> -> -> -> ->. Qed.

(** The handler of [start_job] undoes what the [try] block did. *)
Lemma rollback_restores req E run_id slots st :
  JOBS st !! run_id = None ->
  (forall s, s ∈ slots -> SLOT_RUNS st !! s = None) ->
  let st1 := set_SLOT_RUNS (reserve slots run_id (SLOT_RUNS st)) st in
  (setup_job req E run_id slots st1).2 <> Ok () ->
  let st' := rollback run_id slots (setup_job req E run_id slots st1).1 in
  DEVICES st' = DEVICES st /\ uploads st' = uploads st
  /\ SLOT_RUNS st' = SLOT_RUNS st /\ JOBS st' = JOBS st /\ threads st' = threads st
  /\ CANCEL_FLAGS st' = delete run_id (CANCEL_FLAGS st)
  /\ JOB_META st' = delete run_id (JOB_META st)
  /\ JOB_GROUP_IDS st' = delete run_id (JOB_GROUP_IDS st)
  /\ JOB_GROUP_FOLDERS st' = delete run_id (JOB_GROUP_FOLDERS st)
  /\ RUN_DIRECTORIES st' = delete run_id (RUN_DIRECTORIES st)
  /\ run_index st' = delete run_id (run_index st).
Proof.
  intros Hj Hfree st1 Hfail.
  pose proof (setup_job_frame req E run_id slots st1)
    as (Hd & Hs & Hu & HJ & HM & HG & HF & HC & HR & HI & HT).
  specialize (HT Hfail). simpl.
  rewrite Hs, HJ, HM, HG, HF, HC, HR, HI, HT, Hd, Hu. simpl.
  by rewrite (release_reserve _ _ _ Hfree), (delete_id _ _ Hj).
Qed.


(** [job_snapshot] writes [JOB_META] only, and returns the job it was
    given with the two derived fields filled in. *)
Lemma job_snapshot_frame job now st :
  let st' := (job_snapshot job now st).1 in
  DEVICES st' = DEVICES st /\ JOBS st' = JOBS st /\ SLOT_RUNS st' = SLOT_RUNS st
  /\ JOB_GROUP_IDS st' = JOB_GROUP_IDS st
  /\ JOB_GROUP_FOLDERS st' = JOB_GROUP_FOLDERS st
  /\ CANCEL_FLAGS st' = CANCEL_FLAGS st
  /\ RUN_DIRECTORIES st' = RUN_DIRECTORIES st /\ run_index st' = run_index st
  /\ threads st' = threads st /\ uploads st' = uploads st.
Proof.
  unfold App.job_snapshot.
  destruct (JOB_META st !! JobStatus.run_id job) as [m|];
    [|destruct (bool_decide (JobStatus.status job = running))];
    (destruct (planned_duration_s _); [done|]);
    (destruct (App.estimate_planned_duration _ _ _ _ _); [|done]);
    try destruct (bool_decide (JobStatus.status job = running)); done.
Qed.

Lemma job_snapshot_result job now st snap :
  (job_snapshot job now st).2 = Return snap ->
  exists pct rem, snap = JobStatus.with_progress pct rem job.
Proof.
  unfold App.job_snapshot.
  destruct (JOB_META st !! JobStatus.run_id job) as [m|];
    [|destruct (bool_decide (JobStatus.status job = running))];
    (destruct (planned_duration_s _);
     [|destruct (App.estimate_planned_duration _ _ _ _ _); [|done];
       try destruct (bool_decide (JobStatus.status job = running))]);
    cbn [snd mbind outcome_bind];
    (destruct (App.compute_progress _ _ _ _ _ _); [|done]);
    intros [= <-]; eauto.
Qed.

(** When the [try] block runs to its end, the job is registered with one
    queued slot per reserved slot and one worker per slot has been added. *)
Lemma setup_job_ok req E run_id slots st st2 :
  setup_job req E run_id slots st = (st2, Ok ()) ->
  threads st2
  = (threads st ++ imap (new_worker run_id req) (new_slot_status <$> slots))%list
  /\ JOBS st2
     = <[run_id := JobStatus.mk run_id (hd "" (modes req)) (now_iso E) running None
                     (new_slot_status <$> slots) 0 None (modes req)
                     (Some (hd "" (modes req))) (tl (modes req))]> (JOBS st).
Proof.
  unfold App.setup_job.
  destruct (_build_run_storage_info req); [|done|done].
  do 2 (case_bool_decide; [done|]).
  destruct (record_job_meta _ _ _ _ _ _ _) as [st3|] eqn:Hrec; [|done].
  apply record_job_meta_inv in Hrec. destruct Hrec as [planned ->].
  intros [= <-]. by destruct (str_or _ _), (str_or _ _).
Qed.

Lemma launch_threads req E run_id slots st :
  threads (launch req E run_id slots st).1 = threads st
  \/ threads (launch req E run_id slots st).1
     = (threads st ++ imap (new_worker run_id req) (new_slot_status <$> slots))%list.
Proof.
  unfold App.launch.
  pose proof (setup_job_frame req E run_id slots st) as HF.
  destruct (setup_job req E run_id slots st) as [st2 r] eqn:Hsetup.
  cbn [fst snd] in HF.
  destruct HF as (_ & _ & _ & _ & _ & _ & _ & _ & _ & _ & HT).
  destruct r as [[]|sc c m|e].
  - right. destruct (setup_job_ok _ _ _ _ _ _ Hsetup) as [Ht _].
    destruct (JOBS st2 !! run_id) as [job|]; [|done].
    pose proof (job_snapshot_frame job (now E) st2) as HS.
    destruct (job_snapshot job (now E) st2) as [st4 snap].
    cbn [fst] in *. destruct HS as (_ & _ & _ & _ & _ & _ & _ & _ & -> & _). done.
  - left. simpl. by apply HT.
  - left. simpl. by apply HT.
Qed.


Lemma existsb_bool_decide {A} (P : A -> Prop) `{forall x, Decision (P x)} (l : list A) :
  existsb (fun x => bool_decide (P x)) l = bool_decide (Exists P l).
Proof.
  induction l as [|x l IH]; cbn [existsb].
  - symmetry. apply bool_decide_eq_false_2. by intros ?%Exists_nil.
  - rewrite IH. destruct (decide (P x)) as [Hx|Hx].
    + rewrite (bool_decide_eq_true_2 (P x)) by done. simpl.
      symmetry. apply bool_decide_eq_true. by left.
    + rewrite (bool_decide_eq_false_2 (P x)) by done. simpl.
      apply bool_decide_ext. rewrite Exists_cons. tauto.
Qed.

Lemma existsb_elem_of (x : run_state) (l : list run_state) :
  existsb (fun s => bool_decide (s = x)) l = bool_decide (x ∈ l).
Proof.
  rewrite existsb_bool_decide. apply bool_decide_ext.
  rewrite Exists_exists. split.
  - by intros (y & Hy & ->).
  - intros Hx. by exists x.
Qed.

Lemma existsb_active (l : list run_state) :
  existsb (fun s => bool_decide (s = queued) || bool_decide (s = running)) l
  = bool_decide (Exists (fun s => s = queued \/ s = running) l).
Proof.
  rewrite <- existsb_bool_decide. induction l as [|x l IH]; simpl; [done|].
  rewrite IH. f_equal. by destruct x.
Qed.

(** The status [_update_job_status_locked] stores is the one the rule of
    the specification gives for the slots the job has. *)
Lemma update_job_status_spec key now_iso st job :
  JOBS st !! key = Some job ->
  exists job',
    JOBS (_update_job_status_locked key now_iso st) = <[key := job']> (JOBS st)
    /\ status_consistent job'
    /\ JobStatus.slots job' = JobStatus.slots job
    /\ threads (_update_job_status_locked key now_iso st) = threads st.
Proof.
  intros Hjob. unfold _update_job_status_locked. rewrite Hjob.
  rewrite existsb_active, !existsb_elem_of.
  set (l := SlotStatus.status <$> JobStatus.slots job).
  destruct (bool_decide (Exists (fun s => s = queued \/ s = running) l)) eqn:Hact.
  - eexists. split; [done|]. split; [|done].
    unfold status_consistent, spec_aggregate. simpl. fold l. by rewrite Hact.
  - destruct (bool_decide (failed ∈ l)) eqn:Hf;
      [|destruct (bool_decide (cancelled ∈ l)) eqn:Hc];
      (eexists; split; [done|]; split; [|done]);
      unfold status_consistent, spec_aggregate; simpl; fold l;
      rewrite Hact, ?Hf, ?Hc; done.
Qed.

Lemma invariant_frame st st' :
  JOBS st' = JOBS st -> threads st' = threads st -> invariant st -> invariant st'.
Proof.
  intros HJ HT [Hc Hw]. split.
  - intros rid job. rewrite HJ. apply Hc.
  - intros w. rewrite HT. intros Hin. destruct (Hw w Hin) as (job & ? & ?).
    exists job. by rewrite HJ.
Qed.

(** Replacing the job stored under one key by a consistent job with as
    many slots, while workers keep their run and index, preserves the
    invariant. *)
Lemma invariant_replace st st' key job job' :
  invariant st ->
  JOBS st !! key = Some job ->
  JOBS st' = <[key := job']> (JOBS st) ->
  status_consistent job' ->
  length (JobStatus.slots job') = length (JobStatus.slots job) ->
  (forall w', w' ∈ threads st' ->
     exists w, w ∈ threads st /\ w_run w' = w_run w /\ w_idx w' = w_idx w) ->
  invariant st'.
Proof.
  intros [Hc Hw] Hjob HJ Hcons Hlen HT. split.
  - intros rid j. rewrite HJ. destruct (decide (key = rid)) as [->|Hne].
    + rewrite lookup_insert_eq. by intros [= <-].
    + rewrite lookup_insert_ne by done. apply Hc.
  - intros w' Hin. destruct (HT w' Hin) as (w & Hwin & Hr & Hi).
    destruct (Hw w Hwin) as (j & Hj & Hlt). unfold worker_valid. rewrite HJ, Hr, Hi.
    destruct (decide (key = w_run w)) as [->|Hne].
    + rewrite lookup_insert_eq. exists job'. split; [done|].
      rewrite Hlen. by simplify_eq.
    + rewrite lookup_insert_ne by done. by exists j.
Qed.

Lemma threads_insert_pc (l : list worker) tid w p w' :
  l !! tid = Some w -> w' ∈ <[tid := with_pc p w]> l ->
  exists w0, w0 ∈ l /\ w_run w' = w_run w0 /\ w_idx w' = w_idx w0.
Proof.
  intros Hw Hin. apply list_elem_of_lookup in Hin. destruct Hin as [i Hi].
  destruct (decide (i = tid)) as [->|Hne].
  - rewrite list_lookup_insert_eq in Hi by (by eapply lookup_lt_Some).
    injection Hi as <-. exists w. split; [|done].
    apply list_elem_of_lookup. eauto.
  - rewrite list_lookup_insert_ne in Hi by done.
    exists w'. split; [|done]. apply list_elem_of_lookup. eauto.
Qed.

Lemma threads_same (l : list worker) w' :
  w' ∈ l -> exists w0, w0 ∈ l /\ w_run w' = w_run w0 /\ w_idx w' = w_idx w0.
Proof. intros. by exists w'. Qed.

Lemma aggregate_running_slot (l : list SlotStatus.t) i f :
  i < length l ->
  (forall s, SlotStatus.status (f s) = running) ->
  spec_aggregate (SlotStatus.status <$> alter f i l) = running.
Proof.
  intros Hi Hf. unfold spec_aggregate. rewrite bool_decide_eq_true_2; [done|].
  apply Exists_exists. exists running. split; [|by right].
  apply list_elem_of_lookup. exists i.
  rewrite list_lookup_fmap, list_lookup_alter_eq.
  destruct (lookup_lt_is_Some_2 l i Hi) as [s ->]. simpl. by rewrite Hf.
Qed.

Lemma aggregate_all_queued (slots : list string) :
  slots <> [] ->
  spec_aggregate (SlotStatus.status <$> (new_slot_status <$> slots)) = running.
Proof.
  intros Hne. unfold spec_aggregate. rewrite bool_decide_eq_true_2; [done|].
  destruct slots as [|s l]; [done|]. left. by left.
Qed.

Lemma snapshots_frame ids now st :
  JOBS (snapshots float_of_str log10 pow10 fromisoformat ids now st).1 = JOBS st
  /\ threads (snapshots float_of_str log10 pow10 fromisoformat ids now st).1 = threads st.
Proof.
  revert st. induction ids as [|rid rest IH]; intros st; [done|].
  cbn [snapshots]. destruct (JOBS st !! rid) as [job|]; [|done].
  pose proof (job_snapshot_frame job now st) as HS.
  destruct (job_snapshot job now st) as [st1 [snap|e]]; cbn [fst] in HS;
    destruct HS as (_ & HJ & _ & _ & _ & _ & _ & _ & HT & _); [|done].
  specialize (IH st1).
  destruct (snapshots _ _ _ _ rest now st1) as [st2 [snaps| |]]; cbn [fst] in *;
    destruct IH as [-> ->]; done.
Qed.

Lemma invariant_boot found index is_dir : invariant (boot found index is_dir).
Proof.
  split.
  - intros rid job. simpl. by rewrite lookup_empty.
  - intros w. simpl. by intros ?%elem_of_nil.
Qed.

Lemma invariant_same_jobs st st' :
  JOBS st' = JOBS st ->
  (forall w', w' ∈ threads st' ->
     exists w, w ∈ threads st /\ w_run w' = w_run w /\ w_idx w' = w_idx w) ->
  invariant st -> invariant st'.
Proof.
  intros HJ HT [Hc Hw]. split.
  - intros rid job. rewrite HJ. apply Hc.
  - intros w' Hin. destruct (HT w' Hin) as (w & Hwin & Hr & Hi).
    destruct (Hw w Hwin) as (job & ? & ?).
    exists job. by rewrite HJ, Hr, Hi.
Qed.

Lemma start_job_invariant req E st :
  invariant st -> invariant (start_job req E st).1.
Proof.
  intros Hinv. unfold App.start_job.
  destruct (admission req E st) as [st1 [[run_id slots]|sc c m|e]] eqn:Hadm.
  - destruct (admission_ok_inv _ _ _ _ _ _ Hadm) as (_ & _ & Hne & _ & Hj & Hfree & ->).
    unfold App.launch.
    pose proof (rollback_restores req E run_id slots st Hj Hfree) as Hroll.
    cbv zeta in Hroll.
    destruct (setup_job req E run_id slots _) as [st2 r] eqn:Hsetup.
    cbn [fst snd] in Hroll. destruct r as [[]|sc c m|e].
    + destruct (setup_job_ok _ _ _ _ _ _ Hsetup) as [Ht HJ]. cbn [threads JOBS set_SLOT_RUNS] in Ht, HJ.
      assert (Hinv2 : invariant st2).
      { destruct Hinv as [Hc Hw]. split.
        - intros rid j. rewrite HJ. destruct (decide (run_id = rid)) as [->|Hn].
          + rewrite lookup_insert_eq. intros [= <-]. split; [|done].
            simpl. by rewrite aggregate_all_queued.
          + rewrite lookup_insert_ne by done. apply Hc.
        - intros w. rewrite Ht, elem_of_app. intros [Hin|Hin].
          + destruct (Hw w Hin) as (j & Hjw & Hlt). exists j. split; [|done].
            rewrite HJ, lookup_insert_ne; [done|]. intros Heq.
            rewrite <- Heq in Hjw. by rewrite Hj in Hjw.
          + apply list_elem_of_lookup in Hin. destruct Hin as [i Hi].
            rewrite list_lookup_imap in Hi.
            destruct ((new_slot_status <$> slots) !! i) as [s|] eqn:Hs; [|done].
            injection Hi as <-. eexists. rewrite HJ. simpl. rewrite lookup_insert_eq.
            split; [done|]. simpl. by eapply lookup_lt_Some. }
      destruct (JOBS st2 !! run_id) as [job|]; [|done].
      pose proof (job_snapshot_frame job (now E) st2) as HS.
      destruct (job_snapshot job (now E) st2) as [st4 snap]. cbn [fst] in *.
      destruct HS as (_ & HJ4 & _ & _ & _ & _ & _ & _ & HT4 & _).
      by apply (invariant_frame st2).
    + destruct Hroll as (_ & _ & _ & HJ & HT & _); [done|].
      by apply (invariant_frame st).
    + destruct Hroll as (_ & _ & _ & HJ & HT & _); [done|].
      by apply (invariant_frame st).
  - by rewrite (admission_rejected _ _ _ _ _ _ _ Hadm).
  - by apply admission_handled in Hadm.
Qed.

Lemma length_cancel_slots now_iso (l : list SlotStatus.t) :
  length (cancel_slot now_iso <$> l) = length l.
Proof. apply length_fmap. Qed.

Lemma cancel_job_invariant run_id E st :
  invariant st -> invariant (cancel_job run_id E st).1.
Proof.
  intros Hinv. unfold cancel_job.
  destruct (JOBS st !! run_id) as [job|] eqn:Hjob; [|done].
  set (sa := match CANCEL_FLAGS st !! run_id with
             | Some _ => st
             | None => set_CANCEL_FLAGS (<[run_id:=false]> (CANCEL_FLAGS st)) st
             end).
  assert (Ha : JOBS sa = JOBS st /\ threads sa = threads st).
  { unfold sa. by destruct (CANCEL_FLAGS st !! run_id). }
  destruct Ha as [HaJ HaT].
  destruct (terminal (JobStatus.status job)); cbn [fst].
  { by apply (invariant_frame st). }
  set (jc := JobStatus.with_slots (cancel_slot (now_iso E) <$> JobStatus.slots job) job).
  set (sb := set_JOBS (<[run_id:=jc]> (JOBS (set_CANCEL_FLAGS _ sa))) (set_CANCEL_FLAGS _ sa)).
  destruct (update_job_status_spec run_id (now_iso E) sb jc) as (job' & HJ & Hcons & Hslots & HT).
  { unfold sb. simpl. by rewrite lookup_insert_eq. }
  eapply (invariant_replace st _ run_id job job'); try done.
  - simpl. rewrite HJ. unfold sb. simpl. by rewrite insert_insert_eq, HaJ.
  - rewrite Hslots. unfold jc. simpl. apply length_fmap.
  - simpl. rewrite HT. unfold sb. simpl. rewrite HaT. apply threads_same.
Qed.

Lemma job_status_invariant run_id E st :
  invariant st ->
  invariant (job_status float_of_str log10 pow10 fromisoformat run_id E st).1.
Proof.
  intros Hinv. unfold job_status.
  destruct (JOBS st !! run_id) as [job|]; [|done].
  pose proof (job_snapshot_frame job (now E) st) as HS.
  destruct (job_snapshot job (now E) st) as [st1 snap]. cbn [fst] in *.
  destruct HS as (_ & HJ & _ & _ & _ & _ & _ & _ & HT & _).
  by apply (invariant_frame st).
Qed.

Lemma jobs_bulk_status_invariant ids E st :
  invariant st ->
  invariant (jobs_bulk_status float_of_str log10 pow10 fromisoformat ids E st).1.
Proof.
  intros Hinv. unfold jobs_bulk_status.
  destruct (filter _ ids) as [|r0 rs]; [done|].
  destruct (filter _ (r0 :: rs)); [|done].
  destruct (snapshots_frame (r0 :: rs) (now E) st) as [HJ HT].
  by apply (invariant_frame st).
Qed.

Lemma worker_begin_invariant tid E st :
  invariant st -> invariant (worker_begin tid E st).
Proof.
  intros Hinv. unfold worker_begin.
  destruct (threads st !! tid) as [w|] eqn:Hw; [|done].
  destruct (w_pc w); [|done|done].
  assert (Hwin : w ∈ threads st) by (apply list_elem_of_lookup; eauto).
  case_bool_decide.
  - set (sa := set_threads _ st).
    set (sb := match CANCEL_FLAGS sa !! w_run w with
               | Some _ => sa
               | None => set_CANCEL_FLAGS (<[w_run w:=false]> (CANCEL_FLAGS sa)) sa
               end).
    assert (Hb : JOBS sb = JOBS st
                 /\ threads sb = <[tid := with_pc InSequence w]> (threads st)).
    { unfold sb. by destruct (CANCEL_FLAGS sa !! w_run w). }
    destruct Hb as [HbJ HbT].
    destruct (proj2 Hinv w Hwin) as (job & Hjob & Hlt).
    assert (Hjb : JOBS sb !! w_run w = Some job) by (by rewrite HbJ).
    cbv zeta. fold sa. fold sb. rewrite Hjb.
    eapply (invariant_replace st _ (w_run w) job); [exact Hinv|exact Hjob|..].
    + cbn [JOBS set_JOBS]. rewrite HbJ. reflexivity.
    + split; [|done]. cbn [JobStatus.status JobStatus.slots JobStatus.with_status JobStatus.with_slots].
      by rewrite aggregate_running_slot.
    + cbn [JobStatus.status JobStatus.slots JobStatus.with_status JobStatus.with_slots].
      apply length_alter.
    + cbn [threads set_JOBS]. rewrite HbT. intros w'. by apply threads_insert_pc.
  - eapply (invariant_same_jobs st); [done| |done].
    simpl. intros w'. by apply threads_insert_pc.
Qed.

Lemma worker_publish_invariant tid idx st :
  invariant st -> invariant (worker_publish tid idx st).
Proof.
  intros Hinv. unfold worker_publish.
  destruct (threads st !! tid) as [w|]; [|done].
  destruct (w_pc w); [done| |done].
  destruct (w_modes w !! idx) as [mode|]; [|done].
  destruct (JOBS st !! w_run w) as [job|] eqn:Hjob; [|done].
  eapply (invariant_replace st _ (w_run w) job); [exact Hinv|exact Hjob|..].
  - reflexivity.
  - exact (proj1 Hinv (w_run w) job Hjob).
  - reflexivity.
  - cbn [threads set_JOBS]. apply threads_same.
Qed.

Lemma worker_finish_invariant tid error files E st :
  invariant st -> invariant (worker_finish tid error files E st).
Proof.
  intros Hinv. unfold worker_finish.
  destruct (threads st !! tid) as [w|] eqn:Hw; [|done].
  destruct (w_pc w); [done| |done].
  cbv zeta.
  set (sa := set_threads (<[tid := with_pc Exited w]> (threads st)) st).
  change (JOBS sa) with (JOBS st).
  destruct (JOBS st !! w_run w) as [job|] eqn:Hjob.
  - set (jf := JobStatus.with_slots _ job).
    set (sb := set_JOBS (<[w_run w := jf]> (JOBS st)) sa).
    destruct (update_job_status_spec (w_run w) (now_iso E) sb jf)
      as (job' & HJ & Hcons & Hslots & HT).
    { unfold sb. simpl. by rewrite lookup_insert_eq. }
    assert (HJ' : JOBS (_update_job_status_locked (w_run w) (now_iso E) sb)
                  = <[w_run w := job']> (JOBS st)).
    { rewrite HJ. unfold sb. simpl. by rewrite insert_insert_eq. }
    assert (Hlen : length (JobStatus.slots job') = length (JobStatus.slots job)).
    { rewrite Hslots. unfold jf. simpl. apply length_alter. }
    assert (HT' : forall w', w' ∈ threads (_update_job_status_locked (w_run w) (now_iso E) sb) ->
                 exists w0, w0 ∈ threads st /\ w_run w' = w_run w0 /\ w_idx w' = w_idx w0).
    { rewrite HT. unfold sb, sa. simpl. intros w'. by apply threads_insert_pc. }
    set (sc := _update_job_status_locked _ _ _) in *.
    rewrite HJ', lookup_insert_eq.
    destruct (terminal (JobStatus.status job')).
    + eapply (invariant_replace st _ (w_run w) job);
        [exact Hinv|exact Hjob|..].
      * cbn [JOBS set_JOBS set_SLOT_RUNS]. rewrite insert_insert_eq. reflexivity.
      * exact Hcons.
      * exact Hlen.
      * exact HT'.
    + by eapply (invariant_replace st _ (w_run w) job job').
  - eapply (invariant_same_jobs st); [done| |done].
    simpl. intros w'. by apply threads_insert_pc.
Qed.

Lemma step_invariant st st' : step float_of_str log10 pow10 fromisoformat st st' ->
  invariant st -> invariant st'.
Proof.
  intros Hstep Hinv. destruct Hstep.
  - by apply start_job_invariant.
  - by apply cancel_job_invariant.
  - by apply job_status_invariant.
  - by apply jobs_bulk_status_invariant.
  - by apply worker_begin_invariant.
  - by apply worker_publish_invariant.
  - by apply worker_finish_invariant.
  - by apply (invariant_frame st).
  - by apply (invariant_frame st).
Qed.

Lemma reachable_invariant st :
  reachable float_of_str log10 pow10 fromisoformat st -> invariant st.
Proof.
  induction 1 as [|st st' _ IH Hstep].
  - apply invariant_boot.
  - by apply (step_invariant st).
Qed.


Lemma cancel_slot_keeps_running now_iso (l : list SlotStatus.t) :
  Exists (fun s => SlotStatus.status s = running) l ->
  spec_aggregate (SlotStatus.status <$> (cancel_slot now_iso <$> l)) = running.
Proof.
  intros Hex. unfold spec_aggregate. rewrite bool_decide_eq_true_2; [done|].
  apply Exists_fmap, Exists_fmap. eapply Exists_impl; [exact Hex|].
  intros s Hs. simpl. right. unfold cancel_slot.
  rewrite bool_decide_eq_false_2; [done|]. by rewrite Hs.
Qed.

(** C10. For a registered job that is not terminal, the body [cancel_job]
    returns carries the constant status "cancelled", whatever the job's
    stored status is after the call: with a slot still running the stored
    status is running. For a terminal job the body carries the stored
    status and the job registry is left as it was. *)
Theorem cancel_job_response (run_id : string) (E : env) (st : state)
    (job : JobStatus.t) :
  JOBS st !! run_id = Some job ->
  (terminal (JobStatus.status job) = false ->
   (cancel_job run_id E st).2
   = Ok {| resp_run_id := run_id; resp_status := "cancelled" |}
   /\ (Exists (fun s => SlotStatus.status s = running) (JobStatus.slots job) ->
       exists job',
         JOBS (cancel_job run_id E st).1 !! run_id = Some job'
         /\ JobStatus.status job' = running))
  /\ (terminal (JobStatus.status job) = true ->
      (cancel_job run_id E st).2
      = Ok {| resp_run_id := run_id;
              resp_status := status_str (JobStatus.status job) |}
      /\ JOBS (cancel_job run_id E st).1 = JOBS st).
Proof.
  intros Hjob. unfold cancel_job. rewrite Hjob. cbv zeta.
  set (sa := match CANCEL_FLAGS st !! run_id with
             | Some _ => st
             | None => set_CANCEL_FLAGS (<[run_id:=false]> (CANCEL_FLAGS st)) st
             end).
  assert (HaJ : JOBS sa = JOBS st).
  { unfold sa. by destruct (CANCEL_FLAGS st !! run_id). }
  split; intros Hterm; rewrite Hterm; cbn [fst snd]; [|done].
  split; [done|]. intros Hex.
  set (jc := JobStatus.with_slots (cancel_slot (now_iso E) <$> JobStatus.slots job) job).
  set (sb := set_JOBS _ _).
  destruct (update_job_status_spec run_id (now_iso E) sb jc)
    as (job' & HJ & [Hagg _] & Hslots & _).
  { unfold sb. cbn [JOBS set_JOBS]. by rewrite lookup_insert_eq. }
  exists job'. cbn [JOBS set_SLOT_RUNS]. rewrite HJ, lookup_insert_eq.
  split; [done|]. rewrite Hagg, Hslots. unfold jc. cbn [JobStatus.slots JobStatus.with_slots].
  by apply cancel_slot_keeps_running.
Qed.

Lemma snapshots_result ids now st st' snaps :
  snapshots float_of_str log10 pow10 fromisoformat ids now st = (st', Ok snaps) ->
  Forall2 (fun rid snap =>
             exists job pct rem,
               JOBS st !! rid = Some job
               /\ snap = JobStatus.with_progress pct rem job) ids snaps.
Proof.
  revert st st' snaps. induction ids as [|rid rest IH]; intros st st' snaps.
  - cbn [snapshots]. intros [= <- <-]. constructor.
  - cbn [snapshots]. destruct (JOBS st !! rid) as [job|] eqn:Hjob; [|done].
    pose proof (job_snapshot_frame job now st) as HS.
    pose proof (job_snapshot_result job now st) as HR.
    destruct (job_snapshot job now st) as [st1 [snap|e]]; [|done].
    cbn [fst snd] in HS, HR. destruct HS as (_ & HJ & _).
    destruct (HR snap eq_refl) as (pct & rem & ->).
    specialize (IH st1).
    destruct (snapshots _ _ _ _ rest now st1) as [st2 [snaps'| |]]; [|done|done].
    intros [= <- <-]. constructor.
    + eauto.
    + specialize (IH _ _ eq_refl). rewrite HJ in IH. exact IH.
Qed.

Lemma snapshots_not_http ids now st st' sc c m :
  snapshots float_of_str log10 pow10 fromisoformat ids now st
  <> (st', HTTPException sc c m).
Proof.
  revert st. induction ids as [|rid rest IH]; intros st; cbn [snapshots]; [done|].
  destruct (JOBS st !! rid) as [job|]; [|done].
  destruct (job_snapshot job now st) as [st1 [snap|e]]; [|done].
  specialize (IH st1).
  destruct (snapshots _ _ _ _ rest now st1) as [st2 [snaps'| |]]; [done| |done].
  intros [= <- <- <- <-]. by apply IH.
Qed.

End AppFacts.

(** ** The scenarios *)



Lemma measuring_reachable :
  App.reachable Scenario.float_of_str Scenario.libm Scenario.libm
    Scenario.epoch_only Scenario.measuring.
Proof.
  unfold Scenario.measuring.
  apply (App.reachable_step _ _ _ _ Scenario.submitted);
    [|exact (App.step_worker_begin _ _ _ _ 0 Scenario.E0 Scenario.submitted)].
  unfold Scenario.submitted, Scenario.start_job.
  apply (App.reachable_step _ _ _ _ Scenario.booted);
    [|exact (App.step_start_job Scenario.float_of_str Scenario.libm Scenario.libm
               Scenario.epoch_only Scenario.request_a Scenario.E0 Scenario.booted)].
  unfold Scenario.booted. apply App.reachable_boot.
Qed.





(** [run_a] cancelled while its only slot is measuring. *)
Lemma cancel_job_response_witness :
  (App.cancel_job "run_a" Scenario.E0 Scenario.measuring).2
  = Ok {| App.resp_run_id := "run_a"; App.resp_status := "cancelled" |}
  /\ exists job',
       App.JOBS (App.cancel_job "run_a" Scenario.E0 Scenario.measuring).1 !! "run_a"
       = Some job'
       /\ App.JobStatus.status job' = App.running.
Proof.
  destruct (App.JOBS Scenario.measuring !! "run_a") as [job|] eqn:Hjob;
    [|vm_compute in Hjob; discriminate].
  pose proof (proj1 (cancel_job_response "run_a" Scenario.E0 Scenario.measuring
                       job Hjob)) as H.
  vm_compute in Hjob. injection Hjob as <-.
  destruct (H eq_refl) as [Hresp Hrun].
  split; [exact Hresp|]. apply Hrun. left. reflexivity.
Defined.

(* ===================================================================== *)
(** * Properties of nas_smb.py and nas.py                                 *)
(* ===================================================================== *)
Section NasFacts.
Import Nas.

(** C4, as [nas_smb.py] has it. For every pair of counts with the remote
    one below the local one, the upload worker of the manager the
    application uses writes no marker file at all: the completion marker
    is not written, and neither is a failure marker, because the class has
    no [_mark_failed] and the call raises; when the configuration loads
    and the run directory resolves the worker ends with that
    [AttributeError]. *)
Theorem smb_mismatch_writes_nothing (run_id : string) (E : NasSmb.env)
    (st : state) :
  (NasSmb.remote_count E < NasSmb.local_count E)%Z ->
  markers (NasSmb._upload_worker run_id E st).1 = markers st
  /\ (NasSmb.configured E = true -> NasSmb.resolves E = true ->
      (NasSmb._upload_worker run_id E st).2 = Raise AttributeError).
Proof.
  intros Hlt. apply Z.ltb_lt in Hlt.
  unfold NasSmb._upload_worker, NasSmb.transfer_and_verify, NasSmb._mark_failed.
  rewrite Hlt.
  destruct (NasSmb.configured E), (NasSmb.resolves E), (NasSmb.mount_ok E),
    (NasSmb.rsync_rc E =? 0)%Z; simpl; split; try done; by intros.
Qed.

(** Over SSH a count that was obtained and falls short of the local one
    is recorded in [upload_failed]; the completion marker is not touched. *)
Lemma ssh_mismatch_marks_failed (run_id : string) (E : NasSsh.env)
    (st : state) :
  NasSsh.configured E = true -> NasSsh.resolves E = true ->
  NasSsh.mkdir_ok E = true -> NasSsh.rsync_rc E = 0%Z ->
  (0 <= NasSsh.remote_count E < NasSsh.local_count E)%Z ->
  markers (NasSsh._upload_worker run_id E st)
  = <["upload_failed" := verify_mismatch (NasSsh.local_count E) (NasSsh.remote_count E)]>
      (markers st)
  /\ markers (NasSsh._upload_worker run_id E st) !! "UPLOAD_DONE"
     = markers st !! "UPLOAD_DONE".
Proof.
  intros Hc Hr Hm Hrc [H0 Hlt].
  apply Z.leb_le in H0. apply Z.ltb_lt in Hlt.
  unfold NasSsh._upload_worker, NasSsh._mark_failed.
  rewrite Hc, Hr, Hm, Hrc, H0, Hlt. simpl. split; [done|].
  by rewrite lookup_insert_ne.
Qed.

(** Two of three files arrived. *)
Lemma smb_mismatch_writes_nothing_witness :
  (NasSmb.remote_count Scenario.smb_two_of_three
   < NasSmb.local_count Scenario.smb_two_of_three)%Z
  /\ markers (NasSmb._upload_worker "run_a" Scenario.smb_two_of_three Scenario.idle).1
     = markers Scenario.idle
  /\ (NasSmb._upload_worker "run_a" Scenario.smb_two_of_three Scenario.idle).2
     = Raise AttributeError.
Proof.
  assert (H : (NasSmb.remote_count Scenario.smb_two_of_three
               < NasSmb.local_count Scenario.smb_two_of_three)%Z)
    by (vm_compute; reflexivity).
  split; [exact H|]. split.
  - exact (proj1 (smb_mismatch_writes_nothing "run_a" Scenario.smb_two_of_three
                    Scenario.idle H)).
  - exact (proj2 (smb_mismatch_writes_nothing "run_a" Scenario.smb_two_of_three
                    Scenario.idle H) eq_refl eq_refl).
Defined.

(** On the same counts the worker over SMB ends with [AttributeError],
    leaving neither a failure marker nor the completion marker, while the
    worker over SSH writes the failure marker with the reason. *)
Example smb_mismatch_leaves_no_failure_marker :
  NasSmb._upload_worker "run_a" Scenario.smb_two_of_three Scenario.idle
  = ({| markers := ∅; _uploading := ∅ |}, Raise AttributeError)
  /\ markers (NasSsh._upload_worker "run_a" Scenario.ssh_two_of_three Scenario.idle)
     = {["upload_failed" := "verify mismatch local=3 remote=2"]}.
Proof. split; vm_compute; reflexivity. Qed.

(** Over SSH, when the remote count cannot be obtained the variable holds
    -1 and the upload is marked complete. *)
Example ssh_unknown_count_marks_done :
  NasSsh.remote_count Scenario.ssh_count_fails = (-1)%Z
  /\ markers (NasSsh._upload_worker "run_a" Scenario.ssh_count_fails Scenario.idle)
     = {["UPLOAD_DONE" := "2024-01-02T03:04:05Z"]}.
Proof. split; vm_compute; reflexivity. Qed.

End NasFacts.

Section RetentionFacts.
Import Retention.

Lemma rmtree_subseteq (p : path) (fs : tree) : rmtree p fs ⊆ fs.
Proof. apply map_filter_subseteq. Qed.

Lemma rmtree_removed (p : path) (fs : tree) (q : path) (n : node) :
  fs !! q = Some n -> rmtree p fs !! q = None -> p `prefix_of` q.
Proof.
  intros Hq Hnone. unfold rmtree in Hnone.
  apply map_lookup_filter_None in Hnone.
  destruct Hnone as [Hn|Hn]; [congruence|].
  specialize (Hn n Hq). simpl in Hn.
  destruct (decide (p `prefix_of` q)); [done|]. by destruct Hn.
Qed.

Lemma sweep_spec (cutoff : Z) (listing : list path) (fs0 fs : tree)
    (deleted : list path) :
  fs ⊆ fs0 ->
  (forall p, p ∈ deleted -> expired cutoff fs0 p) ->
  (forall q n, fs0 !! q = Some n -> fs !! q = None ->
               exists p, p ∈ deleted /\ p `prefix_of` q) ->
  let r := sweep cutoff listing fs deleted in
  r.1 ⊆ fs0
  /\ (forall p, p ∈ r.2 -> expired cutoff fs0 p)
  /\ (forall q n, fs0 !! q = Some n -> r.1 !! q = None ->
                  exists p, p ∈ r.2 /\ p `prefix_of` q).
Proof.
  revert fs deleted. induction listing as [|p rest IH]; intros fs deleted Hsub Hdel Hrem.
  - done.
  - cbn [sweep]. destruct (fs !! p) as [[t|d]|] eqn:Hp; try by apply IH.
    destruct (fs !! marker_of p) as [m|] eqn:Hm; [|by apply IH].
    destruct (timestamp_of d m <=? cutoff)%Z eqn:Hts; [|by apply IH].
    apply IH.
    + etransitivity; [apply rmtree_subseteq|done].
    + intros p' [->|Hin]%elem_of_cons; [|by apply Hdel].
      pose proof (lookup_weaken _ _ _ _ Hp Hsub) as Hp0.
      pose proof (lookup_weaken _ _ _ _ Hm Hsub) as Hm0.
      unfold expired, is_dir, marker_exists, timestamp. rewrite Hp0, Hm0.
      split; [done|]. split; [by apply bool_decide_eq_true_2|].
      exists (timestamp_of d m). split; [done|]. by apply Z.leb_le.
    + intros q n Hq0 Hnone. destruct (fs !! q) as [n'|] eqn:Hq.
      * exists p. split; [by left|]. by eapply rmtree_removed.
      * destruct (Hrem q n Hq0 Hq) as (p' & Hin & Hpre).
        exists p'. split; [by right|done].
Qed.

(** C5, as the code has it. In every retention pass, a directory is handed
    to the recursive delete only if at the start of the pass it contains
    the completion marker and the marker's modification time, or the
    directory's own when the marker's cannot be read, is at or before now
    minus the retention window; so a directory without the marker is never
    handed to it, whatever its age. Whatever the pass removes lies inside
    such a directory, and what it leaves is unchanged. *)
Theorem retention_deletes_only_expired (retention_days now : Z)
    (listing : list path) (fs : tree) :
  let cutoff := cutoff_of now retention_days in
  let r := _apply_retention retention_days now listing fs in
  (forall p, p ∈ r.2 ->
     is_dir fs p = true /\ marker_exists fs p = true
     /\ exists ts, timestamp fs p = Some ts /\ (ts <= cutoff)%Z)
  /\ (forall p, marker_exists fs p = false -> p ∉ r.2)
  /\ (forall q n, fs !! q = Some n -> r.1 !! q = None ->
        exists p, p ∈ r.2 /\ p `prefix_of` q)
  /\ (forall q n, r.1 !! q = Some n -> fs !! q = Some n).
Proof.
  intros cutoff r.
  destruct (sweep_spec cutoff listing fs fs []) as (Hsub & Hdel & Hrem).
  - done.
  - by intros p ?%elem_of_nil.
  - intros q n Hq Hn. congruence.
  - fold (_apply_retention retention_days now listing fs) in Hsub, Hdel, Hrem.
    fold r in Hsub, Hdel, Hrem. split; [exact Hdel|]. split; [|split; [exact Hrem|]].
    + intros p Hm Hin. destruct (Hdel p Hin) as (_ & Hex & _). congruence.
    + intros q n Hq. by eapply lookup_weaken.
Qed.

(** C5 as stated fails at the boundary and below a deleted directory: the
    marker is exactly as old as the window, not older, and the run
    directory is deleted; its subdirectory holds no marker and is gone
    with it. *)
Lemma retention_deletes_at_cutoff :
  cutoff_of (Scenario.day14 + 1000) 14 = 1000%Z
  /\ timestamp Scenario.uploaded_run ["run"] = Some 1000%Z
  /\ _apply_retention 14 (Scenario.day14 + 1000) Scenario.walk Scenario.uploaded_run
     = (∅, [["run"]])
  /\ is_dir Scenario.uploaded_run ["run"; "Wells"] = true
  /\ marker_exists Scenario.uploaded_run ["run"; "Wells"] = false.
Proof. repeat split; vm_compute; reflexivity. Qed.

End RetentionFacts.

(* ===================================================================== *)
(** * Properties of validation.py                                         *)
(* ===================================================================== *)
Section ValidationFacts.
Import Validation.

Variable float_of_str : string -> option float.
Variable float_repr : float -> string.

Lemma upper_char_idemp c : Py.upper_char (Py.upper_char c) = Py.upper_char c.
Proof. destruct c as [[] [] [] [] [] [] [] []]; vm_compute; reflexivity. Qed.

Lemma upper_idemp s : Py.upper (Py.upper s) = Py.upper s.
Proof.
  unfold Py.upper. induction s as [|c s IH]; [done|].
  cbn [Py.map_chars]. by rewrite upper_char_idemp, IH.
Qed.

Lemma mode_validators_supported mode_key :
  is_Some (_MODE_VALIDATORS float_of_str float_repr mode_key) <-> mode_key ∈ supported.
Proof.
  unfold _MODE_VALIDATORS, supported. split.
  - intros [v Hv].
    repeat match type of Hv with
           | context [String.eqb mode_key ?k] =>
               destruct (String.eqb_spec mode_key k) as [->|_]; [set_solver|]
           end.
    discriminate.
  - intros Hin. repeat (apply elem_of_cons in Hin as [->|Hin]; [by eexists|]).
    by apply elem_of_nil in Hin.
Qed.



Lemma require_fields_spec (p : gmap string pyval) (fields : list string)
    (errs : list ValidationIssue) :
  _require_fields p fields errs
  = (errs ++ (missing_field
                <$> filter (fun n => _is_empty (Estimate.get p n) = true) fields))%list.
Proof.
  unfold _require_fields. revert errs.
  induction fields as [|n fields IH]; intros errs; simpl.
  - by rewrite app_nil_r.
  - rewrite IH, filter_cons. destruct (_is_empty (Estimate.get p n)) eqn:He.
    + rewrite decide_True by done. by rewrite fmap_cons, <- app_assoc.
    + by rewrite decide_False by done.
Qed.

Lemma placeholder_presence_only (required : list string) (message : string)
    (p q : gmap string pyval) :
  (forall name, _is_empty (Estimate.get p name) = _is_empty (Estimate.get q name)) ->
  placeholder required message p = placeholder required message q.
Proof.
  intros Hpq. unfold placeholder. rewrite !require_fields_spec.
  assert (H : filter (fun n => _is_empty (Estimate.get p n) = true) required
              = filter (fun n => _is_empty (Estimate.get q n) = true) required).
  { apply list_filter_iff. intros n. by rewrite Hpq. }
  by rewrite H.
Qed.

Lemma placeholder_issues (required : list string) (message : string)
    (p : gmap string pyval) :
  Forall (fun e => code e = "missing_field"
                   /\ _is_empty (Estimate.get p (field e)) = true)
         (errors (placeholder required message p))
  /\ exists w, warnings (placeholder required message p) = [w]
               /\ code w = "not_implemented".
Proof.
  unfold placeholder. cbn [errors warnings]. rewrite require_fields_spec. split.
  - rewrite app_nil_l. apply Forall_fmap, Forall_forall.
    intros n [Hn _]%list_elem_of_filter. done.
  - by eexists.
Qed.


Lemma coerce_float_app (f : string) (p : gmap string pyval)
    (errs : list ValidationIssue) (pos : bool) (mn mx : option float) :
  _coerce_float float_of_str float_repr f p errs pos mn mx
  = ((errs ++ (_coerce_float float_of_str float_repr f p [] pos mn mx).1)%list,
     (_coerce_float float_of_str float_repr f p [] pos mn mx).2).
Proof.
  unfold _coerce_float.
  destruct (_is_empty _); [done|].
  destruct (Estimate.py_float _ _) as [x|e]; [|done].
  destruct (pos && PrimFloat.leb x 0); destruct mn as [mn|]; destruct mx as [mx|];
    repeat match goal with
           | |- context [if ?b then _ else _] => destruct b
           end; cbn [fst snd]; rewrite ?app_nil_r, ?app_nil_l, <- ?app_assoc; done.
Qed.

Lemma coerce_int_app (f : string) (p : gmap string pyval)
    (errs : list ValidationIssue) (pos : bool) :
  _coerce_int float_of_str f p errs pos
  = ((errs ++ (_coerce_int float_of_str f p [] pos).1)%list,
     (_coerce_int float_of_str f p [] pos).2).
Proof.
  unfold _coerce_int.
  destruct (_is_empty _); [done|].
  destruct (_ ≫= _) as [x|e]; [|done].
  destruct (pos && (x <=? 0)%Z); cbn [fst snd]; by rewrite ?app_nil_r.
Qed.

Lemma coerce_voltage_clean (f : string) (p : gmap string pyval) :
  match cv_voltage float_of_str p f with
  | Some x =>
      _coerce_float float_of_str float_repr f p [] false
        (Some voltage_bounds.1) (Some voltage_bounds.2) = ([], Some x)
  | None =>
      (_coerce_float float_of_str float_repr f p [] false
         (Some voltage_bounds.1) (Some voltage_bounds.2)).1 <> []
  end.
Proof.
  unfold cv_voltage, _coerce_float, in_bounds.
  destruct (_is_empty _); [done|].
  destruct (Estimate.py_float _ _) as [x|e]; [|done].
  cbn [andb].
  destruct (PrimFloat.ltb x voltage_bounds.1), (PrimFloat.ltb voltage_bounds.2 x);
    cbn [negb andb fst]; try done; by destruct ([] : list ValidationIssue).
Qed.

Lemma coerce_scan_rate_clean (p : gmap string pyval) :
  match cv_scan_rate float_of_str p with
  | Some x =>
      _coerce_float float_of_str float_repr "scan_rate" p [] true None None
      = ([], Some x)
  | None =>
      (_coerce_float float_of_str float_repr "scan_rate" p [] true None None).1 <> []
  end.
Proof.
  unfold cv_scan_rate, _coerce_float.
  destruct (_is_empty _); [done|].
  destruct (Estimate.py_float _ _) as [x|e]; [|done].
  cbn [andb]. by destruct (PrimFloat.leb x 0).
Qed.

Lemma coerce_cycles_clean (p : gmap string pyval) :
  match cv_cycles float_of_str p with
  | Some n => _coerce_int float_of_str "cycles" p [] true = ([], Some n)
  | None => (_coerce_int float_of_str "cycles" p [] true).1 <> []
  end.
Proof.
  unfold cv_cycles, _coerce_int.
  destruct (_is_empty _); [done|].
  destruct (_ ≫= _) as [x|e]; [|done].
  cbn [andb]. by destruct (x <=? 0)%Z.
Qed.

(** X3. A CV payload is reported ok exactly when each of the six fields is
    present and converts to a number, no voltage is below -10 or above 10,
    the scan rate is not at or below zero, the cycle count, truncated to
    an integer, is above zero, and the four voltages are not all equal.
    Warnings never make a payload fail. *)
Theorem cv_ok_iff_acceptable (payload : gmap string pyval) :
  ok (_validate_cv_params float_of_str float_repr payload) = true
  <-> cv_acceptable float_of_str payload.
Proof.
  unfold _validate_cv_params, cv_acceptable.
  rewrite (coerce_float_app "start").
  rewrite (coerce_float_app "vertex1"), (coerce_float_app "vertex2"),
    (coerce_float_app "end"), (coerce_float_app "scan_rate"), (coerce_int_app "cycles").
  pose proof (coerce_voltage_clean "start" payload) as H1.
  pose proof (coerce_voltage_clean "vertex1" payload) as H2.
  pose proof (coerce_voltage_clean "vertex2" payload) as H3.
  pose proof (coerce_voltage_clean "end" payload) as H4.
  pose proof (coerce_scan_rate_clean payload) as H5.
  pose proof (coerce_cycles_clean payload) as H6.
  set (c1 := _coerce_float _ _ "start" _ _ _ _ _) in *.
  set (c2 := _coerce_float _ _ "vertex1" _ _ _ _ _) in *.
  set (c3 := _coerce_float _ _ "vertex2" _ _ _ _ _) in *.
  set (c4 := _coerce_float _ _ "end" _ _ _ _ _) in *.
  set (c5 := _coerce_float _ _ "scan_rate" _ _ _ _ _) in *.
  set (c6 := _coerce_int _ "cycles" _ _ _) in *.
  cbn [ok]. rewrite bool_decide_eq_true.
  split.
  - intros Herr.
    assert (Hall : (((((([] ++ c1.1) ++ c2.1) ++ c3.1) ++ c4.1) ++ c5.1) ++ c6.1)%list = []).
    { destruct c1.2, c2.2, c3.2, c4.2; try exact Herr;
        destruct (all_equal _ _ _ _); try exact Herr;
        by apply app_eq_nil in Herr as [_ ?]. }
    repeat (apply app_eq_nil in Hall as [Hall ?]).
    destruct (cv_voltage _ _ "start") as [x1|]; [|done].
    destruct (cv_voltage _ _ "vertex1") as [x2|]; [|done].
    destruct (cv_voltage _ _ "vertex2") as [x3|]; [|done].
    destruct (cv_voltage _ _ "end") as [x4|]; [|done].
    destruct (cv_scan_rate _ _) as [x5|]; [|done].
    destruct (cv_cycles _ _) as [x6|]; [|done].
    exists x1, x2, x3, x4, x5, x6. repeat (split; [done|]).
    rewrite H1, H2, H3, H4 in Herr. cbn [snd] in Herr.
    destruct (all_equal x1 x2 x3 x4); [|done].
    by apply app_eq_nil in Herr as [_ ?].
  - intros (x1 & x2 & x3 & x4 & x5 & x6 & E1 & E2 & E3 & E4 & E5 & E6 & Hne).
    rewrite E1 in H1. rewrite E2 in H2. rewrite E3 in H3. rewrite E4 in H4.
    rewrite E5 in H5. rewrite E6 in H6.
    rewrite H1, H2, H3, H4, H5, H6. cbn [fst snd]. by rewrite Hne.
Qed.

End ValidationFacts.

(* ===================================================================== *)
(** * Properties of the run directory index                               *)
(* ===================================================================== *)
Section RunIndexFacts.
Import RunIndex.

Variable is_dir : string -> bool.

(** X4. A recorded run directory is found again, at once and after a
    restart: when the write of the index succeeds and the directory
    exists, [resolve_run_directory] returns it, from the state
    [record_run_directory] left as well as from the state
    [configure_runs_root] builds from the index file, whatever was stored
    under the run identifier before. *)
Theorem recorded_directory_resolves (run_id run_dir : string) (st : state) :
  is_dir run_dir = true ->
  let st1 := (record_run_directory run_id run_dir true st).1 in
  (record_run_directory run_id run_dir true st).2 = Return ()
  /\ resolve_run_directory is_dir run_id st1 = (st1, Ok run_dir)
  /\ resolve_run_directory is_dir run_id (configure_runs_root is_dir st1)
     = (configure_runs_root is_dir st1, Ok run_dir).
Proof.
  intros Hdir st1. subst st1. unfold record_run_directory. cbn [fst snd].
  split; [done|]. unfold resolve_run_directory. split.
  - cbn. simplify_map_eq. by rewrite Hdir.
  - cbn. erewrite (proj2 (map_lookup_filter_Some _ _ run_id run_dir)).
    + by rewrite Hdir.
    + by simplify_map_eq.
Qed.



End RunIndexFacts.

(* ===================================================================== *)
(** * Further properties of storage.py                                    *)
(* ===================================================================== *)
Section SanitizeAgain.
Import Storage.

Lemma lstrip_id p s :
  (forall c, first_char s = Some c -> p c = false) -> lstrip p s = s.
Proof.
  destruct s as [|c s]; [done|]. intros H. cbn [lstrip].
  by rewrite (H c eq_refl).
Qed.

Lemma rstrip_id p s :
  (forall c, last_char s = Some c -> p c = false) -> rstrip p s = s.
Proof.
  induction s as [|c s IH]; [done|]. intros H. cbn [rstrip].
  destruct s as [|d s].
  - cbn [rstrip]. by rewrite (H c eq_refl).
  - rewrite IH; [done|]. intros c' Hc'. apply H. exact Hc'.
Qed.

Lemma strip_id p s :
  (forall c, first_char s = Some c -> p c = false) ->
  (forall c, last_char s = Some c -> p c = false) ->
  strip p s = s.
Proof. intros Hf Hl. unfold strip. rewrite (lstrip_id p s Hf). by apply rstrip_id. Qed.

Lemma sub_runs_id_none cls rep s :
  all_chars (fun c => negb (cls c)) s = true -> sub_runs cls rep false s = s.
Proof.
  induction s as [|c s IH]; [done|]. cbn [all_chars sub_runs].
  intros [Hc Hs]%andb_true_iff. apply negb_true_iff in Hc. rewrite Hc.
  by rewrite IH.
Qed.

Lemma sub_runs_id_single c b s :
  (b = true -> first_char s <> Some c) ->
  has_double c s = false ->
  sub_runs (Ascii.eqb c) c b s = s.
Proof.
  revert b. induction s as [|a s IH]; intros b Hb Hd; [done|].
  rewrite has_double_cons in Hd. apply orb_false_iff in Hd as [Hd1 Hd2].
  cbn [sub_runs]. destruct (Ascii.eqb_spec c a) as [<-|Hne].
  - destruct b.
    + by destruct (Hb eq_refl).
    + rewrite IH; [done| |done]. intros _.
      rewrite Ascii.eqb_refl in Hd1. cbn [andb] in Hd1.
      by apply bool_decide_eq_false in Hd1.
  - rewrite IH; [done| |done]. done.
Qed.

Lemma replace_char_id a b s :
  all_chars (fun c => negb (Ascii.eqb c a)) s = true -> replace_char a b s = s.
Proof.
  induction s as [|c s IH]; [done|]. cbn [all_chars replace_char].
  intros [Hc Hs]%andb_true_iff. apply negb_true_iff in Hc. rewrite Hc.
  by rewrite IH.
Qed.

Lemma all_chars_first p s c :
  all_chars p s = true -> first_char s = Some c -> p c = true.
Proof.
  destruct s as [|a s]; [done|]. cbn [all_chars first_char].
  intros [Ha _]%andb_true_iff [= <-]. done.
Qed.

Lemma all_chars_last p s c :
  all_chars p s = true -> last_char s = Some c -> p c = true.
Proof.
  induction s as [|a s IH]; [done|]. cbn [all_chars].
  intros [Ha Hs]%andb_true_iff. destruct s as [|d s].
  - intros [= <-]. done.
  - intros H. by apply IH.
Qed.

Lemma path_allowed_not_space c : path_allowed c = true -> is_space c = false.
Proof. destruct c as [[] [] [] [] [] [] [] []]; vm_compute; congruence. Qed.

Lemma not_sep_false o c : not_sep o = true -> o = Some c -> is_sep c = false.
Proof. intros H ->. by apply negb_true_iff in H. Qed.

Lemma safe_segment_strip_space allowed s :
  (forall c, allowed c = path_allowed c) ->
  safe_segment allowed s -> strip is_space s = s.
Proof.
  intros Ha [_ Hall _ _ _ _ _]. apply strip_id; intros c Hc;
    apply path_allowed_not_space; rewrite <- Ha.
  - by eapply all_chars_first.
  - by eapply all_chars_last.
Qed.

Lemma safe_segment_strip_sep allowed s :
  safe_segment allowed s -> strip is_sep s = s.
Proof.
  intros [_ _ _ _ Hf Hl _]. apply strip_id; intros c Hc.
  - exact (not_sep_false _ _ Hf Hc).
  - exact (not_sep_false _ _ Hl Hc).
Qed.

Lemma clean_path_segment_fixed s :
  safe_segment path_allowed s -> clean_path_segment s = s.
Proof.
  intros Hs. pose proof Hs as [_ Hall Hu Hh _ _ _]. unfold clean_path_segment.
  rewrite (sub_runs_id_none (fun c => negb (path_allowed c))).
  2:{ eapply all_chars_impl; [|exact Hall]. intros c Hc. by rewrite Hc. }
  rewrite (sub_runs_id_single underscore) by done.
  rewrite (sub_runs_id_single hyphen) by done.
  by eapply safe_segment_strip_sep.
Qed.

Lemma datetime_allowed_plain c :
  datetime_allowed c = true ->
  negb (Ascii.eqb c ":") && negb (Ascii.eqb c " ") && negb (Ascii.eqb c "/")
  && negb (Ascii.eqb c "\") && negb (Ascii.eqb c ".") = true.
Proof. destruct c as [[] [] [] [] [] [] [] []]; vm_compute; congruence. Qed.

Lemma clean_client_datetime_fixed s :
  safe_segment datetime_allowed s -> clean_client_datetime s = s.
Proof.
  intros Hs. pose proof Hs as [_ Hall Hu Hh _ _ _].
  unfold clean_client_datetime, normalize_client_datetime.
  rewrite (replace_char_id ":").
  2:{ eapply all_chars_impl; [|exact Hall]. intros c Hc.
      apply datetime_allowed_plain in Hc. by repeat apply andb_true_iff in Hc as [Hc ?]. }
  rewrite (replace_char_id " ").
  2:{ eapply all_chars_impl; [|exact Hall]. intros c Hc.
      apply datetime_allowed_plain in Hc. by repeat apply andb_true_iff in Hc as [Hc ?]. }
  rewrite (replace_char_id "/").
  2:{ eapply all_chars_impl; [|exact Hall]. intros c Hc.
      apply datetime_allowed_plain in Hc. by repeat apply andb_true_iff in Hc as [Hc ?]. }
  rewrite (replace_char_id "\").
  2:{ eapply all_chars_impl; [|exact Hall]. intros c Hc.
      apply datetime_allowed_plain in Hc. by repeat apply andb_true_iff in Hc as [Hc ?]. }
  rewrite (replace_char_id ".").
  2:{ eapply all_chars_impl; [|exact Hall]. intros c Hc.
      apply datetime_allowed_plain in Hc. by repeat apply andb_true_iff in Hc as [Hc ?]. }
  rewrite (sub_runs_id_none (fun c => negb (datetime_allowed c))).
  2:{ eapply all_chars_impl; [|exact Hall]. intros c Hc. by rewrite Hc. }
  rewrite !sub_runs2_collapse.
  rewrite (sub_runs_id_single hyphen) by done.
  rewrite (sub_runs_id_single underscore) by done.
  by eapply safe_segment_strip_sep.
Qed.

(** X7. Sanitising is idempotent: what [sanitize_path_segment] returns is
    returned unchanged when it is sanitised again, under any field name,
    and the same holds for [sanitize_client_datetime]. *)
Theorem sanitize_idempotent (raw : option string) (field_name other : string)
    (s : string) :
  (sanitize_path_segment raw field_name = Ok s ->
   sanitize_path_segment (Some s) other = Ok s)
  /\ (sanitize_client_datetime raw = Ok s ->
      sanitize_client_datetime (Some s) = Ok s).
Proof.
  split.
  - unfold sanitize_path_segment at 1.
    destruct (String.eqb (strip is_space (default "" raw)) ""); [done|].
    destruct (String.eqb (clean_path_segment _) "") eqn:He; [done|].
    intros [= <-]. apply eqb_empty_false in He.
    pose proof (clean_path_segment_safe _ He) as Hs.
    set (s := clean_path_segment _) in *.
    unfold sanitize_path_segment. change (default "" (Some s)) with s.
    rewrite (safe_segment_strip_space path_allowed s) by done.
    rewrite (clean_path_segment_fixed s Hs).
    apply String.eqb_neq in He. by rewrite He.
  - unfold sanitize_client_datetime at 1.
    destruct (String.eqb (strip is_space (default "" raw)) ""); [done|].
    destruct (String.eqb (clean_client_datetime _) "") eqn:He; [done|].
    intros [= <-]. apply eqb_empty_false in He.
    pose proof (clean_client_datetime_safe _ He) as Hs.
    set (s := clean_client_datetime _) in *.
    unfold sanitize_client_datetime. change (default "" (Some s)) with s.
    rewrite (safe_segment_strip_space datetime_allowed s)
      by (done || apply datetime_allowed_path_allowed).
    rewrite (clean_client_datetime_fixed s Hs).
    apply String.eqb_neq in He. by rewrite He.
Qed.


Lemma all_chars_app p s t :
  all_chars p (s ++ t) = all_chars p s && all_chars p t.
Proof.
  induction s as [|c s IH]; [done|]. simpl.
  by rewrite IH, andb_assoc.
Qed.

Lemma all_chars_replace_char p a b s :
  p b = true -> all_chars p s = true -> all_chars p (replace_char a b s) = true.
Proof.
  intros Hb. induction s as [|c s IH]; [done|]. cbn [all_chars replace_char].
  intros [Hc Hs]%andb_true_iff. rewrite (IH Hs), andb_true_r.
  by destruct (Ascii.eqb c a).
Qed.

Lemma sanitize_path_segment_inv raw field_name :
  match sanitize_path_segment raw field_name with
  | Ok s => safe_segment path_allowed s
  | HTTPException sc _ _ => sc = 400%Z
  | Unhandled _ => False
  end.
Proof.
  unfold sanitize_path_segment.
  destruct (String.eqb (strip is_space (default "" raw)) ""); [done|].
  destruct (String.eqb (clean_path_segment _) "") eqn:He; [done|].
  by apply clean_path_segment_safe, eqb_empty_false.
Qed.

Lemma sanitize_client_datetime_inv raw :
  match sanitize_client_datetime raw with
  | Ok s => safe_segment datetime_allowed s
  | HTTPException sc _ _ => sc = 400%Z
  | Unhandled _ => False
  end.
Proof.
  unfold sanitize_client_datetime.
  destruct (String.eqb (strip is_space (default "" raw)) ""); [done|].
  destruct (String.eqb (clean_client_datetime _) "") eqn:He; [done|].
  by apply clean_client_datetime_safe, eqb_empty_false.
Qed.

Lemma str_or_nonempty s : s <> "" -> App.str_or (Some s) None = Some s.
Proof. intros H. unfold App.str_or. apply String.eqb_neq in H. by rewrite H. Qed.


End SanitizeAgain.

(* ===================================================================== *)
(** * Further properties of compute_progress                              *)
(* ===================================================================== *)
Section ProgressRange.
Import Progress.

Variable fromisoformat : string -> option Z.

Lemma round_half_even_inject (z : Z) : round_half_even (inject_Z z) = z.
Proof.
  unfold round_half_even. rewrite Qfloor_Z.
  destruct (Qcompare_spec (inject_Z z - inject_Z z) (1 # 2)) as [A|A|A]; try done;
    exfalso; lra.
Qed.

Lemma round_half_even_between (q : Q) (lo hi : Z) :
  (inject_Z lo <= q)%Q -> (q <= inject_Z hi)%Q ->
  (lo <= round_half_even q <= hi)%Z.
Proof.
  intros Hlo Hhi.
  pose proof (round_half_even_mono _ _ Hlo) as H1.
  pose proof (round_half_even_mono _ _ Hhi) as H2.
  rewrite round_half_even_inject in H1, H2. lia.
Qed.

Lemma running_remaining_nonneg now started planned :
  (0 <= running_remaining now started planned)%Z.
Proof. unfold running_remaining. lia. Qed.

Lemma slot_contribution_range job_started_at planned now s :
  match slot_contribution fromisoformat job_started_at planned now s with
  | Return (pct, r) =>
      (0 <= pct <= 100)%Z
      /\ (Py.lower (status s) = "running" -> (pct <= 99)%Z)
      /\ (forall x, r = Some x -> (0 <= x)%Z)
  | Raise e =>
      e = OverflowError
      /\ exists p, planned = Some p /\ PrimFloat.ltb 0 p = true
                   /\ Q_of_float p = None
  end.
Proof.
  unfold slot_contribution.
  destruct (String.eqb (Py.lower (status s)) "done"
            || String.eqb (Py.lower (status s)) "failed") eqn:Hdf.
  { split; [lia|]. split.
    - intros Hr. rewrite Hr in Hdf. done.
    - by intros x [= <-]. }
  destruct (String.eqb (Py.lower (status s)) "queued").
  { split; [lia|]. split; [lia|]. done. }
  destruct (String.eqb (Py.lower (status s)) "running").
  2:{ split; [lia|]. split; [lia|]. done. }
  destruct (match parse_iso fromisoformat (started_at s) with
            | Some t => Some t
            | None => parse_iso fromisoformat job_started_at
            end) as [started|]; [|split; [lia|]; split; [lia|done]].
  destruct planned as [p|]; [|split; [lia|]; split; [lia|done]].
  destruct (Py.truthy p && PrimFloat.ltb 0 p) eqn:G;
    [|split; [lia|]; split; [lia|done]].
  apply andb_true_iff in G as [_ G].
  destruct (Q_of_float p) as [q|] eqn:Hq.
  - pose proof (running_pct_range started q now).
    pose proof (running_remaining_nonneg now started q).
    split; [lia|]. split; [lia|]. by intros x [= <-].
  - split; [done|]. by exists p.
Qed.

Lemma contributions_range job_started_at planned now slots :
  match contributions fromisoformat job_started_at planned now slots with
  | Return cs =>
      length cs = length slots
      /\ Forall (fun c => (0 <= c.1 <= 100)%Z
                          /\ forall x, c.2 = Some x -> (0 <= x)%Z) cs
  | Raise e =>
      e = OverflowError
      /\ exists p, planned = Some p /\ PrimFloat.ltb 0 p = true
                   /\ Q_of_float p = None
  end.
Proof.
  induction slots as [|s slots IH]; [done|]. cbn [contributions].
  pose proof (slot_contribution_range job_started_at planned now s) as Hs.
  destruct (slot_contribution _ _ _ _ s) as [[pct r]|e]; [|done].
  cbn [mbind outcome_bind].
  destruct (contributions _ _ _ _ slots) as [cs|e]; [|done].
  cbn [mbind outcome_bind mret outcome_ret].
  destruct IH as [Hl Hf]. split; [cbn; by rewrite Hl|].
  constructor; [|done]. destruct Hs as (? & _ & ?). done.
Qed.

Lemma sumZ_range (l : list Z) :
  Forall (fun x => (0 <= x <= 100)%Z) l ->
  (0 <= sumZ l <= 100 * Z.of_nat (length l))%Z.
Proof.
  induction 1 as [|x l Hx _ IH]; [done|].
  unfold sumZ in *. cbn [foldr length]. lia.
Qed.

Lemma foldl_max_ge (l : list Z) (a : Z) : (a <= foldl Z.max a l)%Z.
Proof.
  revert a. induction l as [|x l IH]; intros a; [done|].
  cbn [foldl]. specialize (IH (Z.max a x)). lia.
Qed.

Lemma maxZ_nonneg (l : list Z) (m : Z) :
  Forall (fun x => (0 <= x)%Z) l -> maxZ l = Some m -> (0 <= m)%Z.
Proof.
  destruct 1 as [|x l Hx _]; [done|]. intros [= <-].
  pose proof (foldl_max_ge l x). lia.
Qed.


End ProgressRange.

(* ===================================================================== *)
(** * Further properties of the upload workers                            *)
(* ===================================================================== *)
Section UploadFacts.
Import Nas.

(** X10. Over SSH, after a transfer that succeeded, the file counts decide
    only when the remote count was obtained: a count from 0 up to but not
    including the local one is recorded in [upload_failed] with the two
    counts and [UPLOAD_DONE] is left alone; when the count command fails
    or its output is not a number the variable holds -1 and [UPLOAD_DONE]
    is written, whatever the local count. *)
Theorem ssh_verification_outcome (run_id : string) (E : NasSsh.env) (st : state) :
  NasSsh.configured E = true -> NasSsh.resolves E = true ->
  NasSsh.mkdir_ok E = true -> NasSsh.rsync_rc E = 0%Z ->
  let st' := NasSsh._upload_worker run_id E st in
  ((0 <= NasSsh.remote_count E < NasSsh.local_count E)%Z ->
   markers st'
   = <["upload_failed" := verify_mismatch (NasSsh.local_count E) (NasSsh.remote_count E)]>
       (markers st)
   /\ markers st' !! "UPLOAD_DONE" = markers st !! "UPLOAD_DONE")
  /\ ((NasSsh.count_rc E <> 0%Z \/ NasSsh.count_stdout E = None) ->
      NasSsh.remote_count E = (-1)%Z
      /\ markers st' = <["UPLOAD_DONE" := NasSsh.now E]> (markers st)).
Proof.
  intros Hc Hr Hm Hrc st'. split.
  - intros Hlt. by apply ssh_mismatch_marks_failed.
  - intros Hcount.
    assert (Hrem : NasSsh.remote_count E = (-1)%Z).
    { unfold NasSsh.remote_count. destruct Hcount as [Hn| ->].
      - apply Z.eqb_neq in Hn. by rewrite Hn.
      - by destruct (NasSsh.count_rc E =? 0)%Z. }
    split; [done|]. subst st'. unfold NasSsh._upload_worker.
    rewrite Hc, Hr, Hm, Hrc, Hrem. reflexivity.
Qed.

(** X11. Over SMB the only marker the worker ever writes is [UPLOAD_DONE],
    and it writes it exactly when the configuration loads, the run
    directory resolves, the mount and the transfer succeed and the remote
    count is not below the local one. Every failure after the run
    directory resolved (mount, transfer or counts) ends the worker with
    [AttributeError] and leaves the markers as they were. *)
Theorem smb_worker_outcome (run_id : string) (E : NasSmb.env) (st : state) :
  let ok := NasSmb.configured E && NasSmb.resolves E && NasSmb.mount_ok E
            && (NasSmb.rsync_rc E =? 0)%Z
            && negb (NasSmb.remote_count E <? NasSmb.local_count E)%Z in
  let r := NasSmb._upload_worker run_id E st in
  markers r.1 = (if ok then <["UPLOAD_DONE" := NasSmb.now E]> (markers st)
                 else markers st)
  /\ r.2 = (if NasSmb.configured E && NasSmb.resolves E && negb ok
            then Raise AttributeError else Return ()).
Proof.
  unfold NasSmb._upload_worker, NasSmb.transfer_and_verify, NasSmb._mark_failed.
  destruct (NasSmb.configured E), (NasSmb.resolves E), (NasSmb.mount_ok E),
    (NasSmb.rsync_rc E =? 0)%Z, (NasSmb.remote_count E <? NasSmb.local_count E)%Z;
    done.
Qed.


End UploadFacts.

(* ===================================================================== *)
(** * Further properties of the retention pass                            *)
(* ===================================================================== *)
Section RetentionExact.
Import Retention.

Lemma sweep_exact (cutoff : Z) (listing : list path) (fs0 fs : tree)
    (deleted : list path) :
  fs = filter (fun kv => Forall (fun p => ¬ p `prefix_of` kv.1) deleted) fs0 ->
  (sweep cutoff listing fs deleted).1
  = filter (fun kv => Forall (fun p => ¬ p `prefix_of` kv.1)
                        (sweep cutoff listing fs deleted).2) fs0.
Proof.
  revert fs deleted. induction listing as [|p rest IH]; intros fs deleted Hfs; [done|].
  cbn [sweep]. destruct (fs !! p) as [[t|d]|]; try by apply IH.
  destruct (fs !! marker_of p) as [m|]; [|by apply IH].
  destruct (timestamp_of d m <=? cutoff)%Z; [|by apply IH].
  apply IH. unfold rmtree. rewrite Hfs, map_filter_filter.
  apply map_filter_ext. intros q n _. cbn [fst]. rewrite Forall_cons. tauto.
Qed.

(** X13. The recursive delete is complete: after a retention pass the tree
    holds exactly the entries of the tree before that lie in none of the
    deleted directories, so each deleted directory is gone with its
    marker and everything below it, and a second look at it finds
    nothing to delete. *)
Theorem retention_removes_whole_directories (retention_days now : Z)
    (listing : list path) (fs : tree) :
  let r := _apply_retention retention_days now listing fs in
  r.1 = filter (fun kv => Forall (fun p => ¬ p `prefix_of` kv.1) r.2) fs
  /\ (forall p q, p ∈ r.2 -> p `prefix_of` q -> r.1 !! q = None)
  /\ (forall p, p ∈ r.2 -> is_dir r.1 p = false /\ marker_exists r.1 p = false).
Proof.
  intros r.
  assert (Hex : r.1 = filter (fun kv => Forall (fun p => ¬ p `prefix_of` kv.1) r.2) fs).
  { apply sweep_exact. symmetry. apply map_filter_id. intros q n _. constructor. }
  assert (Hgone : forall p q, p ∈ r.2 -> p `prefix_of` q -> r.1 !! q = None).
  { intros p q Hin Hpre. rewrite Hex. apply map_lookup_filter_None. right.
    intros n _ Hall. cbn [fst] in Hall. rewrite Forall_forall in Hall.
    by apply (Hall p Hin). }
  split; [exact Hex|]. split; [exact Hgone|].
  intros p Hin. split.
  - unfold is_dir. by rewrite (Hgone p p Hin).
  - unfold marker_exists, marker_of. apply bool_decide_eq_false_2.
    rewrite (Hgone p (p ++ ["UPLOAD_DONE"])%list Hin); [by intros [? ?]|].
    by apply prefix_app_r.
Qed.

End RetentionExact.

(* ===================================================================== *)
(** * Further properties of estimate_planned_duration                     *)
(* ===================================================================== *)
Section EstimateMore.
Import Estimate.

Variable float_of_str : string -> option float.
Variable log10 : float -> outcome float.
Variable pow10 : float -> outcome float.

Lemma as_float_raise v e :
  _as_float float_of_str v = Raise e ->
  e = OverflowError
  /\ exists z, v = PyInt z /\ PrimFloat.is_infinity (Py.float_of_Z z) = true.
Proof.
  unfold _as_float, py_float. destruct v as [|b|z|f|s|l|]; try done.
  - by destruct (PrimFloat.is_nan _ || PrimFloat.is_infinity _).
  - destruct (PrimFloat.is_infinity (Py.float_of_Z z)) eqn:Hz.
    + intros [= <-]. split; [done|]. by exists z.
    + by destruct (PrimFloat.is_nan _ || PrimFloat.is_infinity _).
  - by destruct (PrimFloat.is_nan _ || PrimFloat.is_infinity _).
  - destruct (float_of_str s); [|done].
    by destruct (PrimFloat.is_nan _ || PrimFloat.is_infinity _).
Qed.

Lemma as_positive_float_raise v e :
  _as_positive_float float_of_str v = Raise e ->
  e = OverflowError
  /\ exists z, v = PyInt z /\ PrimFloat.is_infinity (Py.float_of_Z z) = true.
Proof.
  unfold _as_positive_float.
  destruct (_as_float float_of_str v) as [[x|]|e'] eqn:Hv; cbn [mbind outcome_bind].
  - by destruct (PrimFloat.leb x 0).
  - done.
  - intros [= <-]. by apply as_float_raise.
Qed.

Lemma as_positive_int_raise v e :
  _as_positive_int float_of_str v = Raise e ->
  e = OverflowError
  /\ exists z, v = PyInt z /\ PrimFloat.is_infinity (Py.float_of_Z z) = true.
Proof.
  unfold _as_positive_int.
  destruct (_as_positive_float float_of_str v) as [[x|]|e'] eqn:Hv;
    cbn [mbind outcome_bind].
  - by destruct (Py.Z_of_float x <=? 0)%Z.
  - done.
  - intros [= <-]. by apply as_positive_float_raise.
Qed.

Lemma too_large_get (params : gmap string pyval) key :
  (exists z, get params key = PyInt z
             /\ PrimFloat.is_infinity (Py.float_of_Z z) = true) ->
  exists key z, params !! key = Some (PyInt z)
                /\ PrimFloat.is_infinity (Py.float_of_Z z) = true.
Proof.
  intros (z & Hz & Hinf). exists key, z. split; [|done].
  unfold get in Hz. destruct (params !! key) as [v|]; cbn in Hz; [by subst|done].
Qed.

Lemma bind_raise {A B} (m : outcome A) (k : A -> outcome B) e :
  m ≫= k = Raise e -> m = Raise e \/ exists a, m = Return a /\ k a = Raise e.
Proof.
  destruct m as [a|e']; cbn [mbind outcome_bind]; intros H.
  - right. exists a. split; [done|exact H].
  - left. by injection H as ->.
Qed.

Ltac raise_cases H :=
  repeat (apply bind_raise in H as [H|(? & _ & H)];
          [first [apply as_float_raise in H
                 |apply as_positive_float_raise in H
                 |apply as_positive_int_raise in H];
           destruct H as [-> H]; split; [done|]; by eapply too_large_get|]);
  repeat case_match; discriminate.


Lemma upper_empty m : String.eqb (Py.upper m) "" = String.eqb m "".
Proof. by destruct m. Qed.


End EstimateMore.

(* ===================================================================== *)
(** * Further properties of app.py: what the registries keep in step      *)
(* ===================================================================== *)
Section RegistryFacts.
Import App.

Variable float_of_str : string -> option float.
Variable log10 : float -> outcome float.
Variable pow10 : float -> outcome float.
Variable fromisoformat : string -> option Z.

#[local] Abbreviation start_job := (App.start_job float_of_str log10 pow10 fromisoformat).
#[local] Abbreviation setup_job := (App.setup_job float_of_str log10 pow10).
#[local] Abbreviation job_snapshot := (App.job_snapshot float_of_str log10 pow10 fromisoformat).
#[local] Abbreviation job_status := (App.job_status float_of_str log10 pow10 fromisoformat).
#[local] Abbreviation snapshots := (App.snapshots float_of_str log10 pow10 fromisoformat).
#[local] Abbreviation jobs_bulk_status := (App.jobs_bulk_status float_of_str log10 pow10 fromisoformat).
#[local] Abbreviation step := (App.step float_of_str log10 pow10 fromisoformat).
#[local] Abbreviation reachable := (App.reachable float_of_str log10 pow10 fromisoformat).

Lemma touches_consistent st st' key job' :
  registries_consistent st -> touches st st' key job' -> registries_consistent st'.
Proof.
  intros (K & O & M & F) (HJ & Hrid & Hnames & HS & HM & HF).
  split; [|split; [|split]].
  - intros rid job. rewrite HJ. destruct (decide (key = rid)) as [->|Hne].
    + rewrite lookup_insert_eq. by intros [= <-].
    + rewrite lookup_insert_ne by done. apply K.
  - intros s rid Hs. destruct (HS s rid Hs) as [Hold|[-> Hin]].
    + destruct (O s rid Hold) as (job & Hjob & Hin).
      destruct (decide (key = rid)) as [->|Hne].
      * exists job'. rewrite HJ, lookup_insert_eq. split; [done|].
        by rewrite (Hnames job Hjob).
      * exists job. by rewrite HJ, lookup_insert_ne.
    + exists job'. by rewrite HJ, lookup_insert_eq.
  - intros rid Hm. destruct (HM rid Hm) as [[-> Ht]|[Hne Hold]].
    + exists job'. by rewrite HJ, lookup_insert_eq.
    + destruct (M rid Hold) as (job & ? & ?). exists job.
      by rewrite HJ, lookup_insert_ne.
  - intros rid Hf. rewrite HJ. destruct (decide (key = rid)) as [->|Hne].
    + rewrite lookup_insert_eq. eauto.
    + rewrite lookup_insert_ne by done. destruct (HF rid Hf) as [->|Hold]; [done|].
      by apply F.
Qed.

Lemma touches_trans a b c key j1 j2 :
  touches a b key j1 -> touches b c key j2 -> touches a c key j2.
Proof.
  intros (HJ1 & Hr1 & Hn1 & HS1 & HM1 & HF1) (HJ2 & Hr2 & Hn2 & HS2 & HM2 & HF2).
  assert (Hb : JOBS b !! key = Some j1) by (by rewrite HJ1, lookup_insert_eq).
  split; [|split; [|split; [|split; [|split]]]].
  - by rewrite HJ2, HJ1, insert_insert_eq.
  - done.
  - intros job Hjob. rewrite (Hn2 j1 Hb). by apply Hn1.
  - intros s rid Hs. destruct (HS2 s rid Hs) as [Hold|?]; [|by right].
    destruct (HS1 s rid Hold) as [?|[-> Hin]]; [by left|right].
    split; [done|]. by rewrite (Hn2 j1 Hb).
  - intros rid Hm. destruct (HM2 rid Hm) as [?|[Hne Hold]]; [by left|].
    destruct (HM1 rid Hold) as [[? _]|?]; [done|by right].
  - intros rid Hf. destruct (HF2 rid Hf) as [?|Hold]; [by left|]. by apply HF1.
Qed.

(** A step that leaves the job under [key] as it is and adds nothing but,
    possibly, metadata or a flag for it. *)
Lemma touches_same st st' key job :
  registries_consistent st ->
  JOBS st !! key = Some job ->
  JOBS st' = JOBS st ->
  (forall s rid, SLOT_RUNS st' !! s = Some rid -> SLOT_RUNS st !! s = Some rid) ->
  (forall rid, is_Some (JOB_META st' !! rid) ->
     is_Some (JOB_META st !! rid)
     \/ (rid = key /\ terminal (JobStatus.status job) = false)) ->
  (forall rid, is_Some (CANCEL_FLAGS st' !! rid) ->
     rid = key \/ is_Some (CANCEL_FLAGS st !! rid)) ->
  touches st st' key job.
Proof.
  intros (K & O & M & F) Hjob HJ HS HM HF.
  split; [|split; [|split; [|split; [|split]]]].
  - by rewrite HJ, insert_id.
  - by apply K.
  - intros j. rewrite Hjob. by intros [= <-].
  - intros s rid Hs. left. by apply HS.
  - intros rid Hm. destruct (decide (rid = key)) as [->|Hne].
    + left. split; [done|]. destruct (HM key Hm) as [Hold|[_ ?]]; [|done].
      destruct (M key Hold) as (j & Hj & Ht). by simplify_eq.
    + right. split; [done|]. destruct (HM rid Hm) as [?|[? _]]; done.
  - done.
Qed.

(** A step that replaces the job under [key] by one with the same run
    identifier and slots, and a status that is the same or not terminal. *)
Lemma touches_replace st st' key job j :
  registries_consistent st ->
  JOBS st !! key = Some job ->
  JOBS st' = <[key := j]> (JOBS st) ->
  JobStatus.run_id j = JobStatus.run_id job ->
  slot_names j = slot_names job ->
  (JobStatus.status j = JobStatus.status job
   \/ terminal (JobStatus.status j) = false) ->
  SLOT_RUNS st' = SLOT_RUNS st -> JOB_META st' = JOB_META st ->
  CANCEL_FLAGS st' = CANCEL_FLAGS st ->
  touches st st' key j.
Proof.
  intros (K & O & M & F) Hjob HJ Hrid Hnames Hst HS HM HF.
  split; [|split; [|split; [|split; [|split]]]].
  - done.
  - rewrite Hrid. by apply K.
  - intros j0. rewrite Hjob. by intros [= <-].
  - intros s rid. rewrite HS. by left.
  - intros rid. rewrite HM. intros Hm. destruct (decide (rid = key)) as [->|Hne].
    + left. split; [done|]. destruct Hst as [->|?]; [|done].
      destruct (M key Hm) as (j0 & Hj0 & Ht). by simplify_eq.
    + by right.
  - intros rid. rewrite HF. by right.
Qed.

Lemma update_job_status_touches key now_iso st job :
  JOBS st !! key = Some job ->
  JobStatus.run_id job = key ->
  exists job',
    touches st (_update_job_status_locked key now_iso st) key job'
    /\ JobStatus.slots job' = JobStatus.slots job
    /\ JobStatus.run_id job' = key
    /\ SLOT_RUNS (_update_job_status_locked key now_iso st) = SLOT_RUNS st.
Proof.
  intros Hjob Hrid. unfold _update_job_status_locked. rewrite Hjob.
  destruct (existsb _ _).
  - exists (JobStatus.with_status running None job). split; [|done].
    split; [done|]. split; [done|]. split; [|split; [|split]].
    + intros j. rewrite Hjob. by intros [= <-].
    + intros s rid. by left.
    + intros rid Hm. destruct (decide (rid = key)) as [->|Hne]; [by left|by right].
    + intros rid Hf. by right.
  - set (status := if existsb _ _ then failed else _).
    assert (Ht : terminal status = true).
    { unfold status. by repeat destruct (existsb _ _). }
    exists (JobStatus.with_status status (Some now_iso) job).
    assert (HM : forall st0, JOB_META st0 = delete key (JOB_META st) ->
                 forall rid, is_Some (JOB_META st0 !! rid) ->
                 (rid = key
                  /\ terminal (JobStatus.status
                                 (JobStatus.with_status status (Some now_iso) job))
                     = false)
                 \/ (rid <> key /\ is_Some (JOB_META st !! rid))).
    { intros st0 -> rid. destruct (decide (rid = key)) as [->|Hne].
      - rewrite lookup_delete_eq. by intros [? ?].
      - rewrite lookup_delete_ne by done. by right. }
    assert (HF : forall st0, CANCEL_FLAGS st0 = delete key (CANCEL_FLAGS st) ->
                 forall rid, is_Some (CANCEL_FLAGS st0 !! rid) ->
                 rid = key \/ is_Some (CANCEL_FLAGS st !! rid)).
    { intros st0 -> rid. destruct (decide (rid = key)) as [->|Hne]; [by left|].
      rewrite lookup_delete_ne by done. by right. }
    cbv zeta. cbn [JobStatus.run_id JobStatus.with_status]. rewrite Hrid.
    destruct (bool_decide (status = done)).
    + split; [|done]. split; [done|]. split; [done|]. split; [|split; [|split]].
      * intros j. rewrite Hjob. by intros [= <-].
      * intros s rid. by left.
      * by apply HM.
      * by apply HF.
    + split; [|done]. split; [done|]. split; [done|]. split; [|split; [|split]].
      * intros j. rewrite Hjob. by intros [= <-].
      * intros s rid. by left.
      * by apply HM.
      * by apply HF.
Qed.

Lemma job_snapshot_meta job now st :
  JOB_META (job_snapshot job now st).1 = JOB_META st
  \/ (JobStatus.status job = running
      /\ exists m, JOB_META (job_snapshot job now st).1
                   = <[JobStatus.run_id job := m]> (JOB_META st)).
Proof.
  unfold App.job_snapshot.
  destruct (JOB_META st !! JobStatus.run_id job) as [m|] eqn:Hm.
  - destruct (planned_duration_s m); [by left|].
    destruct (App.estimate_planned_duration _ _ _ _ _); [|by left].
    case_bool_decide; [|by left]. right. split; [done|]. by eexists.
  - case_bool_decide as Hrun.
    + right. split; [done|]. cbn [planned_duration_s].
      destruct (App.estimate_planned_duration _ _ _ _ _).
      * cbn [fst JOB_META set_JOB_META]. rewrite insert_insert_eq. by eexists.
      * by eexists.
    + left. cbn [planned_duration_s].
      by destruct (App.estimate_planned_duration _ _ _ _ _).
Qed.

Lemma job_snapshot_touches rid job now st :
  registries_consistent st ->
  JOBS st !! rid = Some job ->
  touches st (job_snapshot job now st).1 rid job.
Proof.
  intros Hc Hjob. pose proof (job_snapshot_frame float_of_str log10 pow10 fromisoformat job now st) as HS.
  pose proof (job_snapshot_meta job now st) as HM.
  assert (Hrid : JobStatus.run_id job = rid) by (by apply Hc).
  destruct (job_snapshot job now st) as [st1 snap]. cbn [fst] in *.
  destruct HS as (_ & HJ & HSR & _ & _ & HF & _).
  apply touches_same; try done.
  - intros s r. by rewrite HSR.
  - intros r Hr. destruct HM as [HM|[Hrun [m Hm]]]; [left; by rewrite <- HM|].
    rewrite Hm, Hrid in Hr. destruct (decide (r = rid)) as [->|Hne].
    + right. split; [done|]. by rewrite Hrun.
    + left. by rewrite lookup_insert_ne in Hr.
  - intros r. rewrite HF. by right.
Qed.


Lemma consistent_shrink st st' :
  JOBS st' = JOBS st ->
  (forall s rid, SLOT_RUNS st' !! s = Some rid -> SLOT_RUNS st !! s = Some rid) ->
  (forall rid, is_Some (JOB_META st' !! rid) -> is_Some (JOB_META st !! rid)) ->
  (forall rid, is_Some (CANCEL_FLAGS st' !! rid) -> is_Some (CANCEL_FLAGS st !! rid)) ->
  registries_consistent st -> registries_consistent st'.
Proof.
  intros HJ HS HM HF (K & O & M & F). split; [|split; [|split]].
  - intros rid job. rewrite HJ. apply K.
  - intros s rid Hs. rewrite HJ. apply O. by apply HS.
  - intros rid Hm. rewrite HJ. apply M. by apply HM.
  - intros rid Hf. rewrite HJ. apply F. by apply HF.
Qed.

Lemma release_subset (slots : list string) rid (m : gmap string string) s r :
  release slots rid m !! s = Some r -> m !! s = Some r.
Proof.
  rewrite (lookup_release float_of_str fromisoformat).
  case_bool_decide; [intros [=]|intros Hs; exact Hs].
Qed.

Lemma slot_names_new (slots : list string) :
  SlotStatus.slot <$> (new_slot_status <$> slots) = slots.
Proof. induction slots as [|s l IH]; [done|]. cbn. by rewrite IH. Qed.

Lemma slot_names_cancel now_iso (l : list SlotStatus.t) :
  SlotStatus.slot <$> (cancel_slot now_iso <$> l) = SlotStatus.slot <$> l.
Proof.
  induction l as [|s l IH]; [done|]. cbn. rewrite IH. f_equal.
  unfold cancel_slot. by case_bool_decide.
Qed.

Lemma slot_names_alter (f : SlotStatus.t -> SlotStatus.t) i (l : list SlotStatus.t) :
  (forall s, SlotStatus.slot (f s) = SlotStatus.slot s) ->
  SlotStatus.slot <$> alter f i l = SlotStatus.slot <$> l.
Proof.
  intros Hf. revert i. induction l as [|s l IH]; intros [|i]; cbn; try done.
  - by rewrite Hf.
  - by rewrite IH.
Qed.

Lemma delete_eq_lookup {V} (m1 m2 : gmap string V) k k' :
  delete k m1 = delete k m2 -> k' <> k -> m1 !! k' = m2 !! k'.
Proof.
  intros H Hne. rewrite <- (lookup_delete_ne m1 k k'), <- (lookup_delete_ne m2 k k') by done.
  by rewrite H.
Qed.

Lemma start_job_registries req E st :
  registries_consistent st ->
  registries_consistent (start_job req E st).1
  /\ (JOBS (start_job req E st).1 = JOBS st
      \/ exists key job', JOBS st !! key = None
                          /\ touches st (start_job req E st).1 key job').
Proof.
  intros Hc. unfold App.start_job.
  destruct (admission req E st) as [st1 [[run_id slots]|sc c m|e]] eqn:Hadm.
  - destruct (admission_ok_inv _ _ _ _ _ _ Hadm) as (_ & _ & Hne & _ & Hj & Hfree & ->).
    unfold App.launch.
    pose proof (rollback_restores float_of_str log10 pow10 fromisoformat req E run_id slots st Hj Hfree)
      as Hroll.
    pose proof (setup_job_frame float_of_str log10 pow10 req E run_id slots
                  (set_SLOT_RUNS (reserve slots run_id (SLOT_RUNS st)) st)) as Hframe.
    cbv zeta in Hroll, Hframe.
    destruct (setup_job req E run_id slots _) as [st2 r] eqn:Hsetup.
    cbn [fst snd] in Hroll, Hframe. destruct r as [[]|sc c m|e].
    + destruct (setup_job_ok float_of_str log10 pow10 _ _ _ _ _ _ Hsetup) as [_ HJ].
      cbn [JOBS set_SLOT_RUNS] in HJ.
      destruct Hframe as (_ & HSR & _ & _ & HM & _ & _ & HF & _).
      cbn [SLOT_RUNS JOB_META CANCEL_FLAGS set_SLOT_RUNS] in HSR, HM, HF.
      set (job := JobStatus.mk _ _ _ _ _ _ _ _ _ _ _) in HJ.
      assert (Ht2 : touches st st2 run_id job).
      { split; [done|]. split; [done|]. split; [|split; [|split]].
        - intros j. by rewrite Hj.
        - intros s rid. rewrite HSR, (lookup_reserve float_of_str fromisoformat).
          case_bool_decide as Hin.
          + intros [= <-]. right. split; [done|].
            unfold slot_names, job. cbn [JobStatus.slots]. by rewrite slot_names_new.
          + by left.
        - intros rid Hm. destruct (decide (rid = run_id)) as [->|Hn]; [by left|].
          right. split; [done|]. by rewrite <- (delete_eq_lookup _ _ _ _ HM Hn).
        - intros rid Hf. destruct (decide (rid = run_id)) as [->|Hn]; [by left|].
          right. by rewrite <- (delete_eq_lookup _ _ _ _ HF Hn). }
      pose proof (touches_consistent _ _ _ _ Hc Ht2) as Hc2.
      assert (Hj2 : JOBS st2 !! run_id = Some job) by (by rewrite HJ, lookup_insert_eq).
      rewrite Hj2.
      pose proof (job_snapshot_touches run_id job (now E) st2 Hc2 Hj2) as Ht4.
      destruct (job_snapshot job (now E) st2) as [st4 snap]. cbn [fst] in *.
      split; [by eapply touches_consistent|].
      right. exists run_id, job. split; [done|]. by eapply touches_trans.
    + destruct Hroll as (_ & _ & HSR & HJ & _ & HF & HM & _); [done|].
      cbn [fst]. split; [|by left]. apply (consistent_shrink st); try done.
      * intros s rid. by rewrite HSR.
      * intros rid. rewrite HM. intros [x Hx]. apply lookup_delete_Some in Hx as [_ Hx]. eauto.
      * intros rid. rewrite HF. intros [x Hx]. apply lookup_delete_Some in Hx as [_ Hx]. eauto.
    + destruct Hroll as (_ & _ & HSR & HJ & _ & HF & HM & _); [done|].
      cbn [fst]. split; [|by left]. apply (consistent_shrink st); try done.
      * intros s rid. by rewrite HSR.
      * intros rid. rewrite HM. intros [x Hx]. apply lookup_delete_Some in Hx as [_ Hx]. eauto.
      * intros rid. rewrite HF. intros [x Hx]. apply lookup_delete_Some in Hx as [_ Hx]. eauto.
  - rewrite (admission_rejected _ _ _ _ _ _ _ Hadm). cbn [fst]. split; [done|by left].
  - by apply admission_handled in Hadm.
Qed.


Lemma touches_flag st key job b :
  registries_consistent st -> JOBS st !! key = Some job ->
  touches st (set_CANCEL_FLAGS (<[key := b]> (CANCEL_FLAGS st)) st) key job.
Proof.
  intros Hc Hjob. apply touches_same; try done.
  - intros rid Hm. by left.
  - intros rid. cbn [CANCEL_FLAGS set_CANCEL_FLAGS].
    destruct (decide (rid = key)) as [->|Hne]; [by left|].
    rewrite lookup_insert_ne by done. by right.
Qed.

Lemma touches_job st key job j :
  registries_consistent st -> JOBS st !! key = Some job ->
  JobStatus.run_id j = JobStatus.run_id job ->
  slot_names j = slot_names job ->
  (JobStatus.status j = JobStatus.status job
   \/ terminal (JobStatus.status j) = false) ->
  touches st (set_JOBS (<[key := j]> (JOBS st)) st) key j.
Proof. intros. by eapply touches_replace. Qed.

Lemma touches_release st key job l rid :
  registries_consistent st -> JOBS st !! key = Some job ->
  touches st (set_SLOT_RUNS (release l rid (SLOT_RUNS st)) st) key job.
Proof.
  intros Hc Hjob. apply touches_same; try done.
  - intros s r. apply release_subset.
  - intros r Hm. by left.
  - intros r Hf. by right.
Qed.

Lemma touches_threads st key job t :
  registries_consistent st -> JOBS st !! key = Some job ->
  touches st (set_threads t st) key job.
Proof.
  intros Hc Hjob. apply touches_same; try done.
  - intros r Hm. by left.
  - intros r Hf. by right.
Qed.

Lemma touches_lookup st st' key job' :
  touches st st' key job' -> JOBS st' !! key = Some job'.
Proof. intros (HJ & _). by rewrite HJ, lookup_insert_eq. Qed.

Lemma cancel_job_registries run_id E st :
  registries_consistent st ->
  registries_consistent (cancel_job run_id E st).1
  /\ (JOBS (cancel_job run_id E st).1 = JOBS st
      \/ exists key job', touches st (cancel_job run_id E st).1 key job').
Proof.
  intros Hc. unfold cancel_job.
  destruct (JOBS st !! run_id) as [job|] eqn:Hjob; [|by split; [|left]].
  set (sa := match CANCEL_FLAGS st !! run_id with
             | Some _ => st
             | None => set_CANCEL_FLAGS (<[run_id:=false]> (CANCEL_FLAGS st)) st
             end).
  assert (Ta : touches st sa run_id job).
  { unfold sa. destruct (CANCEL_FLAGS st !! run_id) eqn:Hf.
    - apply touches_same; try done.
      + intros r Hm. by left.
      + intros r Hr. by right.
    - by apply touches_flag. }
  pose proof (touches_consistent _ _ _ _ Hc Ta) as Ca.
  pose proof (touches_lookup _ _ _ _ Ta) as Ja.
  destruct (terminal (JobStatus.status job)); cbn [fst].
  { split; [done|]. right. by exists run_id, job. }
  set (s1 := set_CANCEL_FLAGS (<[run_id := true]> (CANCEL_FLAGS sa)) sa).
  pose proof (touches_flag sa run_id job true Ca Ja) as T1. fold s1 in T1.
  pose proof (touches_consistent _ _ _ _ Ca T1) as C1.
  pose proof (touches_lookup _ _ _ _ T1) as J1.
  set (jc := JobStatus.with_slots (cancel_slot (now_iso E) <$> JobStatus.slots job) job).
  set (s2 := set_JOBS (<[run_id := jc]> (JOBS s1)) s1).
  assert (T2 : touches s1 s2 run_id jc).
  { apply (touches_job s1 run_id job jc); try done.
    - unfold slot_names, jc. cbn [JobStatus.slots JobStatus.with_slots].
      apply slot_names_cancel.
    - by left. }
  pose proof (touches_consistent _ _ _ _ C1 T2) as C2.
  pose proof (touches_lookup _ _ _ _ T2) as J2.
  destruct (update_job_status_touches run_id (now_iso E) s2 jc J2)
    as (job' & T3 & _ & _ & _).
  { by apply C2. }
  set (s3 := _update_job_status_locked run_id (now_iso E) s2) in *.
  pose proof (touches_consistent _ _ _ _ C2 T3) as C3.
  pose proof (touches_lookup _ _ _ _ T3) as J3.
  set (l := SlotStatus.slot <$> filter _ (JobStatus.slots job)).
  pose proof (touches_release s3 run_id job' l run_id C3 J3) as T4.
  split; [by eapply touches_consistent|].
  right. exists run_id, job'.
  eapply touches_trans; [|exact T4]. eapply touches_trans; [|exact T3].
  eapply touches_trans; [|exact T2]. eapply touches_trans; [exact Ta|exact T1].
Qed.

Lemma job_status_registries run_id E st :
  registries_consistent st ->
  registries_consistent (job_status run_id E st).1
  /\ JOBS (job_status run_id E st).1 = JOBS st.
Proof.
  intros Hc. unfold App.job_status.
  destruct (JOBS st !! run_id) as [job|] eqn:Hjob; [|done].
  pose proof (job_snapshot_touches run_id job (now E) st Hc Hjob) as T.
  pose proof (job_snapshot_frame float_of_str log10 pow10 fromisoformat job (now E) st)
    as HS.
  destruct (job_snapshot job (now E) st) as [st1 snap]. cbn [fst] in *.
  split; [by eapply touches_consistent|]. by destruct HS as (_ & ? & _).
Qed.

Lemma snapshots_registries ids now st :
  registries_consistent st ->
  registries_consistent (snapshots ids now st).1
  /\ JOBS (snapshots ids now st).1 = JOBS st.
Proof.
  revert st. induction ids as [|rid rest IH]; intros st Hc; [done|].
  cbn [App.snapshots].
  destruct (JOBS st !! rid) as [job|] eqn:Hjob; [|done].
  pose proof (job_snapshot_touches rid job now st Hc Hjob) as T.
  pose proof (job_snapshot_frame float_of_str log10 pow10 fromisoformat job now st)
    as HS.
  destruct (job_snapshot job now st) as [st1 [snap|e]]; cbn [fst] in *.
  - pose proof (touches_consistent _ _ _ _ Hc T) as C1.
    destruct HS as (_ & HJ1 & _).
    destruct (IH st1 C1) as [C2 HJ2].
    destruct (snapshots rest now st1) as [st2 [snaps| |]]; cbn [fst] in *;
      (split; [done|congruence]).
  - split; [by eapply touches_consistent|]. by destruct HS as (_ & ? & _).
Qed.

Lemma jobs_bulk_status_registries ids E st :
  registries_consistent st ->
  registries_consistent (jobs_bulk_status ids E st).1
  /\ JOBS (jobs_bulk_status ids E st).1 = JOBS st.
Proof.
  intros Hc. unfold App.jobs_bulk_status.
  destruct (filter _ ids) as [|r0 rs]; [done|].
  destruct (filter _ (r0 :: rs)); [|done].
  by apply snapshots_registries.
Qed.


Lemma slot_begin now_iso s :
  SlotStatus.slot (begin_slot now_iso s) = SlotStatus.slot s.
Proof. done. Qed.

Lemma slot_finish error files now_iso s :
  SlotStatus.slot (finish_slot error files now_iso s) = SlotStatus.slot s.
Proof.
  unfold finish_slot. destruct error as [e|]; [|done].
  destruct (String.eqb e "cancelled"); [done|]. by destruct (String.eqb e "").
Qed.

Lemma worker_begin_registries tid E st :
  invariant st -> registries_consistent st ->
  registries_consistent (worker_begin tid E st)
  /\ (JOBS (worker_begin tid E st) = JOBS st
      \/ exists key job', touches st (worker_begin tid E st) key job').
Proof.
  intros Hinv Hc. unfold worker_begin.
  destruct (threads st !! tid) as [w|] eqn:Hw; [|by split; [|left]].
  destruct (w_pc w); [|by split; [|left]|by split; [|left]].
  assert (Hwin : w ∈ threads st) by (apply list_elem_of_lookup; eauto).
  destruct (proj2 Hinv w Hwin) as (job & Hjob & _).
  case_bool_decide.
  - set (sa := set_threads _ st).
    pose proof (touches_threads st (w_run w) job
                  (<[tid := with_pc InSequence w]> (threads st)) Hc Hjob) as Ta.
    fold sa in Ta.
    pose proof (touches_consistent _ _ _ _ Hc Ta) as Ca.
    pose proof (touches_lookup _ _ _ _ Ta) as Ja.
    set (sb := match CANCEL_FLAGS sa !! w_run w with
               | Some _ => sa
               | None => set_CANCEL_FLAGS (<[w_run w:=false]> (CANCEL_FLAGS sa)) sa
               end).
    assert (Tb : touches sa sb (w_run w) job).
    { unfold sb. destruct (CANCEL_FLAGS sa !! w_run w) eqn:Hf.
      - apply touches_same; try done.
        + intros r Hm. by left.
        + intros r Hr. by right.
      - by apply touches_flag. }
    pose proof (touches_consistent _ _ _ _ Ca Tb) as Cb.
    pose proof (touches_lookup _ _ _ _ Tb) as Jb.
    cbv zeta. fold sa. fold sb. rewrite Jb.
    set (job' := JobStatus.with_status running None _).
    assert (Tc : touches sb (set_JOBS (<[w_run w := job']> (JOBS sb)) sb) (w_run w) job').
    { apply (touches_job sb (w_run w) job job'); try done.
      - unfold slot_names, job'.
        cbn [JobStatus.slots JobStatus.with_slots JobStatus.with_status].
        apply slot_names_alter, slot_begin.
      - by right. }
    split.
    + eapply touches_consistent; [exact Cb|exact Tc].
    + right. exists (w_run w), job'.
      eapply touches_trans; [|exact Tc]. eapply touches_trans; [exact Ta|exact Tb].
  - split; [|by left]. by apply (consistent_shrink st).
Qed.

Lemma worker_publish_registries tid idx st :
  registries_consistent st ->
  registries_consistent (worker_publish tid idx st)
  /\ (JOBS (worker_publish tid idx st) = JOBS st
      \/ exists key job', touches st (worker_publish tid idx st) key job').
Proof.
  intros Hc. unfold worker_publish.
  destruct (threads st !! tid) as [w|]; [|by split; [|left]].
  destruct (w_pc w); [by split; [|left]| |by split; [|left]].
  destruct (w_modes w !! idx) as [mode|]; [|by split; [|left]].
  destruct (JOBS st !! w_run w) as [job|] eqn:Hjob; [|by split; [|left]].
  set (job' := JobStatus.with_modes _ _ _ _ job).
  assert (T : touches st (set_JOBS (<[w_run w := job']> (JOBS st)) st) (w_run w) job').
  { apply (touches_job st (w_run w) job job'); try done. by left. }
  split; [by eapply touches_consistent|]. right. by exists (w_run w), job'.
Qed.

Lemma worker_finish_registries tid error files E st :
  registries_consistent st ->
  registries_consistent (worker_finish tid error files E st)
  /\ (JOBS (worker_finish tid error files E st) = JOBS st
      \/ exists key job', touches st (worker_finish tid error files E st) key job').
Proof.
  intros Hc. unfold worker_finish.
  destruct (threads st !! tid) as [w|] eqn:Hw; [|by split; [|left]].
  destruct (w_pc w); [by split; [|left]| |by split; [|left]].
  cbv zeta.
  set (sa := set_threads (<[tid := with_pc Exited w]> (threads st)) st).
  change (JOBS sa) with (JOBS st).
  destruct (JOBS st !! w_run w) as [job|] eqn:Hjob.
  - pose proof (touches_threads st (w_run w) job
                  (<[tid := with_pc Exited w]> (threads st)) Hc Hjob) as Ta.
    fold sa in Ta.
    pose proof (touches_consistent _ _ _ _ Hc Ta) as Ca.
    pose proof (touches_lookup _ _ _ _ Ta) as Ja.
    set (jf := JobStatus.with_slots _ job).
    set (sb := set_JOBS (<[w_run w := jf]> (JOBS st)) sa).
    assert (Tb : touches sa sb (w_run w) jf).
    { apply (touches_job sa (w_run w) job jf); try done.
      - unfold slot_names, jf. cbn [JobStatus.slots JobStatus.with_slots].
        apply slot_names_alter. intros s. apply slot_finish.
      - by left. }
    pose proof (touches_consistent _ _ _ _ Ca Tb) as Cb.
    pose proof (touches_lookup _ _ _ _ Tb) as Jb.
    destruct (update_job_status_touches (w_run w) (now_iso E) sb jf Jb)
      as (job' & Tc & _ & _ & _).
    { by apply Cb. }
    set (sc := _update_job_status_locked (w_run w) (now_iso E) sb) in *.
    pose proof (touches_consistent _ _ _ _ Cb Tc) as Cc.
    pose proof (touches_lookup _ _ _ _ Tc) as Jc.
    rewrite Jc.
    destruct (terminal (JobStatus.status job')).
    + set (job'' := JobStatus.with_current None [] job').
      set (sd := set_JOBS (<[w_run w := job'']> (JOBS sc)) sc).
      assert (Td : touches sc sd (w_run w) job'').
      { apply (touches_job sc (w_run w) job' job''); try done. by left. }
      pose proof (touches_consistent _ _ _ _ Cc Td) as Cd.
      pose proof (touches_lookup _ _ _ _ Td) as Jd.
      pose proof (touches_release sd (w_run w) job'' [w_slot w] (w_run w) Cd Jd) as Te.
      split; [by eapply touches_consistent|].
      right. exists (w_run w), job''.
      eapply touches_trans; [|exact Te]. eapply touches_trans; [|exact Td].
      eapply touches_trans; [|exact Tc]. eapply touches_trans; [exact Ta|exact Tb].
    + pose proof (touches_release sc (w_run w) job' [w_slot w] (w_run w) Cc Jc) as Te.
      split; [by eapply touches_consistent|].
      right. exists (w_run w), job'.
      eapply touches_trans; [|exact Te].
      eapply touches_trans; [|exact Tc]. eapply touches_trans; [exact Ta|exact Tb].
  - split; [|by left]. apply (consistent_shrink st); try done.
    intros s r. apply release_subset.
Qed.

Lemma step_registries st st' :
  step st st' -> invariant st -> registries_consistent st ->
  registries_consistent st'
  /\ (JOBS st' = JOBS st \/ exists key job', touches st st' key job').
Proof.
  intros Hstep Hinv Hc. destruct Hstep.
  - destruct (start_job_registries req E st Hc) as [? [?|(key & job' & _ & ?)]];
      (split; [done|]); [by left|right; by exists key, job'].
  - by apply cancel_job_registries.
  - destruct (job_status_registries run_id E st Hc). split; [done|by left].
  - destruct (jobs_bulk_status_registries ids E st Hc). split; [done|by left].
  - by apply worker_begin_registries.
  - by apply worker_publish_registries.
  - by apply worker_finish_registries.
  - split; [|by left]. by apply (consistent_shrink st).
  - split; [|by left]. by apply (consistent_shrink st).
Qed.

Lemma reachable_registries st : reachable st -> registries_consistent st.
Proof.
  induction 1 as [found index is_dir|st st' Hr IH Hstep].
  - split; [|split; [|split]]; cbn; intros *; rewrite ?lookup_empty; try done;
      by intros [? ?].
  - pose proof (reachable_invariant _ _ _ _ st Hr) as Hinv.
    by destruct (step_registries st st' Hstep Hinv IH).
Qed.




End RegistryFacts.

(* ===================================================================== *)
(** * Further properties of app.py: cancelling, finishing, querying       *)
(* ===================================================================== *)
Section HandlerFacts.
Import App.

Variable float_of_str : string -> option float.
Variable log10 : float -> outcome float.
Variable pow10 : float -> outcome float.
Variable fromisoformat : string -> option Z.

#[local] Abbreviation job_snapshot := (App.job_snapshot float_of_str log10 pow10 fromisoformat).
#[local] Abbreviation job_status := (App.job_status float_of_str log10 pow10 fromisoformat).

(** [lookup_release] does not depend on the parsers. *)
Lemma lookup_release_at (slots : list string) rid (m : gmap string string) s :
  release slots rid m !! s
  = if bool_decide (s ∈ slots /\ m !! s = Some rid) then None else m !! s.
Proof. exact (lookup_release (fun _ => None) (fun _ => None) slots rid m s). Qed.

Lemma cancel_slot_not_queued now_iso s :
  SlotStatus.status (cancel_slot now_iso s) <> queued.
Proof. unfold cancel_slot. by case_bool_decide. Qed.

Lemma active_after_cancel now_iso (l : list SlotStatus.t) :
  existsb (fun s => bool_decide (s = queued) || bool_decide (s = running))
          (SlotStatus.status <$> (cancel_slot now_iso <$> l))
  = bool_decide (Exists (fun s => SlotStatus.status s = running) l).
Proof.
  induction l as [|s l IH]; [done|].
  rewrite !fmap_cons. cbn [existsb]. rewrite IH.
  assert (Hh : bool_decide (SlotStatus.status (cancel_slot now_iso s) = queued)
               || bool_decide (SlotStatus.status (cancel_slot now_iso s) = running)
               = bool_decide (SlotStatus.status s = running)).
  { unfold cancel_slot.
    destruct (decide (SlotStatus.status s = queued)) as [Hq|Hq].
    - rewrite (bool_decide_eq_true_2 _ Hq). rewrite Hq. reflexivity.
    - rewrite !(bool_decide_eq_false_2 _ Hq). reflexivity. }
  rewrite Hh, <- bool_decide_or. apply bool_decide_ext. by rewrite Exists_cons.
Qed.

Lemma cancel_job_spec (run_id : string) (E : env) (st : state)
    (job : JobStatus.t) :
  JOBS st !! run_id = Some job ->
  JobStatus.run_id job = run_id ->
  terminal (JobStatus.status job) = false ->
  let st' := (cancel_job run_id E st).1 in
  let queued_slots :=
    SlotStatus.slot
      <$> filter (fun s => SlotStatus.status s = queued) (JobStatus.slots job) in
  exists job',
    JOBS st' = <[run_id := job']> (JOBS st)
    /\ JobStatus.slots job' = cancel_slot (now_iso E) <$> JobStatus.slots job
    /\ Forall (fun s => SlotStatus.status s <> queued) (JobStatus.slots job')
    /\ (forall s, SLOT_RUNS st' !! s
                  = if bool_decide (s ∈ queued_slots /\ SLOT_RUNS st !! s = Some run_id)
                    then None else SLOT_RUNS st !! s)
    /\ (Exists (fun s => SlotStatus.status s = running) (JobStatus.slots job) ->
        JobStatus.status job' = running
        /\ CANCEL_FLAGS st' !! run_id = Some true)
    /\ (~ Exists (fun s => SlotStatus.status s = running) (JobStatus.slots job) ->
        terminal (JobStatus.status job') = true
        /\ JobStatus.ended_at job' = Some (now_iso E)
        /\ CANCEL_FLAGS st' !! run_id = None
        /\ JOB_META st' !! run_id = None)
    /\ threads st' = threads st /\ DEVICES st' = DEVICES st.
Proof.
  intros Hjob Hrid Hterm st' queued_slots. subst st'.
  unfold cancel_job. rewrite Hjob, Hterm. cbv zeta.
  set (sa := match CANCEL_FLAGS st !! run_id with
             | Some _ => st
             | None => set_CANCEL_FLAGS (<[run_id:=false]> (CANCEL_FLAGS st)) st
             end).
  assert (Ha : JOBS sa = JOBS st /\ SLOT_RUNS sa = SLOT_RUNS st
               /\ JOB_META sa = JOB_META st /\ threads sa = threads st
               /\ DEVICES sa = DEVICES st).
  { unfold sa. by destruct (CANCEL_FLAGS st !! run_id). }
  destruct Ha as (HaJ & HaS & HaM & HaT & HaD).
  set (jc := JobStatus.with_slots (cancel_slot (now_iso E) <$> JobStatus.slots job) job).
  set (sb := set_JOBS (<[run_id:=jc]> (JOBS (set_CANCEL_FLAGS _ sa))) (set_CANCEL_FLAGS _ sa)).
  assert (Hb : JOBS sb = <[run_id := jc]> (JOBS st)) by (unfold sb; cbn; by rewrite HaJ).
  assert (Hjb : JOBS sb !! run_id = Some jc) by (by rewrite Hb, lookup_insert_eq).
  assert (Hnq : Forall (fun s => SlotStatus.status s <> queued)
                  (cancel_slot (now_iso E) <$> JobStatus.slots job)).
  { apply Forall_fmap, Forall_forall. intros s _. apply cancel_slot_not_queued. }
  assert (Hrel : forall sc, SLOT_RUNS sc = SLOT_RUNS sb ->
            forall s, release queued_slots run_id (SLOT_RUNS sc) !! s
                      = if bool_decide (s ∈ queued_slots /\ SLOT_RUNS st !! s = Some run_id)
                        then None else SLOT_RUNS st !! s).
  { intros sc -> s. rewrite (lookup_release_at).
    unfold sb. cbn. by rewrite HaS. }
  set (sc := _update_job_status_locked run_id (now_iso E) sb).
  cbn [fst]. fold queued_slots.
  destruct (decide (Exists (fun s => SlotStatus.status s = running) (JobStatus.slots job)))
    as [Hrun|Hrun].
  - assert (Hsc : sc = set_JOBS (<[run_id := JobStatus.with_status running None jc]>
                                   (JOBS sb)) sb).
    { unfold sc, _update_job_status_locked. rewrite Hjb.
      change (JobStatus.slots jc) with (cancel_slot (now_iso E) <$> JobStatus.slots job).
      by rewrite active_after_cancel, bool_decide_eq_true_2. }
    exists (JobStatus.with_status running None jc). rewrite Hsc.
    cbn [JOBS SLOT_RUNS CANCEL_FLAGS set_JOBS set_SLOT_RUNS set_CANCEL_FLAGS].
    rewrite Hb, insert_insert_eq. split; [done|]. split; [done|]. split; [done|].
    split; [by apply Hrel|]. split; [|split; [done|]].
    + intros _. split; [done|]. unfold sb. cbn. by rewrite lookup_insert_eq.
    + unfold sb. cbn. by rewrite HaT, HaD.
  - set (status :=
           if existsb (fun s => bool_decide (s = failed))
                (SlotStatus.status <$> JobStatus.slots jc) then failed
           else if existsb (fun s => bool_decide (s = cancelled))
                     (SlotStatus.status <$> JobStatus.slots jc) then cancelled
                else done).
    assert (Ht : terminal status = true).
    { unfold status. by repeat destruct (existsb _ _). }
    set (job' := JobStatus.with_status status (Some (now_iso E)) jc).
    assert (Hsc : JOBS sc = <[run_id := job']> (JOBS sb)
                  /\ SLOT_RUNS sc = SLOT_RUNS sb
                  /\ CANCEL_FLAGS sc = delete run_id (CANCEL_FLAGS sb)
                  /\ JOB_META sc = delete run_id (JOB_META sb)
                  /\ threads sc = threads sb /\ DEVICES sc = DEVICES sb).
    { unfold sc, _update_job_status_locked. rewrite Hjb.
      change (JobStatus.slots jc) with (cancel_slot (now_iso E) <$> JobStatus.slots job).
      rewrite active_after_cancel, bool_decide_eq_false_2 by done.
      change (cancel_slot (now_iso E) <$> JobStatus.slots job) with (JobStatus.slots jc).
      fold status. cbv zeta. fold job'.
      change (JobStatus.run_id job') with (JobStatus.run_id job). rewrite Hrid.
      by destruct (bool_decide (status = done)). }
    destruct Hsc as (HcJ & HcS & HcF & HcM & HcT & HcD).
    exists job'.
    cbn [JOBS SLOT_RUNS CANCEL_FLAGS JOB_META threads DEVICES set_SLOT_RUNS].
    rewrite HcJ, Hb, insert_insert_eq, HcF, HcM, !lookup_delete_eq, HcT, HcD.
    split; [done|]. split; [done|]. split; [done|].
    split; [by apply Hrel|]. split; [done|]. split; [intros _; done|].
    unfold sb. cbn. by rewrite HaT, HaD.
Qed.

(** X19. What [cancel_job] does to a job that is not terminal. Every queued
    slot becomes cancelled and no other slot is changed; the reservations
    this run holds on the slots that were queued are released at once,
    all other reservations stay. While a slot is still running the job
    stays running and its flag is set for the workers to see; with no
    slot running the job becomes terminal and its flag and metadata are
    dropped. *)
Theorem cancel_job_effect (run_id : string) (E : env) (st : state)
    (job : JobStatus.t) :
  JOBS st !! run_id = Some job ->
  JobStatus.run_id job = run_id ->
  terminal (JobStatus.status job) = false ->
  let st' := (cancel_job run_id E st).1 in
  let queued_slots :=
    SlotStatus.slot
      <$> filter (fun s => SlotStatus.status s = queued) (JobStatus.slots job) in
  exists job',
    JOBS st' = <[run_id := job']> (JOBS st)
    /\ JobStatus.slots job' = cancel_slot (now_iso E) <$> JobStatus.slots job
    /\ Forall (fun s => SlotStatus.status s <> queued) (JobStatus.slots job')
    /\ (forall s, SLOT_RUNS st' !! s
                  = if bool_decide (s ∈ queued_slots /\ SLOT_RUNS st !! s = Some run_id)
                    then None else SLOT_RUNS st !! s)
    /\ (Exists (fun s => SlotStatus.status s = running) (JobStatus.slots job) ->
        JobStatus.status job' = running
        /\ CANCEL_FLAGS st' !! run_id = Some true)
    /\ (~ Exists (fun s => SlotStatus.status s = running) (JobStatus.slots job) ->
        terminal (JobStatus.status job') = true
        /\ JobStatus.ended_at job' = Some (now_iso E)
        /\ CANCEL_FLAGS st' !! run_id = None
        /\ JOB_META st' !! run_id = None).
Proof.
  intros Hjob Hrid Hterm st' queued_slots.
  destruct (cancel_job_spec run_id E st job Hjob Hrid Hterm)
    as (job' & H1 & H2 & H3 & H4 & H5 & H6 & _).
  by exists job'.
Qed.


Lemma update_job_status_full key now_iso st job :
  JOBS st !! key = Some job ->
  exists job',
    JOBS (_update_job_status_locked key now_iso st) = <[key := job']> (JOBS st)
    /\ status_consistent job'
    /\ JobStatus.slots job' = JobStatus.slots job
    /\ JobStatus.current_mode job' = JobStatus.current_mode job
    /\ JobStatus.remaining_modes job' = JobStatus.remaining_modes job
    /\ (terminal (JobStatus.status job') = true ->
        JobStatus.ended_at job' = Some now_iso)
    /\ SLOT_RUNS (_update_job_status_locked key now_iso st) = SLOT_RUNS st
    /\ threads (_update_job_status_locked key now_iso st) = threads st.
Proof.
  intros Hjob. unfold _update_job_status_locked. rewrite Hjob.
  rewrite existsb_active, !existsb_elem_of.
  set (l := SlotStatus.status <$> JobStatus.slots job).
  destruct (bool_decide (Exists (fun s => s = queued \/ s = running) l)) eqn:Hact.
  - eexists. split; [done|]. split; [|done].
    unfold status_consistent, spec_aggregate. simpl. fold l. by rewrite Hact.
  - destruct (bool_decide (failed ∈ l)) eqn:Hf;
      [|destruct (bool_decide (cancelled ∈ l)) eqn:Hc];
      (eexists; split; [done|]; split; [|done]);
      unfold status_consistent, spec_aggregate; simpl; fold l;
      rewrite Hact, ?Hf, ?Hc; done.
Qed.

(** X20. What the end of a slot's sequence records. The slot gets its
    terminal status from the error the sequence left: cancelled for
    ["cancelled"], done for none and also for an empty message, failed
    for any other text; the job's status is recomputed from its slots;
    a job that became terminal has its end time set and its current and
    remaining modes cleared; and the slot is no longer reserved for the
    run. *)
Theorem worker_finish_effect (tid : nat) (error : option string)
    (files : list string) (E : env) (st : state) (w : worker)
    (job : JobStatus.t) :
  threads st !! tid = Some w -> w_pc w = InSequence ->
  JOBS st !! w_run w = Some job ->
  let st' := worker_finish tid error files E st in
  (forall s,
     SlotStatus.status (finish_slot error files (now_iso E) s)
     = match error with
       | None => done
       | Some e => if String.eqb e "cancelled" then cancelled
                   else if String.eqb e "" then done else failed
       end)
  /\ exists job',
       JOBS st' = <[w_run w := job']> (JOBS st)
       /\ JobStatus.slots job'
          = alter (finish_slot error files (now_iso E)) (w_idx w) (JobStatus.slots job)
       /\ JobStatus.status job'
          = spec_aggregate (SlotStatus.status <$> JobStatus.slots job')
       /\ (terminal (JobStatus.status job') = true ->
           JobStatus.ended_at job' = Some (now_iso E)
           /\ JobStatus.current_mode job' = None
           /\ JobStatus.remaining_modes job' = [])
       /\ SLOT_RUNS st' !! w_slot w <> Some (w_run w)
       /\ (forall s, s <> w_slot w -> SLOT_RUNS st' !! s = SLOT_RUNS st !! s)
       /\ threads st' = <[tid := with_pc Exited w]> (threads st).
Proof.
  intros Hw Hpc Hjob st'. split.
  { intros s. unfold finish_slot. destruct error as [e|]; [|done].
    destruct (String.eqb e "cancelled"); [done|]. by destruct (String.eqb e ""). }
  set (sa := set_threads (<[tid := with_pc Exited w]> (threads st)) st).
  set (jf := JobStatus.with_slots
               (alter (finish_slot error files (now_iso E)) (w_idx w)
                      (JobStatus.slots job)) job).
  set (sb := set_JOBS (<[w_run w := jf]> (JOBS st)) sa).
  destruct (update_job_status_full (w_run w) (now_iso E) sb jf)
    as (job' & HJ & Hcons & Hslots & Hcur & Hrem & Hend & HS & HT).
  { unfold sb. simpl. by rewrite lookup_insert_eq. }
  set (sc := _update_job_status_locked (w_run w) (now_iso E) sb) in *.
  assert (HJ' : JOBS sc = <[w_run w := job']> (JOBS st)).
  { rewrite HJ. unfold sb. simpl. by rewrite insert_insert_eq. }
  set (sd := if terminal (JobStatus.status job')
             then set_JOBS (<[w_run w := JobStatus.with_current None [] job']>
                              (JOBS sc)) sc
             else sc).
  assert (Hst : st' = set_SLOT_RUNS (release [w_slot w] (w_run w) (SLOT_RUNS sd)) sd).
  { unfold st', worker_finish. rewrite Hw, Hpc. cbv zeta. fold sa.
    change (JOBS sa) with (JOBS st). rewrite Hjob. fold jf. fold sb. fold sc.
    assert (Hl : JOBS sc !! w_run w = Some job') by (by rewrite HJ', lookup_insert_eq).
    rewrite Hl. unfold sd.
    destruct (terminal (JobStatus.status job')); reflexivity. }
  clearbody st'. subst st'.
  assert (Hd : SLOT_RUNS sd = SLOT_RUNS st /\ threads sd = threads sc).
  { unfold sd. destruct (terminal (JobStatus.status job')); [cbn|]; by rewrite HS. }
  destruct Hd as [HdS HdT].
  assert (Hrel : release [w_slot w] (w_run w) (SLOT_RUNS sd) !! w_slot w <> Some (w_run w)
            /\ forall s, s <> w_slot w ->
                 release [w_slot w] (w_run w) (SLOT_RUNS sd) !! s = SLOT_RUNS st !! s).
  { rewrite HdS. split.
    - rewrite (lookup_release_at). case_bool_decide as Hc; [done|].
      intros Hs. apply Hc. split; [by left|done].
    - intros s Hs. rewrite (lookup_release_at).
      rewrite bool_decide_eq_false_2; [done|]. intros [Hin _].
      by apply list_elem_of_singleton in Hin. }
  destruct Hrel as [Hrel1 Hrel2].
  cbn [JOBS SLOT_RUNS threads set_SLOT_RUNS]. rewrite HdT, HT.
  unfold sd. destruct (terminal (JobStatus.status job')) eqn:Hterm.
  - exists (JobStatus.with_current None [] job').
    cbn [JOBS set_JOBS]. rewrite HJ', insert_insert_eq.
    split; [done|]. split; [exact Hslots|]. split; [apply Hcons|].
    split; [intros _; split; [by apply Hend|done]|]. done.
  - exists job'. split; [done|]. split; [exact Hslots|].
    split; [apply Hcons|]. split; [intros Ht; congruence|]. done.
Qed.

Lemma job_status_spec run_id E st :
  let r := job_status run_id E st in
  (JOBS st !! run_id = None ->
   r = (st, HTTPException 404 "jobs.not_found" "Unbekannte run_id"))
  /\ DEVICES r.1 = DEVICES st /\ JOBS r.1 = JOBS st /\ SLOT_RUNS r.1 = SLOT_RUNS st
  /\ JOB_GROUP_IDS r.1 = JOB_GROUP_IDS st
  /\ JOB_GROUP_FOLDERS r.1 = JOB_GROUP_FOLDERS st
  /\ CANCEL_FLAGS r.1 = CANCEL_FLAGS st
  /\ RUN_DIRECTORIES r.1 = RUN_DIRECTORIES st /\ run_index r.1 = run_index st
  /\ threads r.1 = threads st /\ uploads r.1 = uploads st
  /\ (forall job, JOBS st !! run_id = Some job ->
        (JOB_META r.1 = JOB_META st
         \/ (JobStatus.status job = running
             /\ exists m, JOB_META r.1 = <[JobStatus.run_id job := m]> (JOB_META st)))
        /\ (JobStatus.status job <> running -> r.1 = st)
        /\ match r.2 with
           | Ok snap => exists pct rem, snap = JobStatus.with_progress pct rem job
           | HTTPException _ _ _ => False
           | Unhandled _ => True
           end).
Proof.
  intros r. subst r. unfold App.job_status.
  destruct (JOBS st !! run_id) as [job|] eqn:Hjob.
  2:{ split; [done|]. do 10 (split; [done|]). by intros j. }
  split; [done|].
  pose proof (job_snapshot_frame float_of_str log10 pow10 fromisoformat job (now E) st)
    as HS.
  pose proof (job_snapshot_meta float_of_str log10 pow10 fromisoformat job (now E) st)
    as HM.
  pose proof (job_snapshot_result float_of_str log10 pow10 fromisoformat job (now E) st)
    as HR.
  destruct (job_snapshot job (now E) st) as [st1 snap]. cbn [fst snd] in *.
  destruct HS as (H1 & H2 & H3 & H4 & H5 & H6 & H7 & H8 & H9 & H10).
  do 10 (split; [done|]).
  intros j [= <-]. split; [exact HM|]. split.
  - intros Hnr. destruct HM as [HM|[? _]]; [|done]. by apply state_eq.
  - destruct snap as [snap|e]; [|done]. by apply HR.
Qed.




End HandlerFacts.

(* ===================================================================== *)
(** * Properties of the job overview                                      *)
(* ===================================================================== *)
Section ListingFacts.
Import App Listing.

Variable lower : string -> string.
Variable is_dir : string -> bool.
Variable parts : string -> option (list string).

#[local] Abbreviation resolve_run_directory := (Listing.resolve_run_directory is_dir).
#[local] Abbreviation _derive_group_folder := (Listing._derive_group_folder is_dir parts).
#[local] Abbreviation group_allows := (Listing.group_allows lower is_dir parts).
#[local] Abbreviation collect := (Listing.collect lower is_dir parts).
#[local] Abbreviation list_jobs := (Listing.list_jobs lower is_dir parts).
#[local] Abbreviation group_names := (Listing.group_names lower is_dir parts).
#[local] Abbreviation selected := (Listing.selected lower is_dir parts).
#[local] Abbreviation cached_only := (Listing.cached_only is_dir).

(** ** The order of the sort keys *)

Lemma ascii_compare_refl c : Ascii.compare c c = Eq.
Proof. unfold Ascii.compare. apply N.compare_refl. Qed.

Lemma ascii_compare_lt_trans a b c :
  Ascii.compare a b = Lt -> Ascii.compare b c = Lt -> Ascii.compare a c = Lt.
Proof.
  unfold Ascii.compare. rewrite !N.compare_lt_iff. apply N.lt_trans.
Qed.

Lemma str_compare_refl s : String.compare s s = Eq.
Proof. induction s as [|c s IH]; [done|]. cbn. by rewrite ascii_compare_refl. Qed.

Lemma str_compare_lt_trans a b c :
  String.compare a b = Lt -> String.compare b c = Lt -> String.compare a c = Lt.
Proof.
  revert b c. induction a as [|x a IH]; intros [|y b] [|z c]; cbn; try done.
  destruct (Ascii.compare x y) eqn:Hxy; try done.
  - apply Ascii.compare_eq_iff in Hxy as ->.
    destruct (Ascii.compare y z) eqn:Hyz; try done. apply IH.
  - destruct (Ascii.compare y z) eqn:Hyz; try done.
    + apply Ascii.compare_eq_iff in Hyz as ->. by rewrite Hxy.
    + by rewrite (ascii_compare_lt_trans x y z).
Qed.

Lemma str_leb_trans a b c :
  String.leb a b = true -> String.leb b c = true -> String.leb a c = true.
Proof.
  unfold String.leb.
  destruct (String.compare a b) eqn:Hab; try done;
    destruct (String.compare b c) eqn:Hbc; try done; intros _ _.
  - apply String.compare_eq_iff in Hab as ->. by rewrite Hbc.
  - apply String.compare_eq_iff in Hab as ->. by rewrite Hbc.
  - apply String.compare_eq_iff in Hbc as <-. by rewrite Hab.
  - by rewrite (str_compare_lt_trans a b c).
Qed.

Lemma key_leb_total a b : key_leb a b = true \/ key_leb b a = true.
Proof.
  unfold key_leb. rewrite (String.compare_antisym b.1 a.1).
  destruct (String.compare a.1 b.1); cbn; [apply String.leb_total|by left|by right].
Qed.

Lemma key_leb_trans a b c :
  key_leb a b = true -> key_leb b c = true -> key_leb a c = true.
Proof.
  unfold key_leb.
  destruct (String.compare a.1 b.1) eqn:Hab; try done;
    destruct (String.compare b.1 c.1) eqn:Hbc; try done.
  - apply String.compare_eq_iff in Hab. apply String.compare_eq_iff in Hbc.
    rewrite Hab, Hbc, str_compare_refl. apply str_leb_trans.
  - apply String.compare_eq_iff in Hab. rewrite Hab, Hbc. done.
  - apply String.compare_eq_iff in Hbc. rewrite <- Hbc, Hab. done.
  - by rewrite (str_compare_lt_trans a.1 b.1 c.1).
Qed.

Lemma key_leb_antisym a b :
  key_leb a b = true -> key_leb b a = true -> a = b.
Proof.
  unfold key_leb. rewrite (String.compare_antisym b.1 a.1).
  destruct (String.compare a.1 b.1) eqn:Hab; cbn; try done.
  apply String.compare_eq_iff in Hab. intros H1 H2.
  destruct a, b; cbn in *. f_equal; [done|by apply String.leb_antisym].
Qed.

Lemma newer_first_total : Total newer_first.
Proof. intros a b. unfold newer_first. destruct (key_leb_total (sort_key b) (sort_key a)); auto. Qed.

Lemma newer_first_trans : Transitive newer_first.
Proof. intros a b c Hab Hbc. unfold newer_first in *. by apply (key_leb_trans _ (sort_key b)). Qed.

(** ** Resolving a run directory from the registries *)

Lemma set_RUN_DIRECTORIES_id st : set_RUN_DIRECTORIES (RUN_DIRECTORIES st) st = st.
Proof. by destruct st. Qed.

Lemma resolve_run_directory_spec rid st :
  let r := resolve_run_directory rid st in
  r.1 = st
  \/ exists d, is_dir d = true
               /\ r.1 = set_RUN_DIRECTORIES (<[rid := d]> (RUN_DIRECTORIES st)) st.
Proof.
  unfold Listing.resolve_run_directory, RunIndex.resolve_run_directory. cbn.
  destruct (RUN_DIRECTORIES st !! rid) as [c|] eqn:Hc.
  - destruct (is_dir c) eqn:Hd; cbn; [left; apply set_RUN_DIRECTORIES_id|].
    destruct (run_index st !! rid) as [rel|] eqn:Hrel.
    + destruct (negb (String.eqb rel "") && is_dir rel) eqn:Hr; cbn.
      * apply andb_true_iff in Hr as [_ Hr]. right. by exists rel.
      * destruct (is_dir rid) eqn:Hf; cbn; [right; by exists rid|].
        left; apply set_RUN_DIRECTORIES_id.
    + destruct (is_dir rid) eqn:Hf; cbn; [right; by exists rid|].
      left; apply set_RUN_DIRECTORIES_id.
  - destruct (run_index st !! rid) as [rel|] eqn:Hrel.
    + destruct (negb (String.eqb rel "") && is_dir rel) eqn:Hr; cbn.
      * apply andb_true_iff in Hr as [_ Hr]. right. by exists rel.
      * destruct (is_dir rid) eqn:Hf; cbn; [right; by exists rid|].
        left; apply set_RUN_DIRECTORIES_id.
    + destruct (is_dir rid) eqn:Hf; cbn; [right; by exists rid|].
      left; apply set_RUN_DIRECTORIES_id.
Qed.

Lemma resolve_run_directory_ext rid a b :
  RUN_DIRECTORIES a !! rid = RUN_DIRECTORIES b !! rid ->
  run_index a !! rid = run_index b !! rid ->
  (resolve_run_directory rid a).2 = (resolve_run_directory rid b).2.
Proof.
  intros H1 H2.
  unfold Listing.resolve_run_directory, RunIndex.resolve_run_directory. cbn.
  rewrite H1, H2.
  destruct (RUN_DIRECTORIES b !! rid) as [c|]; [destruct (is_dir c); [done|]|];
    (destruct (run_index b !! rid) as [rel|];
     [destruct (negb (String.eqb rel "") && is_dir rel); [done|]|];
     by destruct (is_dir rid)).
Qed.

Lemma derive_group_folder_eq rid st :
  _derive_group_folder rid st
  = ((resolve_run_directory rid st).1,
     match (resolve_run_directory rid st).2 with
     | Ok run_dir =>
         match parts run_dir with
         | Some ps =>
             if bool_decide (3 <= length ps) then ps !! (length ps - 2) else None
         | None => None
         end
     | _ => None
     end).
Proof.
  unfold Listing._derive_group_folder.
  destruct (resolve_run_directory rid st) as [st' [d| |]]; reflexivity.
Qed.


Lemma cached_only_refl st : cached_only [] st st.
Proof. repeat split; try done. by left. Qed.

Lemma cached_only_weaken l l' st st' :
  l ⊆ l' -> cached_only l st st' -> cached_only l' st st'.
Proof.
  intros Hl (H1 & H2 & H3 & H4 & H5 & H6 & H7 & H8 & H9 & H10 & H11).
  do 10 (split; [done|]). intros rid.
  destruct (H11 rid) as [H|[Hin H]]; [by left|right]. split; [by apply Hl|done].
Qed.

Lemma cached_only_trans l st st' st'' :
  cached_only l st st' -> cached_only l st' st'' -> cached_only l st st''.
Proof.
  intros (H1 & H2 & H3 & H4 & H5 & H6 & H7 & H8 & H9 & H10 & H11)
         (G1 & G2 & G3 & G4 & G5 & G6 & G7 & G8 & G9 & G10 & G11).
  do 10 (split; [congruence|]). intros rid.
  destruct (G11 rid) as [G|G]; [|by right].
  rewrite G. apply H11.
Qed.

Lemma derive_cached rid st :
  cached_only [rid] st (_derive_group_folder rid st).1
  /\ (forall k, k <> rid ->
        RUN_DIRECTORIES (_derive_group_folder rid st).1 !! k
        = RUN_DIRECTORIES st !! k).
Proof.
  rewrite derive_group_folder_eq. cbn [fst].
  destruct (resolve_run_directory_spec rid st) as [->|(d & Hd & ->)].
  - split; [|done]. apply (cached_only_weaken []); [apply list_subseteq_nil|apply cached_only_refl].
  - split.
    + do 10 (split; [reflexivity|]). intros k. cbn.
      destruct (decide (k = rid)) as [->|Hne].
      * right. split; [apply elem_of_cons; by left|]. exists d. by rewrite lookup_insert_eq.
      * left. by rewrite lookup_insert_ne.
    + intros k Hne. cbn. by rewrite lookup_insert_ne.
Qed.

Lemma derive_group_folder_ext rid a b :
  RUN_DIRECTORIES a !! rid = RUN_DIRECTORIES b !! rid ->
  run_index a = run_index b ->
  (_derive_group_folder rid a).2 = (_derive_group_folder rid b).2.
Proof.
  intros H1 H2. rewrite !derive_group_folder_eq. cbn [snd].
  rewrite (resolve_run_directory_ext rid a b); [done|done|by rewrite H2].
Qed.

Lemma group_allows_eq g rid st :
  group_allows g (JOB_GROUP_IDS st) (JOB_GROUP_FOLDERS st) rid st
  = ((_derive_group_folder rid st).1, bool_decide (g ∈ group_names rid st)).
Proof.
  unfold Listing.group_allows, Listing.group_names.
  destruct (_derive_group_folder rid st) as [st1 folder]. cbn [fst snd].
  f_equal. apply bool_decide_ext.
  cbn [omap list_omap].
  destruct (_normalize_group_value (JOB_GROUP_IDS st !! rid)),
    (_normalize_group_value (JOB_GROUP_FOLDERS st !! rid)),
    (_normalize_group_value folder); reflexivity.
Qed.

Lemma group_allows_from g rid st0 st :
  RUN_DIRECTORIES st !! rid = RUN_DIRECTORIES st0 !! rid ->
  run_index st = run_index st0 ->
  group_allows g (JOB_GROUP_IDS st0) (JOB_GROUP_FOLDERS st0) rid st
  = ((_derive_group_folder rid st).1, bool_decide (g ∈ group_names rid st0)).
Proof.
  intros H1 H2.
  pose proof (derive_group_folder_ext rid st st0 H1 H2) as He.
  pose proof (group_allows_eq g rid st0) as H0.
  unfold Listing.group_allows, Listing.group_names in *.
  destruct (_derive_group_folder rid st) as [st1 folder].
  destruct (_derive_group_folder rid st0) as [st2 folder0].
  cbn [fst snd] in *. subst folder0.
  f_equal. exact (f_equal snd H0).
Qed.

Lemma collect_cons state gl ids folders rid job rest st :
  collect state gl ids folders ((rid, job) :: rest) st
  = if negb (state_allows state (_job_overview_status job)) then
      collect state gl ids folders rest st
    else
      let k := match gl with
               | Some g => if String.eqb g "" then (st, true)
                           else group_allows g ids folders rid st
               | None => (st, true)
               end in
      let r := collect state gl ids folders rest k.1 in
      (r.1, if k.2 then overview rid job :: r.2 else r.2).
Proof.
  cbn [Listing.collect].
  destruct (negb (state_allows state (_job_overview_status job))); [done|].
  destruct gl as [g|]; [destruct (String.eqb g "")|]; cbn zeta.
  - cbn [fst snd]. by destruct (collect state (Some g) ids folders rest st).
  - destruct (group_allows g ids folders rid st) as [st1 keep]. cbn [fst snd].
    by destruct (collect state (Some g) ids folders rest st1).
  - cbn [fst snd]. by destruct (collect state None ids folders rest st).
Qed.

(** What the loop collects and what it leaves of the state. *)
Lemma collect_spec state gl (entries : list (string * JobStatus.t)) st0 st :
  NoDup entries.*1 ->
  run_index st = run_index st0 ->
  (forall rid, rid ∈ entries.*1 ->
     RUN_DIRECTORIES st !! rid = RUN_DIRECTORIES st0 !! rid) ->
  let r := collect state gl (JOB_GROUP_IDS st0) (JOB_GROUP_FOLDERS st0) entries st in
  r.2 = (fun e => overview e.1 e.2)
          <$> filter (fun e => selected state gl st0 e.1 e.2 = true) entries
  /\ cached_only entries.*1 st r.1
  /\ (gl = None \/ gl = Some "" -> r.1 = st).
Proof.
  revert st. induction entries as [|[rid job] rest IH]; intros st Hnd Hidx Hdirs.
  - cbn. split; [done|]. split; [apply cached_only_refl|done].
  - rewrite fmap_cons in Hnd. apply NoDup_cons in Hnd as [Hnot Hnd].
    cbn zeta. rewrite collect_cons, filter_cons. cbn [fst snd].
    assert (Hsel : selected state gl st0 rid job
                   = state_allows state (_job_overview_status job)
                     && match gl with
                        | Some g => String.eqb g "" || bool_decide (g ∈ group_names rid st0)
                        | None => true
                        end) by reflexivity.
    destruct (state_allows state (_job_overview_status job)) eqn:Hallow;
      cbn [negb andb] in *.
    2:{ rewrite decide_False by (rewrite Hsel; done).
        destruct (IH st Hnd Hidx) as (H1 & H2 & H3).
        { intros k Hk. apply Hdirs. rewrite fmap_cons. apply elem_of_cons. by right. }
        split; [done|]. split; [|done].
        eapply cached_only_weaken; [|exact H2]. rewrite fmap_cons.
        by apply list_subseteq_cons. }
    set (k := match gl with
              | Some g => if String.eqb g "" then (st, true)
                          else group_allows g (JOB_GROUP_IDS st0) (JOB_GROUP_FOLDERS st0) rid st
              | None => (st, true)
              end).
    assert (Hk : k.2 = match gl with
                       | Some g => String.eqb g "" || bool_decide (g ∈ group_names rid st0)
                       | None => true
                       end
                 /\ cached_only [rid] st k.1
                 /\ (forall x, x <> rid -> RUN_DIRECTORIES k.1 !! x = RUN_DIRECTORIES st !! x)
                 /\ (gl = None \/ gl = Some "" -> k.1 = st)).
    { subst k. destruct gl as [g|].
      - destruct (String.eqb g "") eqn:Hg.
        + split; [done|]. split; [|done].
          apply (cached_only_weaken []); [apply list_subseteq_nil|apply cached_only_refl].
        + rewrite group_allows_from; [|apply Hdirs; rewrite fmap_cons; apply elem_of_cons; by left|done].
          cbn [fst snd]. split; [done|]. destruct (derive_cached rid st) as [Hc Ho].
          split; [done|]. split; [done|].
          intros [|[= ->]]; [done|]. by rewrite String.eqb_refl in Hg.
      - split; [done|]. split; [|done].
        apply (cached_only_weaken []); [apply list_subseteq_nil|apply cached_only_refl]. }
    destruct Hk as (Hk2 & Hkc & Hko & Hks). cbn zeta.
    destruct (IH k.1 Hnd) as (H1 & H2 & H3).
    { destruct Hkc as (_ & _ & _ & _ & _ & _ & _ & -> & _). done. }
    { intros x Hx. rewrite Hko; [|intros ->; done].
      apply Hdirs. rewrite fmap_cons. apply elem_of_cons. by right. }
    cbn [fst snd]. split; [|split].
    + rewrite Hk2, H1. rewrite <- Hsel.
      destruct (selected state gl st0 rid job).
      * rewrite decide_True by done. by rewrite fmap_cons.
      * rewrite decide_False by done. done.
    + apply (cached_only_trans _ _ k.1).
      * eapply cached_only_weaken; [|exact Hkc]. rewrite fmap_cons.
        apply list_subseteq_skip, list_subseteq_nil.
      * eapply cached_only_weaken; [|exact H2]. rewrite fmap_cons.
        by apply list_subseteq_cons.
    + intros Hgl. rewrite H3 by done. by apply Hks.
Qed.


(** The listing: the selected entries of [JOBS], sorted, and the state the
    loop leaves. *)
Lemma list_jobs_eq state group_id st :
  let gl := lower <$> _normalize_group_value group_id in
  let r := list_jobs state group_id st in
  r.2 = merge_sort newer_first
          ((fun e => overview e.1 e.2)
             <$> filter (fun e => selected state gl st e.1 e.2 = true)
                   (map_to_list (JOBS st)))
  /\ cached_only (map_to_list (JOBS st)).*1 st r.1
  /\ (gl = None \/ gl = Some "" -> r.1 = st).
Proof.
  intros gl r. subst r. unfold Listing.list_jobs. fold gl.
  destruct (collect_spec state gl (map_to_list (JOBS st)) st st
              (NoDup_fst_map_to_list (JOBS st)) eq_refl (fun _ _ => eq_refl))
    as (H1 & H2 & H3).
  destruct (collect state gl (JOB_GROUP_IDS st) (JOB_GROUP_FOLDERS st)
              (map_to_list (JOBS st)) st) as [st' results].
  cbn [fst snd] in *. by rewrite H1.
Qed.

Lemma selected_true state gl st rid job :
  selected state gl st rid job = true
  <-> state_allows state (_job_overview_status job) = true
      /\ (forall g, gl = Some g -> g <> "" -> g ∈ group_names rid st).
Proof.
  unfold Listing.selected. rewrite andb_true_iff.
  apply and_iff_compat_l. destruct gl as [g|].
  - rewrite orb_true_iff, bool_decide_eq_true, String.eqb_eq. split.
    + intros [->|H] g' [= <-] Hne; done.
    + intros H. destruct (decide (g = "")) as [->|Hne]; [by left|right]. by apply H.
  - split; [by intros _ g [=]|done].
Qed.


(** X24. What [GET /jobs] changes. Without a group filter it changes
    nothing. With one it changes [RUN_DIRECTORIES] only, and there only
    entries of registered jobs, each to a directory that exists; the jobs,
    the slot reservations, the metadata, the group registries, the cancel
    flags and the run index are as before. *)
Theorem list_jobs_caches_directories_only (state : option state_filter)
    (group_id : option string) (st : App.state) :
  let st' := (list_jobs state group_id st).1 in
  (_normalize_group_value group_id = None -> st' = st)
  /\ DEVICES st' = DEVICES st /\ JOBS st' = JOBS st /\ SLOT_RUNS st' = SLOT_RUNS st
  /\ JOB_META st' = JOB_META st /\ JOB_GROUP_IDS st' = JOB_GROUP_IDS st
  /\ JOB_GROUP_FOLDERS st' = JOB_GROUP_FOLDERS st
  /\ CANCEL_FLAGS st' = CANCEL_FLAGS st /\ run_index st' = run_index st
  /\ threads st' = threads st /\ uploads st' = uploads st
  /\ (forall rid,
        RUN_DIRECTORIES st' !! rid = RUN_DIRECTORIES st !! rid
        \/ is_Some (JOBS st !! rid)
           /\ exists d, RUN_DIRECTORIES st' !! rid = Some d /\ is_dir d = true).
Proof.
  intros st'. subst st'.
  destruct (list_jobs_eq state group_id st)
    as (_ & (H1 & H2 & H3 & H4 & H5 & H6 & H7 & H8 & H9 & H10 & H11) & Hsame).
  split; [intros Hn; apply Hsame; left; by rewrite Hn|].
  do 10 (split; [done|]). intros rid.
  destruct (H11 rid) as [H|[Hin H]]; [by left|right]. split; [|done].
  apply list_elem_of_fmap in Hin as ([k job] & -> & Hin).
  apply elem_of_map_to_list in Hin. by exists job.
Qed.

End ListingFacts.
(* ===================================================================== *)
(** * The further properties on the inputs of the scenarios               *)
(* ===================================================================== *)

Lemma submitted_reachable :
  App.reachable Scenario.float_of_str Scenario.libm Scenario.libm
    Scenario.epoch_only Scenario.submitted.
Proof.
  unfold Scenario.submitted, Scenario.start_job.
  apply (App.reachable_step _ _ _ _ Scenario.booted);
    [|exact (App.step_start_job Scenario.float_of_str Scenario.libm Scenario.libm
               Scenario.epoch_only Scenario.request_a Scenario.E0 Scenario.booted)].
  unfold Scenario.booted. apply App.reachable_boot.
Qed.


(** The first run directory a process records. *)
Lemma recorded_directory_resolves_witness :
  RunIndex.resolve_run_directory Scenario.one_run_dir "run_a"
    (RunIndex.record_run_directory "run_a" "exp/2024-01-02T03-04-05" true
       Scenario.no_index).1
  = ((RunIndex.record_run_directory "run_a" "exp/2024-01-02T03-04-05" true
        Scenario.no_index).1,
     Ok "exp/2024-01-02T03-04-05")
  /\ (RunIndex.resolve_run_directory Scenario.one_run_dir "run_a"
        (RunIndex.configure_runs_root Scenario.one_run_dir
           (RunIndex.record_run_directory "run_a" "exp/2024-01-02T03-04-05" true
              Scenario.no_index).1)).2
     = Ok "exp/2024-01-02T03-04-05".
Proof.
  pose proof (recorded_directory_resolves Scenario.one_run_dir "run_a"
                "exp/2024-01-02T03-04-05" Scenario.no_index eq_refl)
    as (_ & Hnow & Hlater).
  split; [exact Hnow|]. rewrite Hlater. reflexivity.
Defined.

(** Two of three files arrived over SSH. *)
Lemma ssh_verification_outcome_witness :
  Nas.markers (NasSsh._upload_worker "run_a" Scenario.ssh_two_of_three Scenario.idle)
  = <["upload_failed" := Nas.verify_mismatch 3 2]> (Nas.markers Scenario.idle)
  /\ Nas.markers (NasSsh._upload_worker "run_a" Scenario.ssh_two_of_three Scenario.idle)
     !! "UPLOAD_DONE" = Nas.markers Scenario.idle !! "UPLOAD_DONE".
Proof.
  assert (H : (0 <= NasSsh.remote_count Scenario.ssh_two_of_three
               < NasSsh.local_count Scenario.ssh_two_of_three)%Z)
    by (vm_compute; split; [discriminate|reflexivity]).
  exact (proj1 (ssh_verification_outcome "run_a" Scenario.ssh_two_of_three
                  Scenario.idle eq_refl eq_refl eq_refl eq_refl) H).
Defined.





(** [run_a] cancelled before its worker has begun. *)
Lemma cancel_job_effect_witness :
  exists job',
    App.JOBS (App.cancel_job "run_a" Scenario.E0 Scenario.submitted).1 !! "run_a"
    = Some job'
    /\ App.terminal (App.JobStatus.status job') = true
    /\ App.JobStatus.ended_at job' = Some (App.now_iso Scenario.E0)
    /\ App.CANCEL_FLAGS (App.cancel_job "run_a" Scenario.E0 Scenario.submitted).1
       !! "run_a" = None
    /\ App.JOB_META (App.cancel_job "run_a" Scenario.E0 Scenario.submitted).1
       !! "run_a" = None
    /\ App.SLOT_RUNS (App.cancel_job "run_a" Scenario.E0 Scenario.submitted).1
       !! "slot01" = None.
Proof.
  destruct (App.JOBS Scenario.submitted !! "run_a") as [job|] eqn:Hjob;
    [|vm_compute in Hjob; discriminate].
  assert (Hjob' : Some job = App.JOBS Scenario.submitted !! "run_a") by done.
  vm_compute in Hjob'. injection Hjob' as ->.
  destruct (cancel_job_effect "run_a" Scenario.E0 Scenario.submitted _ Hjob
              eq_refl eq_refl)
    as (job' & HJ & _ & _ & HSR & _ & Hidle).
  destruct Hidle as (Ht & He & Hf & Hm).
  { apply (bool_decide_unpack _). vm_compute. exact I. }
  exists job'. rewrite HJ, lookup_insert_eq.
  do 5 (split; [done|]).
  rewrite HSR. vm_compute. reflexivity.
Defined.

(** The worker of [run_a] ends its sequence without an error. *)
Lemma worker_finish_effect_witness :
  exists job',
    App.JOBS (App.worker_finish 0 None ["CV/slot01.csv"] Scenario.E0
                Scenario.measuring) !! "run_a" = Some job'
    /\ App.JobStatus.status job' = App.done
    /\ App.JobStatus.ended_at job' = Some (App.now_iso Scenario.E0)
    /\ App.SLOT_RUNS (App.worker_finish 0 None ["CV/slot01.csv"] Scenario.E0
                        Scenario.measuring) !! "slot01" <> Some "run_a".
Proof.
  destruct (App.threads Scenario.measuring !! 0) as [w|] eqn:Hw;
    [|vm_compute in Hw; discriminate].
  assert (Hw' : Some w = App.threads Scenario.measuring !! 0) by done.
  vm_compute in Hw'. injection Hw' as ->.
  destruct (App.JOBS Scenario.measuring !! "run_a") as [job|] eqn:Hjob;
    [|vm_compute in Hjob; discriminate].
  assert (Hjob' : Some job = App.JOBS Scenario.measuring !! "run_a") by done.
  vm_compute in Hjob'. injection Hjob' as ->.
  destruct (proj2 (worker_finish_effect 0 None ["CV/slot01.csv"] Scenario.E0
                     Scenario.measuring _ _ Hw eq_refl Hjob))
    as (job' & HJ & Hslots & Hstatus & Hend & Hslot & _).
  assert (Hdone : App.JobStatus.status job' = App.done).
  { rewrite Hstatus, Hslots. vm_compute. reflexivity. }
  exists job'. split; [rewrite HJ; apply lookup_insert_eq|].
  split; [exact Hdone|]. split; [|exact Hslot].
  apply Hend. rewrite Hdone. reflexivity.
Defined.

